(** * The chat backend: relational schema and user controller

    A shallow embedding of the PostgreSQL schema (the DDL file) and of
    [src/controllers/user.controller.js].

    - [Sql]: values, rows, the schema as data, and the meaning of the
      statements the code issues (INSERT, UPDATE, DELETE with the
      ON DELETE actions of the foreign keys).
    - [Js]: the JavaScript values a request carries, truthiness, [parseInt].
    - [Http]: requests, the response envelope, errors, and the state and
      error monad in which handlers run.
    - [UserService], [Messaging]: the service layer, which the controller
      requires but whose code is not part of the sources.
    - [UserController]: the handlers, line by line.
    - [BlockedUsers]: the handler that lists blocked users, with its SELECT.
    - [Index]: the settings [src/index.js] reads from the environment. *)

From Stdlib Require Import ZArith Lia Ascii String.
From stdpp Require Import base option list gmap strings pretty.

Open Scope string_scope.
Open Scope list_scope.

(* ===================================================================== *)
(** ** SQL values, schema, statements                                     *)
(* ===================================================================== *)

Module Sql.

(** UUID, VARCHAR, TEXT and JSONB values are carried as text, timestamps
    and INTEGER as integers.  Values are not coerced to the column type. *)
Inductive sqlval :=
| VNull
| VText (s : string)
| VBool (b : bool)
| VInt (n : Z).

#[global] Instance sqlval_eq_dec : EqDecision sqlval.
Proof. solve_decision. Defined.

Definition is_null (v : sqlval) : bool :=
  match v with VNull => true | _ => false end.

(** A row maps column names to values. *)
Abbreviation row := (gmap string sqlval).
(** A database maps table names to their rows. *)
Abbreviation database := (gmap string (list row)).

Definition col (r : row) (c : string) : sqlval := default VNull (r !! c).
Definition rows (db : database) (t : string) : list row := default [] (db !! t).

(** *** The schema as data *)

Inductive coltype :=
| UUID | VARCHAR (n : nat) | TEXT | BOOLEAN | INTEGER | TIMESTAMPTZ | JSONB.

Inductive coldefault :=
| NoDefault
| uuid_generate_v4
| CURRENT_TIMESTAMP
| Const (v : sqlval).

Record column := Column {
  col_name : string;
  col_type : coltype;
  col_not_null : bool;
  col_default : coldefault
}.

Inductive on_delete := CASCADE | SET_NULL.

#[global] Instance on_delete_eq_dec : EqDecision on_delete.
Proof. solve_decision. Defined.

(** FOREIGN KEY (fk_column) REFERENCES fk_table(id) ON DELETE fk_action *)
Record foreign_key := ForeignKey {
  fk_column : string;
  fk_table : string;
  fk_action : on_delete
}.

(** The boolean expressions that occur in CHECK constraints. *)
Inductive cond :=
| IsNull (c : string)
| IsNotNull (c : string)
| And (a b : cond)
| Or (a b : cond).

Fixpoint eval_cond (e : cond) (r : row) : bool :=
  match e with
  | IsNull c => is_null (col r c)
  | IsNotNull c => negb (is_null (col r c))
  | And a b => eval_cond a r && eval_cond b r
  | Or a b => eval_cond a r || eval_cond b r
  end.

Record table := Table {
  tbl_name : string;
  tbl_columns : list column;
  tbl_foreign_keys : list foreign_key;
  tbl_unique : list (list string);
  tbl_check : list cond
}.

Definition id_pk : column := Column "id" UUID true uuid_generate_v4.
Definition created_at : column := Column "created_at" TIMESTAMPTZ false CURRENT_TIMESTAMP.
Definition updated_at : column := Column "updated_at" TIMESTAMPTZ false CURRENT_TIMESTAMP.
Definition flag (name : string) (d : bool) : column :=
  Column name BOOLEAN false (Const (VBool d)).

Definition users : table := Table "users"
  [ id_pk;
    Column "phone_number" (VARCHAR 15) true NoDefault;
    Column "name" (VARCHAR 100) false NoDefault;
    Column "email" (VARCHAR 100) false NoDefault;
    Column "photo" (VARCHAR 255) false NoDefault;
    Column "status" (VARCHAR 255) false NoDefault;
    flag "verified" false;
    flag "disabled" false;
    Column "role" (VARCHAR 20) false (Const (VText "user"));
    created_at; updated_at ]
  []
  [ ["id"]; ["phone_number"] ]
  [].

Definition otps : table := Table "otps"
  [ id_pk;
    Column "user_id" UUID false NoDefault;
    Column "phone_number" (VARCHAR 15) true NoDefault;
    Column "otp_code" (VARCHAR 6) true NoDefault;
    Column "expires_at" TIMESTAMPTZ true NoDefault;
    created_at ]
  [ ForeignKey "user_id" "users" CASCADE ]
  [ ["id"] ]
  [].

Definition sessions : table := Table "sessions"
  [ id_pk;
    Column "user_id" UUID true NoDefault;
    Column "token" TEXT true NoDefault;
    Column "expires_at" TIMESTAMPTZ true NoDefault;
    created_at ]
  [ ForeignKey "user_id" "users" CASCADE ]
  [ ["id"] ]
  [].

Definition groups : table := Table "groups"
  [ id_pk;
    Column "name" (VARCHAR 100) true NoDefault;
    Column "created_by" UUID true NoDefault;
    Column "photo" (VARCHAR 255) false NoDefault;
    flag "only_admins_can_post" false;
    flag "disabled" false;
    created_at; updated_at ]
  [ ForeignKey "created_by" "users" CASCADE ]
  [ ["id"] ]
  [].

Definition group_members : table := Table "group_members"
  [ id_pk;
    Column "group_id" UUID true NoDefault;
    Column "user_id" UUID true NoDefault;
    flag "is_admin" false;
    Column "added_by" UUID false NoDefault;
    Column "joined_at" TIMESTAMPTZ false CURRENT_TIMESTAMP ]
  [ ForeignKey "group_id" "groups" CASCADE;
    ForeignKey "user_id" "users" CASCADE;
    ForeignKey "added_by" "users" SET_NULL ]
  [ ["id"]; ["group_id"; "user_id"] ]
  [].

Definition messages : table := Table "messages"
  [ id_pk;
    Column "from_id" UUID true NoDefault;
    Column "to_id" UUID false NoDefault;
    Column "group_id" UUID false NoDefault;
    Column "content" TEXT false NoDefault;
    Column "metadata" JSONB false NoDefault;
    Column "type" INTEGER true NoDefault;
    created_at ]
  [ ForeignKey "from_id" "users" CASCADE;
    ForeignKey "to_id" "users" CASCADE;
    ForeignKey "group_id" "groups" CASCADE ]
  [ ["id"] ]
  [ Or (And (IsNull "to_id") (IsNotNull "group_id"))
       (And (IsNotNull "to_id") (IsNull "group_id")) ].

Definition user_messages : table := Table "user_messages"
  [ id_pk;
    Column "user_id" UUID true NoDefault;
    Column "message_id" UUID true NoDefault;
    flag "is_read" false;
    created_at ]
  [ ForeignKey "user_id" "users" CASCADE;
    ForeignKey "message_id" "messages" CASCADE ]
  [ ["id"]; ["user_id"; "message_id"] ]
  [].

Definition blocked_users : table := Table "blocked_users"
  [ id_pk;
    Column "blocker_id" UUID true NoDefault;
    Column "blocked_id" UUID true NoDefault;
    created_at ]
  [ ForeignKey "blocker_id" "users" CASCADE;
    ForeignKey "blocked_id" "users" CASCADE ]
  [ ["id"]; ["blocker_id"; "blocked_id"] ]
  [].

Definition notification_tokens : table := Table "notification_tokens"
  [ id_pk;
    Column "user_id" UUID true NoDefault;
    Column "token" TEXT true NoDefault;
    Column "device_id" (VARCHAR 100) false NoDefault;
    created_at ]
  [ ForeignKey "user_id" "users" CASCADE ]
  [ ["id"]; ["token"] ]
  [].

Definition reported_users : table := Table "reported_users"
  [ id_pk;
    Column "reporter_id" UUID true NoDefault;
    Column "reported_id" UUID true NoDefault;
    Column "reason" TEXT false NoDefault;
    created_at ]
  [ ForeignKey "reporter_id" "users" CASCADE;
    ForeignKey "reported_id" "users" CASCADE ]
  [ ["id"] ]
  [].

Definition reported_groups : table := Table "reported_groups"
  [ id_pk;
    Column "reporter_id" UUID true NoDefault;
    Column "group_id" UUID true NoDefault;
    Column "reason" TEXT false NoDefault;
    created_at ]
  [ ForeignKey "reporter_id" "users" CASCADE;
    ForeignKey "group_id" "groups" CASCADE ]
  [ ["id"] ]
  [].

Definition app_settings : table := Table "app_settings"
  [ id_pk;
    flag "allow_creating_broadcast" true;
    flag "allow_creating_groups" true;
    flag "allow_creating_status" true;
    flag "allow_calls" true;
    flag "allow_send_attachment" true;
    flag "allow_user_signup" true;
    flag "maintenance_mode" false;
    Column "otp_expiry_minutes" INTEGER false (Const (VInt 5));
    updated_at ]
  []
  [ ["id"] ]
  [].

Definition sms_logs : table := Table "sms_logs"
  [ id_pk;
    Column "phone_number" (VARCHAR 15) true NoDefault;
    Column "message" TEXT true NoDefault;
    Column "request_id" (VARCHAR 100) false NoDefault;
    Column "status" (VARCHAR 50) false NoDefault;
    created_at ]
  []
  [ ["id"] ]
  [].

Definition admins : table := Table "admins"
  [ id_pk;
    Column "username" (VARCHAR 50) true NoDefault;
    Column "email" (VARCHAR 100) true NoDefault;
    Column "password_hash" (VARCHAR 100) true NoDefault;
    created_at; updated_at ]
  []
  [ ["id"]; ["username"]; ["email"] ]
  [].

(** The tables in the order of their CREATE TABLE statements. *)
Definition schema : list table :=
  [ users; otps; sessions; groups; group_members; messages; user_messages;
    blocked_users; notification_tokens; reported_users; reported_groups;
    app_settings; sms_logs; admins ].

(** The row the DDL script inserts after creating the tables:
    [INSERT INTO app_settings (...) VALUES (TRUE, TRUE, TRUE, TRUE, TRUE,
    TRUE, FALSE, 5)]. *)
Definition default_settings : list (string * sqlval) :=
  [ ("allow_creating_broadcast", VBool true);
    ("allow_creating_groups", VBool true);
    ("allow_creating_status", VBool true);
    ("allow_calls", VBool true);
    ("allow_send_attachment", VBool true);
    ("allow_user_signup", VBool true);
    ("maintenance_mode", VBool false);
    ("otp_expiry_minutes", VInt 5) ].

Definition find_table (s : list table) (t : string) : option table :=
  List.find (fun T => String.eqb (tbl_name T) t) s.

Definition column_names (T : table) : list string := map col_name (tbl_columns T).

(** *** Statements

    The statements the code issues, with the placeholders $1 .. $n bound
    positionally to the parameter list. *)

Inductive dberror :=
| UndefinedTable (t : string)
| UndefinedColumn (t c : string)
| BindMismatch
| NotNullViolation (t c : string)
| CheckViolation (t : string)
| UniqueViolation (t : string) (cols : list string)
| ForeignKeyViolation (t c : string).

#[global] Instance dberror_eq_dec : EqDecision dberror.
Proof. solve_decision. Defined.

(** What the defaults [uuid_generate_v4()] and [CURRENT_TIMESTAMP] yield for
    one statement. *)
Record entropy := Entropy { fresh_uuid : string; now : Z }.

Definition default_value (g : entropy) (d : coldefault) : sqlval :=
  match d with
  | NoDefault => VNull
  | uuid_generate_v4 => VText (fresh_uuid g)
  | CURRENT_TIMESTAMP => VInt (now g)
  | Const v => v
  end.

Definition make_row (g : entropy) (T : table) (given : gmap string sqlval) : row :=
  list_to_map
    (map (fun c => (col_name c,
                    match given !! col_name c with
                    | Some v => v
                    | None => default_value g (col_default c)
                    end))
         (tbl_columns T)).

Definition first_missing (T : table) (cols : list string) : option string :=
  List.find (fun c => negb (bool_decide (c ∈ column_names T))) cols.

Definition null_violation (T : table) (r : row) : option string :=
  col_name <$>
    List.find (fun c => col_not_null c && is_null (col r (col_name c))) (tbl_columns T).

Definition checks_hold (T : table) (r : row) : bool :=
  forallb (fun e => eval_cond e r) (tbl_check T).

Definition key (r : row) (cs : list string) : list sqlval := map (col r) cs.

(** Two rows collide on a UNIQUE constraint when the key has no NULL and
    is the same in both. *)
Definition same_key (cs : list string) (r1 r2 : row) : bool :=
  forallb (fun c => negb (is_null (col r1 c))) cs && bool_decide (key r1 cs = key r2 cs).

Definition conflict (T : table) (existing : list row) (r : row) : option (list string) :=
  List.find (fun cs => existsb (same_key cs r) existing) (tbl_unique T).

Fixpoint distinct_keys (cs : list string) (l : list row) : bool :=
  match l with
  | [] => true
  | r :: l' => negb (existsb (same_key cs r) l') && distinct_keys cs l'
  end.

Definition fk_violation (db : database) (T : table) (r : row) : option string :=
  fk_column <$>
    List.find (fun fk => negb (is_null (col r (fk_column fk)))
                         && negb (existsb (fun p => bool_decide (col p "id" = col r (fk_column fk)))
                                          (rows db (fk_table fk))))
              (tbl_foreign_keys T).

(** INSERT INTO t (cols) VALUES ($1, ..., $n) [ON CONFLICT DO NOTHING];
    the result carries the row count. *)
Definition exec_insert (g : entropy) (t : string) (cols : list string) (vals : list sqlval)
    (do_nothing : bool) (db : database) : dberror + (database * nat) :=
  match find_table schema t with
  | None => inl (UndefinedTable t)
  | Some T =>
    match first_missing T cols with
    | Some c => inl (UndefinedColumn t c)
    | None =>
      if negb (length cols =? length vals)%nat then inl BindMismatch else
      let r := make_row g T (list_to_map (zip cols vals)) in
      match null_violation T r with
      | Some c => inl (NotNullViolation t c)
      | None =>
        if negb (checks_hold T r) then inl (CheckViolation t) else
        match conflict T (rows db t) r with
        | Some cs => if do_nothing then inr (db, 0%nat) else inl (UniqueViolation t cs)
        | None =>
          match fk_violation db T r with
          | Some c => inl (ForeignKeyViolation t c)
          | None => inr (<[t := rows db t ++ [r]]> db, 1%nat)
          end
        end
      end
    end
  end.

(** An updated row collides when its key occurs more than once in the
    table after the update. *)
Definition collides (cs : list string) (all : list row) (r : row) : bool :=
  (1 <? length (List.filter (same_key cs r) all))%nat.

(** WHERE c1 = $1 AND ... : a comparison with NULL never holds. *)
Definition matches (w : list (string * sqlval)) (r : row) : bool :=
  forallb (fun cv => negb (is_null (snd cv)) && bool_decide (col r (fst cv) = snd cv)) w.

(** SET c = v, ...: the assigned columns override the row's. *)
Definition assign (sets : gmap string sqlval) (r : row) : row := sets ∪ r.

(** UPDATE t SET c = v, ... WHERE ... RETURNING *; the result carries the
    updated rows. *)
Definition exec_update (t : string) (sets : gmap string sqlval)
    (where_ : list (string * sqlval)) (db : database) : dberror + (database * list row) :=
  match find_table schema t with
  | None => inl (UndefinedTable t)
  | Some T =>
    match first_missing T (map fst (map_to_list sets) ++ map fst where_) with
    | Some c => inl (UndefinedColumn t c)
    | None =>
      let updated := map (assign sets) (List.filter (matches where_) (rows db t)) in
      let all := map (fun r => if matches where_ r then assign sets r else r) (rows db t) in
      match list_find (fun r => is_Some (null_violation T r)) updated with
      | Some (_, r) => inl (NotNullViolation t (default "" (null_violation T r)))
      | None =>
        if negb (forallb (checks_hold T) updated) then inl (CheckViolation t) else
        match List.find (fun cs => existsb (collides cs all) updated) (tbl_unique T) with
        | Some cs => inl (UniqueViolation t cs)
        | None =>
          match list_find (fun r => is_Some (fk_violation db T r)) updated with
          | Some (_, r) => inl (ForeignKeyViolation t (default "" (fk_violation db T r)))
          | None => inr (<[t := all]> db, updated)
          end
        end
      end
    end
  end.

(** *** DELETE and the ON DELETE actions

    Every foreign key of the schema references a table created before the
    referencing one, so one pass over the tables in creation order reaches
    every row a delete takes with it.  The pass carries, per table, the ids
    of the rows deleted so far. *)

Abbreviation graveyard := (gmap string (list sqlval)).

Definition ids (l : list row) : list sqlval := map (fun r => col r "id") l.

Definition buried (del : graveyard) (t : string) : list sqlval := default [] (del !! t).

(** The row references, through [fk], a row that has been deleted. *)
Definition dangling (del : graveyard) (r : row) (fk : foreign_key) : bool :=
  negb (is_null (col r (fk_column fk)))
  && bool_decide (col r (fk_column fk) ∈ buried del (fk_table fk)).

Definition doomed (del : graveyard) (T : table) (r : row) : bool :=
  existsb (fun fk => bool_decide (fk_action fk = CASCADE) && dangling del r fk)
          (tbl_foreign_keys T).

Definition set_null (del : graveyard) (T : table) (r : row) : row :=
  foldr (fun fk r' => if bool_decide (fk_action fk = SET_NULL) && dangling del r fk
                      then <[fk_column fk := VNull]> r' else r')
        r (tbl_foreign_keys T).

Definition survivors (del : graveyard) (T : table) (l : list row) : list row :=
  map (set_null del T) (List.filter (fun r => negb (doomed del T r)) l).

Definition sweep_table (st : database * graveyard) (T : table) : database * graveyard :=
  let db := fst st in
  let del := snd st in
  let t := tbl_name T in
  (<[t := survivors del T (rows db t)]> db,
   <[t := buried del t ++ ids (List.filter (doomed del T) (rows db t))]> del).

Definition sweep (s : list table) (st : database * graveyard) : database * graveyard :=
  foldl sweep_table st s.

(** DELETE FROM t WHERE c1 = $1 AND ...; the result carries the number of
    rows of [t] the statement itself matched. *)
Definition exec_delete (t : string) (cols : list string) (vals : list sqlval)
    (db : database) : dberror + (database * nat) :=
  match find_table schema t with
  | None => inl (UndefinedTable t)
  | Some T =>
    match first_missing T cols with
    | Some c => inl (UndefinedColumn t c)
    | None =>
      if negb (length cols =? length vals)%nat then inl BindMismatch else
      let where_ := zip cols vals in
      let victims := List.filter (matches where_) (rows db t) in
      let rest := List.filter (fun r => negb (matches where_ r)) (rows db t) in
      inr (fst (sweep schema (<[t := rest]> db, {[ t := ids victims ]})), length victims)
    end
  end.

(** SELECT * FROM t WHERE c1 = $1 AND ... *)
Definition exec_select (t : string) (where_ : list (string * sqlval))
    (db : database) : dberror + list row :=
  match find_table schema t with
  | None => inl (UndefinedTable t)
  | Some T =>
    match first_missing T (map fst where_) with
    | Some c => inl (UndefinedColumn t c)
    | None => inr (List.filter (matches where_) (rows db t))
    end
  end.

(** The database the DDL script leaves: no rows but the default
    settings. *)
Definition initial (g : entropy) : database :=
  match exec_insert g "app_settings" (map fst default_settings) (map snd default_settings)
                    false ∅ with
  | inr (db, _) => db
  | inl _ => ∅
  end.

End Sql.

Import Sql.

(* ===================================================================== *)
(** ** JavaScript values                                                  *)
(* ===================================================================== *)

Module Js.

(** The primitive values a JSON body or an environment variable can carry.
    A number is an integer that a double holds ([JNum 0] stands for both
    zeros), one of the two infinities, or NaN.  Strings are held as their
    UTF-8 bytes. *)
Inductive jsval :=
| JUndefined
| JNull
| JBool (b : bool)
| JNum (n : Z)
| JInf (negative : bool)
| JNaN
| JStr (s : string).

#[global] Instance jsval_eq_dec : EqDecision jsval.
Proof. solve_decision. Defined.

(** What the query parser leaves in [req.query]: a string, or, for a key
    that is repeated or written with brackets, an array or an object of
    such values. *)
#[warnings="-register-all"]
Inductive qval :=
| QStr (s : string)
| QArr (items : list qval)
| QObj (fields : list (string * qval)).

(** ToString of a query value: an array prints its items separated by
    commas, an object prints as [[object Object]]. *)
Fixpoint to_string (v : qval) : string :=
  match v with
  | QStr s => s
  | QArr items => String.concat "," (List.map to_string items)
  | QObj _ => "[object Object]"
  end.

(** ToBoolean: [!v] is [negb (truthy v)]. *)
Definition truthy (v : jsval) : bool :=
  match v with
  | JUndefined | JNull | JNaN => false
  | JBool b => b
  | JNum n => negb (n =? 0)%Z
  | JInf _ => true
  | JStr s => negb (String.eqb s "")
  end.

(** [v !== undefined] *)
Definition defined (v : jsval) : bool :=
  match v with JUndefined => false | _ => true end.

(** The property [o.k] of an object: [undefined] when absent. *)
Definition prop (o : gmap string jsval) (k : string) : jsval :=
  default JUndefined (o !! k).

Definition byte (a : ascii) : N := N_of_ascii a.

(** The white space and line terminators [parseInt] skips, by their UTF-8
    bytes: TAB, LF, VT, FF, CR and SP; *)
Definition is_space (a : ascii) : bool :=
  ((9 <=? byte a) && (byte a <=? 13) || (byte a =? 32))%N.

(** U+00A0; *)
Definition is_space2 (a b : ascii) : bool :=
  ((byte a =? 194) && (byte b =? 160))%N.

(** U+1680; U+2000 to U+200A, U+2028, U+2029 and U+202F; U+205F; U+3000;
    U+FEFF. *)
Definition is_space3 (a b c : ascii) : bool :=
  ((byte a =? 225) && (byte b =? 154) && (byte c =? 128)
   || (byte a =? 226) && (byte b =? 128)
      && ((128 <=? byte c) && (byte c <=? 138)
          || (byte c =? 168) || (byte c =? 169) || (byte c =? 175))
   || (byte a =? 226) && (byte b =? 129) && (byte c =? 159)
   || (byte a =? 227) && (byte b =? 128) && (byte c =? 128)
   || (byte a =? 239) && (byte b =? 187) && (byte c =? 191))%N.

Fixpoint skip_spaces (s : string) : string :=
  match s with
  | String a s1 =>
    if is_space a then skip_spaces s1 else
    match s1 with
    | String b s2 =>
      if is_space2 a b then skip_spaces s2 else
      match s2 with
      | String c s3 => if is_space3 a b c then skip_spaces s3 else s
      | EmptyString => s
      end
    | EmptyString => s
    end
  | EmptyString => s
  end.

Definition digit_of (a : ascii) : option Z :=
  let n := Z.of_nat (nat_of_ascii a) in
  if ((48 <=? n) && (n <=? 57))%Z then Some (n - 48)%Z
  else if ((97 <=? n) && (n <=? 122))%Z then Some (n - 87)%Z
  else if ((65 <=? n) && (n <=? 90))%Z then Some (n - 55)%Z
  else None.

(** The longest prefix of digits of the radix, as a number; [None] when
    the prefix is empty. *)
Fixpoint digits (radix : Z) (s : string) (acc : option Z) : option Z :=
  match s with
  | String a s' =>
    match digit_of a with
    | Some d => if (d <? radix)%Z
                then digits radix s' (Some (radix * default 0%Z acc + d)%Z)
                else acc
    | None => acc
    end
  | EmptyString => acc
  end.

(** The Number value for an integer: the nearest double, ties to even.
    Below 2^53 in magnitude every integer is a double; above, a double
    keeps 53 significant bits; what rounds to 2^1024 or more is an
    infinity. *)
Definition round_double (n : Z) : jsval :=
  let a := Z.abs n in
  if (a <? 2 ^ 53)%Z then JNum n else
  let e := (Z.log2 a - 52)%Z in
  let q := Z.shiftr a e in
  let r := Z.land a (Z.ones e) in
  let half := Z.shiftl 1 (e - 1) in
  let q' := if (half <? r)%Z || ((r =? half)%Z && Z.odd q) then (q + 1)%Z else q in
  let m := Z.shiftl q' e in
  if (2 ^ 1024 <=? m)%Z then JInf (n <? 0)%Z else JNum (Z.sgn n * m)%Z.

(** [parseInt(s)] with no radix argument: leading white space, a sign, a
    0x prefix for radix 16, then the digits; the integer they denote is
    returned as a Number. *)
Definition parseInt_string (s : string) : jsval :=
  let s1 := skip_spaces s in
  let '(neg, s2) :=
    match s1 with
    | String "-"%char r => (true, r)
    | String "+"%char r => (false, r)
    | _ => (false, s1)
    end in
  let '(radix, s3) :=
    match s2 with
    | String "0"%char (String "x"%char r) => (16%Z, r)
    | String "0"%char (String "X"%char r) => (16%Z, r)
    | _ => (10%Z, s2)
    end in
  match digits radix s3 None with
  | Some n => round_double (if neg : bool then - n else n)
  | None => JNaN
  end.

(** The greatest [p * 10^k] that is at most [a]. *)
Fixpoint magnitude (fuel : nat) (a p : Z) : Z :=
  match fuel with
  | O => p
  | S fuel' => if (10 * p <=? a)%Z then magnitude fuel' a (10 * p)%Z else p
  end.

(** From 10^21 on, [String(n)] is in exponent notation, [d.ddd...e+x],
    with the fewest digits that still denote [n]; this is its first
    digit [d].  It is the first digit of [n], unless [n] is the double
    nearest to the next multiple of the power of ten. *)
Definition exponent_lead (a : Z) : Z :=
  let p := magnitude 400 a 1 in
  let d := (a / p)%Z in
  if bool_decide (round_double (d * p) = JNum a) then d
  else if bool_decide (round_double ((d + 1) * p) = JNum a)
       then (if (d =? 9)%Z then 1%Z else (d + 1)%Z)
  else d.

(** [parseInt(v)]: the argument is first converted to a string.  A number
    below 10^21 in magnitude prints as its decimal digits and parses back
    to itself; a greater one prints in exponent notation, of which
    [parseInt] reads the first digit. *)
Definition parseInt (v : jsval) : jsval :=
  match v with
  | JStr s => parseInt_string s
  | JNum n => if (Z.abs n <? 10 ^ 21)%Z then JNum n
              else JNum (Z.sgn n * exponent_lead (Z.abs n))%Z
  | JUndefined | JNull | JBool _ | JInf _ | JNaN => JNaN
  end.

(** [parseInt(v)] for a value of the query. *)
Definition parseInt_query (v : qval) : jsval := parseInt_string (to_string v).

(** A value bound to a statement placeholder. *)
Definition to_sql (v : jsval) : sqlval :=
  match v with
  | JUndefined | JNull => VNull
  | JBool b => VBool b
  | JNum n => VInt n
  | JInf negative => VText (if negative then "-Infinity" else "Infinity")
  | JNaN => VText "NaN"
  | JStr s => VText s
  end.

End Js.

Import Js.

(* ===================================================================== *)
(** ** Requests, responses, and the programs handlers denote              *)
(* ===================================================================== *)

Module Http.

(** The parts of the Express request the handlers read.  [req_user_id] is
    [req.user.id], set by the authentication middleware. *)
Record request := Request {
  req_params_id : string;
  req_query : gmap string qval;
  req_body : gmap string jsval;
  req_user_id : string
}.

(** The statements the controller passes to [query]. *)
Inductive statement :=
| InsertInto (t : string) (cols : list string) (on_conflict_do_nothing : bool)
| DeleteFrom (t : string) (where_cols : list string).

Definition placeholders (n : nat) : list string :=
  map (fun i => "$" +:+ pretty (S i)) (seq 0 n).

Fixpoint join (sep : string) (l : list string) : string :=
  match l with
  | [] => ""
  | [x] => x
  | x :: l' => x +:+ sep +:+ join sep l'
  end.

(** The SQL text of a statement, as it stands in the source. *)
Definition sql_text (s : statement) : string :=
  match s with
  | InsertInto t cols dn =>
    "INSERT INTO " +:+ t +:+ " (" +:+ join ", " cols +:+ ") VALUES ("
      +:+ join ", " (placeholders (length cols)) +:+ ")"
      +:+ (if dn then " ON CONFLICT DO NOTHING" else "")
  | DeleteFrom t wc =>
    "DELETE FROM " +:+ t +:+ " WHERE "
      +:+ join " AND " (zip_with (fun c p => c +:+ " = " +:+ p) wc (placeholders (length wc)))
  end.

(** What a service call or a query resolves to. *)
Inductive reply :=
| RUndefined
| RRow (r : row)
| RPage (items : list row) (totalCount : nat)
| RResult (rowCount : nat).

(** [result.rowCount] *)
Definition rowCount (r : reply) : nat :=
  match r with RResult n => n | _ => 0%nat end.

(** The calls a handler makes: the methods of [userService], and [query]. *)
Inductive call :=
| GetAllUsers (page limit : jsval) (search : qval)
| GetUserById (id : string)
| UpdateUser (id : string) (userData : gmap string jsval)
| UpdateVerificationStatus (id : string) (verified : jsval)
| UpdateDisabledStatus (id : string) (disabled : jsval)
| DeleteUser (id : string)
| Query (sql : statement) (params : list sqlval).

Definition is_query (c : call) : bool :=
  match c with Query _ _ => true | _ => false end.

Inductive exn :=
| ApiError (status : Z) (message : string)
| DatabaseError (e : dberror)
| ReferenceError (message : string).

(** A handler body: it returns, throws, or awaits a call and goes on with
    what the call resolved to. *)
Inductive prog (A : Type) :=
| Ret (a : A)
| Throw (e : exn)
| Call (c : call) (k : reply -> prog A).

Arguments Ret {A} a.
Arguments Throw {A} e.
Arguments Call {A} c k.

Fixpoint bind {A B : Type} (p : prog A) (f : A -> prog B) : prog B :=
  match p with
  | Ret a => f a
  | Throw e => Throw e
  | Call c k => Call c (fun r => bind (k r) f)
  end.

Definition await (c : call) : prog reply := Call c Ret.

Declare Scope prog_scope.
Delimit Scope prog_scope with prog.
Notation "x <- p ;; q" := (bind p (fun x => q))
  (at level 100, p at next level, right associativity) : prog_scope.
Notation "p ;; q" := (bind p (fun _ => q))
  (at level 100, right associativity) : prog_scope.

Inductive payload :=
| NoData
| Data (result : reply)
| DataUser (user : reply).

(** The JSON envelope [{error, message, data}]. *)
Record envelope := Envelope {
  error : bool;
  message : string;
  data : payload
}.

(** How a handler ends: [res.status(s).json(body)] or [next(error)]. *)
Inductive outcome :=
| Json (status : Z) (body : envelope)
| Next (e : exn).

Definition ok (msg : string) (d : payload) : prog outcome :=
  Ret (Json 200 (Envelope false msg d)).

(** The database, and the source of the defaults an INSERT draws. *)
Record world := World {
  w_db : database;
  w_uuid : nat -> string;
  w_tick : nat;
  w_now : Z
}.

Definition draw (w : world) : entropy := Entropy (w_uuid w (w_tick w)) (w_now w).

Definition commit (db : database) (w : world) : world :=
  World db (w_uuid w) (S (w_tick w)) (w_now w).

Definition interp := call -> world -> (exn + reply) * world.

(** [try { body } catch (error) { next(error) }]: the run of a handler
    body under an implementation of the calls, with the calls made. *)
Fixpoint run (impl : interp) (p : prog outcome) (w : world) : outcome * world * list call :=
  match p with
  | Ret o => (o, w, [])
  | Throw e => (Next e, w, [])
  | Call c k =>
    match impl c w with
    | (inl e, w') => (Next e, w', [c])
    | (inr r, w') =>
      let '(o, w'', tr) := run impl (k r) w' in (o, w'', c :: tr)
    end
  end.

(** Modelled from the spec: the error translator
    ([middleware/errorHandler]) is not among the sources.  The error kinds
    and their status codes; any error that is not an [ApiError] is a
    storage failure. *)
Inductive kind :=
| InvalidArgument | Unauthorized | Forbidden | NotFound | Conflict | Timeout
| StorageFailure.

Definition kind_of (e : exn) : kind :=
  match e with
  | ApiError 400 _ => InvalidArgument
  | ApiError 401 _ => Unauthorized
  | ApiError 403 _ => Forbidden
  | ApiError 404 _ => NotFound
  | ApiError 409 _ => Conflict
  | ApiError 504 _ => Timeout
  | _ => StorageFailure
  end.

Definition fails_with (k : kind) (o : outcome) : Prop :=
  match o with Next e => kind_of e = k | Json _ _ => False end.

End Http.

Import Http.

(* ===================================================================== *)
(** ** The repository and service layer                                   *)
(* ===================================================================== *)

Module Repository.

(** Modelled from the spec: the [query] helper the controller calls is
    neither imported in the controller nor among the sources.  It runs one
    parameterized statement against the schema and resolves to the row
    count; a database error is thrown to the caller. *)
Definition query (s : statement) (params : list sqlval) (w : world) : (exn + reply) * world :=
  match s with
  | InsertInto t cols dn =>
    match exec_insert (draw w) t cols params dn (w_db w) with
    | inl e => (inl (DatabaseError e), w)
    | inr (db', n) => (inr (RResult n), commit db' w)
    end
  | DeleteFrom t wc =>
    match exec_delete t wc params (w_db w) with
    | inl e => (inl (DatabaseError e), w)
    | inr (db', n) => (inr (RResult n), commit db' w)
    end
  end.

End Repository.

Module UserService.

Definition not_found : exn := ApiError 404 "User not found".

Definition by_id (id : string) : list (string * sqlval) := [("id", VText id)].

(** Modelled from the spec: [services/user.service] is not among the
    sources.  [getUserById(id)] fails NotFound if no row matches. *)
Definition getUserById (id : string) (w : world) : (exn + reply) * world :=
  match exec_select "users" (by_id id) (w_db w) with
  | inl e => (inl (DatabaseError e), w)
  | inr [] => (inl not_found, w)
  | inr (u :: _) => (inr (RRow u), w)
  end.

(** Modelled from the spec: an update of a subset of the fields of one
    user; a zero-row update signals not found. *)
Definition update (id : string) (sets : gmap string sqlval) (w : world) : (exn + reply) * world :=
  match exec_update "users" sets (by_id id) (w_db w) with
  | inl e => (inl (DatabaseError e), w)
  | inr (_, []) => (inl not_found, w)
  | inr (db', u :: _) => (inr (RRow u), commit db' w)
  end.

(** Modelled from the spec: [updateUser(id, partialFields)] applies only
    the supplied fields and fails NotFound if the target user is gone. *)
Definition updateUser (id : string) (userData : gmap string jsval) : world -> (exn + reply) * world :=
  update id (to_sql <$> userData).

(** Modelled from the spec: [updateVerificationStatus(id, verified)] and
    [updateDisabledStatus(id, disabled)] set the flag; setting an
    already-set flag succeeds with no change. *)
Definition updateVerificationStatus (id : string) (verified : jsval) : world -> (exn + reply) * world :=
  update id {[ "verified" := to_sql verified ]}.

Definition updateDisabledStatus (id : string) (disabled : jsval) : world -> (exn + reply) * world :=
  update id {[ "disabled" := to_sql disabled ]}.

(** Modelled from the spec: [deleteUser(id)] cascades per schema; a
    zero-row delete signals not found. *)
Definition deleteUser (id : string) (w : world) : (exn + reply) * world :=
  match exec_delete "users" ["id"] [VText id] (w_db w) with
  | inl e => (inl (DatabaseError e), w)
  | inr (_, O) => (inl not_found, w)
  | inr (db', S _) => (inr RUndefined, commit db' w)
  end.

Definition lower_ascii (a : ascii) : ascii :=
  let n := nat_of_ascii a in
  if ((65 <=? n) && (n <=? 90))%nat then ascii_of_nat (n + 32) else a.

Fixpoint lower (s : string) : string :=
  match s with
  | String a s' => String (lower_ascii a) (lower s')
  | EmptyString => EmptyString
  end.

Fixpoint contains (needle hay : string) : bool :=
  String.prefix needle hay
  || match hay with
     | String _ hay' => contains needle hay'
     | EmptyString => false
     end.

Definition text_matches (term : string) (v : sqlval) : bool :=
  match v with
  | VText s => contains (lower term) (lower s)
  | _ => false
  end.

(** Modelled from the spec: a listing takes [(page, limit, searchTerm)]
    and returns [{items, totalCount}]; the search is a case-insensitive
    partial match on the name and phone fields. *)
Definition getAllUsers (page limit : jsval) (search : qval) (w : world)
    : (exn + reply) * world :=
  let term := match search with QStr s => s | _ => "" end in
  let found := List.filter (fun r => text_matches term (col r "name")
                                     || text_matches term (col r "phone_number"))
                           (rows (w_db w) "users") in
  let items :=
    match page, limit with
    | JNum p, JNum l => take (Z.to_nat l) (drop (Z.to_nat ((p - 1) * l)) found)
    | _, _ => []
    end in
  (inr (RPage items (length found)), w).

End UserService.

(** The calls of a handler, carried out by the service layer and the
    repository. *)
Definition perform : interp :=
  fun c =>
    match c with
    | GetAllUsers page limit search => UserService.getAllUsers page limit search
    | GetUserById id => UserService.getUserById id
    | UpdateUser id userData => UserService.updateUser id userData
    | UpdateVerificationStatus id verified => UserService.updateVerificationStatus id verified
    | UpdateDisabledStatus id disabled => UserService.updateDisabledStatus id disabled
    | DeleteUser id => UserService.deleteUser id
    | Query sql params => Repository.query sql params
    end.

(* ===================================================================== *)
(** ** src/controllers/user.controller.js                                 *)
(* ===================================================================== *)

Module UserController.

Open Scope prog_scope.

(** The statements of the controller. *)
Definition insert_report : statement :=
  InsertInto "reported_users" ["user_id"; "reported_by"; "reason"] false.

Definition insert_block : statement :=
  InsertInto "blocked_users" ["user_id"; "blocked_user_id"] true.

Definition delete_block : statement :=
  DeleteFrom "blocked_users" ["user_id"; "blocked_user_id"].

(** The identifiers the module binds are those of the three [require]s
    at the head of the file.  [query], which [reportUser], [blockUser],
    [unblockUser] and [getBlockedUsers] call, is not among them, and it is
    no global of Node. *)
Definition module_scope : list string := ["userService"; "ApiError"; "logger"].

(** [await query(text, params)], read in a scope: an identifier that is
    not bound throws a ReferenceError where it is evaluated, before
    anything is called.  The handlers that name [query] take the scope
    they are read in: [module_scope] is the file as it stands. *)
Definition query (scope : list string) (sql : statement) (params : list sqlval)
    : prog reply :=
  if bool_decide ("query" ∈ scope) then await (Query sql params)
  else Throw (ReferenceError "query is not defined").

(** [const { page = 1, limit = 20, search = '' } = req.query]: a default
    stands in for a property that is undefined.  [parseInt(p)] for a
    parameter [p] whose default is the number [d]: *)
Definition parseInt_or (d : jsval) (p : option qval) : jsval :=
  match p with
  | Some v => parseInt_query v
  | None => parseInt d
  end.

Definition getAllUsers (req : request) : prog outcome :=
  let page := req_query req !! "page" in
  let limit := req_query req !! "limit" in
  let search := default (QStr "") (req_query req !! "search") in
  result <- await (GetAllUsers (parseInt_or (JNum 1) page) (parseInt_or (JNum 20) limit)
                               search) ;;
  ok "Users retrieved successfully" (Data result).

Definition getUserById (req : request) : prog outcome :=
  let id := req_params_id req in
  user <- await (GetUserById id) ;;
  ok "User retrieved successfully" (DataUser user).

(** [if (v !== undefined) userData.k = v] *)
Definition set_if_defined (k : string) (v : jsval) (userData : gmap string jsval)
    : gmap string jsval :=
  if defined v then <[k := v]> userData else userData.

Definition updateUser (req : request) : prog outcome :=
  let id := req_params_id req in
  let name := prop (req_body req) "name" in
  let email := prop (req_body req) "email" in
  let photo := prop (req_body req) "photo" in
  let status := prop (req_body req) "status" in
  let userData : gmap string jsval := ∅ in
  let userData := set_if_defined "name" name userData in
  let userData := set_if_defined "email" email userData in
  let userData := set_if_defined "photo" photo userData in
  let userData := set_if_defined "status" status userData in
  updatedUser <- await (UpdateUser id userData) ;;
  ok "User updated successfully" (DataUser updatedUser).

Definition updateVerificationStatus (req : request) : prog outcome :=
  let id := req_params_id req in
  let verified := prop (req_body req) "verified" in
  if negb (defined verified) then Throw (ApiError 400 "Verified status is required") else
  updatedUser <- await (UpdateVerificationStatus id verified) ;;
  ok ("User " +:+ (if truthy verified then "verified" else "unverified") +:+ " successfully")
     (DataUser updatedUser).

Definition updateDisabledStatus (req : request) : prog outcome :=
  let id := req_params_id req in
  let disabled := prop (req_body req) "disabled" in
  if negb (defined disabled) then Throw (ApiError 400 "Disabled status is required") else
  updatedUser <- await (UpdateDisabledStatus id disabled) ;;
  ok ("User " +:+ (if truthy disabled then "disabled" else "enabled") +:+ " successfully")
     (DataUser updatedUser).

Definition deleteUser (req : request) : prog outcome :=
  let id := req_params_id req in
  await (DeleteUser id) ;;
  ok "User deleted successfully" NoData.

Definition reportUser (scope : list string) (req : request) : prog outcome :=
  let id := req_params_id req in
  let reason := prop (req_body req) "reason" in
  let reportedBy := req_user_id req in
  if negb (truthy reason) then Throw (ApiError 400 "Reason is required") else
  (* Check if user is reporting themselves *)
  if String.eqb id reportedBy then Throw (ApiError 400 "You cannot report yourself") else
  (* Check if user exists *)
  await (GetUserById id) ;;
  (* Add report *)
  query scope insert_report [VText id; VText reportedBy; to_sql reason] ;;
  ok "User reported successfully" NoData.

Definition blockUser (scope : list string) (req : request) : prog outcome :=
  let id := req_params_id req in
  let blockedBy := req_user_id req in
  (* Check if user is blocking themselves *)
  if String.eqb id blockedBy then Throw (ApiError 400 "You cannot block yourself") else
  (* Check if user exists *)
  await (GetUserById id) ;;
  (* Add to blocked users *)
  query scope insert_block [VText blockedBy; VText id] ;;
  ok "User blocked successfully" NoData.

Definition unblockUser (scope : list string) (req : request) : prog outcome :=
  let id := req_params_id req in
  let blockedBy := req_user_id req in
  (* Remove from blocked users *)
  result <- query scope delete_block [VText blockedBy; VText id] ;;
  ok (if (0 <? rowCount result)%nat then "User unblocked successfully" else "User was not blocked")
     NoData.

End UserController.

(* ===================================================================== *)
(** ** Messaging                                                          *)
(* ===================================================================== *)

Module Messaging.

(** The target of a message: a recipient user, or a group. *)
Record target := Target { to_id : option string; group_id : option string }.

Definition opt_sql (o : option string) : sqlval := from_option VText VNull o.

Definition blocks (db : database) (a b : string) : bool :=
  existsb (matches [("blocker_id", VText a); ("blocked_id", VText b)]) (rows db "blocked_users").

Definition members (db : database) (g : string) : list row :=
  List.filter (matches [("group_id", VText g)]) (rows db "group_members").

Definition is_sender (sender : string) (m : row) : bool :=
  bool_decide (col m "user_id" = VText sender).

Definition only_admins_can_post (db : database) (g : string) : bool :=
  existsb (fun r => bool_decide (col r "only_admins_can_post" = VBool true))
          (List.filter (matches [("id", VText g)]) (rows db "groups")).

(** Modelled from the spec: the intended recipients are the direct
    recipient, or every current group member excluding the sender. *)
Definition recipients (db : database) (sender : string) (t : target) : list sqlval :=
  match to_id t, group_id t with
  | Some u, None => [VText u]
  | None, Some g =>
    map (fun m => col m "user_id")
        (List.filter (fun m => negb (is_sender sender m)) (members db g))
  | _, _ => []
  end.

(** One [user_messages] row per recipient. *)
Fixpoint fan_out (message_id : sqlval) (to : list sqlval) (w : world) : dberror + world :=
  match to with
  | [] => inr w
  | u :: to' =>
    match exec_insert (draw w) "user_messages" ["user_id"; "message_id"] [u; message_id]
                      false (w_db w) with
    | inl e => inl e
    | inr (db', _) => fan_out message_id to' (commit db' w)
    end
  end.

Definition message_columns : list string :=
  ["from_id"; "to_id"; "group_id"; "content"; "metadata"; "type"].

Definition insert_and_fan_out (sender : string) (t : target) (content metadata : sqlval)
    (type : Z) (w : world) : dberror + world :=
  let to := recipients (w_db w) sender t in
  match exec_insert (draw w) "messages" message_columns
          [VText sender; opt_sql (to_id t); opt_sql (group_id t); content; metadata; VInt type]
          false (w_db w) with
  | inl e => inl e
  | inr (db', _) => fan_out (VText (fresh_uuid (draw w))) to (commit db' w)
  end.

(** Modelled from the spec: one atomic transaction scope; when a statement
    fails, nothing of the transaction is stored. *)
Definition transaction (body : world -> dberror + world) (w : world) : (exn + reply) * world :=
  match body w with
  | inl e => (inl (DatabaseError e), w)
  | inr w' => (inr RUndefined, w')
  end.

(** Modelled from the spec: there is no message service among the
    sources.  [sendMessage] validates that exactly one target is supplied
    (InvalidArgument otherwise); for a user target it fails Forbidden if
    either side has blocked the other; for a group target it fails
    Forbidden if the sender is not a current member, or if only admins can
    post and the sender is not a group admin.  On success it inserts one
    message row and fans out, atomically. *)
Definition sendMessage (sender : string) (t : target) (content metadata : sqlval)
    (type : Z) (w : world) : (exn + reply) * world :=
  match to_id t, group_id t with
  | Some _, Some _ | None, None =>
    (inl (ApiError 400 "Exactly one of to_id and group_id is required"), w)
  | Some u, None =>
    if blocks (w_db w) u sender || blocks (w_db w) sender u
    then (inl (ApiError 403 "Blocked"), w)
    else transaction (insert_and_fan_out sender t content metadata type) w
  | None, Some g =>
    match List.find (is_sender sender) (members (w_db w) g) with
    | None => (inl (ApiError 403 "Not a member of the group"), w)
    | Some m =>
      if only_admins_can_post (w_db w) g && negb (bool_decide (col m "is_admin" = VBool true))
      then (inl (ApiError 403 "Only admins can post"), w)
      else transaction (insert_and_fan_out sender t content metadata type) w
    end
  end.

End Messaging.

(* ===================================================================== *)
(** ** Notions used in the statements                                     *)
(* ===================================================================== *)

Definition set_query (q : gmap string qval) (req : request) : request :=
  Request (req_params_id req) q (req_body req) (req_user_id req).

(** The query string with [page=1], [limit=20] and [search=] written out
    where the request leaves them out. *)
Definition with_defaults (q : gmap string qval) : gmap string qval :=
  q ∪ {[ "page" := QStr "1"; "limit" := QStr "20"; "search" := QStr "" ]}.

(** A world with no tables, whose generated ids are [gen0], [gen1], ... *)
Definition blank : world := World ∅ (fun n => "gen" +:+ pretty n) 0 0.

(** Every foreign key references a table created earlier, and no table
    name is used twice. *)
Fixpoint ordered (seen : list string) (s : list table) : bool :=
  match s with
  | [] => true
  | T :: s' =>
    negb (bool_decide (tbl_name T ∈ seen))
    && forallb (fun fk => bool_decide (fk_table fk ∈ seen)) (tbl_foreign_keys T)
    && ordered (tbl_name T :: seen) s'
  end.

(** The foreign keys of the schema, each with the table that declares it. *)
Definition foreign_keys (s : list table) : list (string * foreign_key) :=
  T ← s; (fun fk => (tbl_name T, fk)) <$> tbl_foreign_keys T.

(** [DELETE FROM users WHERE id = $1] *)
Definition delete_user (u : string) (db : database) : dberror + (database * nat) :=
  exec_delete "users" ["id"] [VText u] db.

(** The rows of [users] the statement deletes and keeps, and the state in
    which the pass over the tables starts. *)
Definition deleted_users (u : string) (db : database) : list row :=
  List.filter (matches [("id", VText u)]) (rows db "users").

Definition kept_users (u : string) (db : database) : list row :=
  List.filter (fun r => negb (matches [("id", VText u)] r)) (rows db "users").

Definition delete_user_start (u : string) (db : database) : database * graveyard :=
  (<["users" := kept_users u db]> db, {[ "users" := ids (deleted_users u db) ]}).

(** The databases the statements can produce from the one the DDL script
    leaves. *)
Inductive step : database → database → Prop :=
| step_insert g t cols vals dn db db' n :
    exec_insert g t cols vals dn db = inr (db', n) → step db db'
| step_update t sets w db db' l :
    exec_update t sets w db = inr (db', l) → step db db'
| step_delete t cols vals db db' n :
    exec_delete t cols vals db = inr (db', n) → step db db'.

Inductive reachable : database → Prop :=
| reachable_initial g : reachable (initial g)
| reachable_step db db' : reachable db → step db db' → reachable db'.

(** Exactly one of [to_id] and [group_id] is non-null. *)
Definition one_target (r : row) : Prop :=
  (col r "to_id" = VNull ∧ col r "group_id" ≠ VNull)
  ∨ (col r "to_id" ≠ VNull ∧ col r "group_id" = VNull).

Definition db_of (x : dberror + (database * nat)) : database :=
  match x with inr (db, _) => db | inl _ => ∅ end.

Definition count_of (x : dberror + (database * nat)) : nat :=
  match x with inr (_, n) => n | inl _ => 0%nat end.

Definition succeeded (x : dberror + (database * nat)) : bool :=
  match x with inr _ => true | inl _ => false end.

Definition messages_ok (db : database) : Prop :=
  ∀ r, r ∈ rows db "messages" → one_target r.

(** One user, then one message of that user to themselves, inserted into
    the initial database. *)
Definition one_user : database :=
  db_of (exec_insert (Entropy "u1" 0) "users" ["phone_number"] [VText "+100"] false
                     (initial (Entropy "s1" 0))).

Definition one_message : database :=
  db_of (exec_insert (Entropy "m1" 0) "messages" ["from_id"; "to_id"; "type"]
                     [VText "u1"; VText "u1"; VInt 0] false one_user).

(** Sample data: three users; a group created by [u2] whose members were
    all added by [u1]; a block; a report. *)
Definition user_row (id phone name : string) : row :=
  {[ "id" := VText id; "phone_number" := VText phone; "name" := VText name;
     "verified" := VBool false; "disabled" := VBool false; "role" := VText "user" ]}.

Definition member_row (id g u by_ : string) : row :=
  {[ "id" := VText id; "group_id" := VText g; "user_id" := VText u;
     "is_admin" := VBool false; "added_by" := VText by_ ]}.

Definition sample_db : database :=
  {[ "users" := [ user_row "u1" "+100" "Ann"; user_row "u2" "+200" "Bob";
                  user_row "u3" "+300" "Cy" ];
     "groups" := [ {[ "id" := VText "g1"; "name" := VText "club";
                      "created_by" := VText "u2";
                      "only_admins_can_post" := VBool false ]} ];
     "group_members" := [ member_row "m1" "g1" "u1" "u1"; member_row "m2" "g1" "u2" "u1";
                          member_row "m3" "g1" "u3" "u1" ];
     "blocked_users" := [ {[ "id" := VText "b1"; "blocker_id" := VText "u3";
                             "blocked_id" := VText "u1" ]} ];
     "reported_users" := [ {[ "id" := VText "r1"; "reporter_id" := VText "u1";
                              "reported_id" := VText "u3"; "reason" := VText "spam" ]} ] ]}.

Definition sample : world := World sample_db (fun n => "gen" +:+ pretty n) 0 0.


(** The sample data after [u1] is deleted. *)
Definition sample_without_u1 : database := db_of (delete_user "u1" sample_db).

Import Messaging.

(** No two memberships of the same user in the same group: the UNIQUE
    constraint of [group_members]. *)
Definition memberships_unique (db : database) : Prop :=
  distinct_keys ["group_id"; "user_id"] (rows db "group_members") = true.

(** The profile fields [updateUser] reads from the body. *)
Definition whitelist : list string := ["name"; "email"; "photo"; "status"].

(** The fields of the body that are supplied: on the whitelist, and not
    undefined. *)
Definition supplied (body : gmap string jsval) (c : string) : Prop :=
  c ∈ whitelist ∧ prop body c ≠ JUndefined.

(** The object [updateUser] passes to the service. *)
Definition userData_of (body : gmap string jsval) : gmap string jsval :=
  UserController.set_if_defined "status" (prop body "status")
    (UserController.set_if_defined "photo" (prop body "photo")
      (UserController.set_if_defined "email" (prop body "email")
        (UserController.set_if_defined "name" (prop body "name") ∅))).

Definition succeeds (o : outcome) : Prop :=
  match o with Json 200 _ => True | _ => False end.

Definition user_absent (id : string) (db : database) : Prop :=
  List.filter (matches (UserService.by_id id)) (rows db "users") = [].

(** A request to change a profile that also names columns off the
    whitelist, and a request that targets nobody. *)
Definition rename_request : request :=
  Request "u2" ∅
    {[ "name" := JStr "Bobby"; "role" := JStr "admin"; "phone_number" := JStr "+999" ]}
    "u2".

Definition ghost_request : request :=
  Request "ghost" ∅ {[ "name" := JStr "Nobody" ]} "u1".

(** Requests against the sample data: [u1] reports [u3]; [u1] blocks
    [u3]; [u3] unblocks [u1], whom they have blocked; [u1] unblocks [u2],
    whom they have not. *)
Definition report_request : request :=
  Request "u3" ∅ {[ "reason" := JStr "spam" ]} "u1".

Definition block_request : request := Request "u3" ∅ ∅ "u1".

Definition unblock_request : request := Request "u1" ∅ ∅ "u3".

Definition unblock_unblocked_request : request := Request "u2" ∅ ∅ "u1".

Definition undefined_column (t c : string) : exn := DatabaseError (UndefinedColumn t c).

(** What evaluating [query] throws in the file as it stands. *)
Definition unbound_query : exn := ReferenceError "query is not defined".

(** The file with [query] imported. *)
Definition imported : list string := "query" :: UserController.module_scope.

(** The statements the handlers pass to [query], with their parameters. *)
Definition report_statement (req : request) : call :=
  Query UserController.insert_report
        [VText (req_params_id req); VText (req_user_id req);
         to_sql (prop (req_body req) "reason")].

Definition block_statement (req : request) : call :=
  Query UserController.insert_block [VText (req_user_id req); VText (req_params_id req)].

Definition unblock_statement (req : request) : call :=
  Query UserController.delete_block [VText (req_user_id req); VText (req_params_id req)].

(** The handlers that take a path id and change something.  Those that
    check the target themselves, each with the validation of the request
    that comes before the check and the statement that comes after it: *)
Record guarded := Guarded {
  g_handler : list string → request → prog outcome;
  g_valid : request → bool;
  g_statement : request → call
}.

Definition guarded_handlers : list guarded :=
  [ Guarded UserController.reportUser
            (fun req => truthy (prop (req_body req) "reason")
                        && negb (String.eqb (req_params_id req) (req_user_id req)))
            report_statement;
    Guarded UserController.blockUser
            (fun req => negb (String.eqb (req_params_id req) (req_user_id req)))
            block_statement ].





Definition no_query (tr : list call) : Prop := Forall (fun c => is_query c = false) tr.

(** An answer: status 200 with [error: false]. *)
Definition answers (o : outcome) : Prop :=
  match o with Json status body => status = 200%Z ∧ error body = false | Next _ => False end.

(* ===================================================================== *)
(** ** Further notions: constraints and configuration                     *)
(* ===================================================================== *)

(** The tables created before the table named [t]. *)
Fixpoint created_before (t : string) (s : list table) : list table :=
  match s with
  | [] => []
  | T :: s' => if String.eqb (tbl_name T) t then [] else T :: created_before t s'
  end.

(** [r'] is [r] with some columns set to NULL. *)
Definition nulled (r r' : row) : Prop := ∀ c, col r' c = col r c ∨ col r' c = VNull.

(** Every foreign key that is not NULL references a row that is there. *)
Definition ref_integrity (db : database) : Prop :=
  ∀ T fk r, T ∈ schema → fk ∈ tbl_foreign_keys T → r ∈ rows db (tbl_name T) →
    col r (fk_column fk) ≠ VNull →
    col r (fk_column fk) ∈ ids (rows db (fk_table fk)).

Definition ref_ok (db : database) : bool :=
  forallb (fun T =>
    forallb (fun fk =>
      forallb (fun r => is_null (col r (fk_column fk))
                        || bool_decide (col r (fk_column fk) ∈ ids (rows db (fk_table fk))))
              (rows db (tbl_name T)))
      (tbl_foreign_keys T))
    schema.

(** [DELETE FROM groups WHERE id = $1] on the sample data. *)
Definition sample_without_g1 : database :=
  db_of (exec_delete "groups" ["id"] [VText "g1"] sample_db).

(** Two users, a group of the first, and both as its members, inserted one
    after the other. *)
Definition two_users : database :=
  db_of (exec_insert (Entropy "u2" 0) "users" ["phone_number"] [VText "+200"] false one_user).

Definition one_group : database :=
  db_of (exec_insert (Entropy "g1" 0) "groups" ["name"; "created_by"]
                     [VText "club"; VText "u1"] false two_users).

Definition one_member : database :=
  db_of (exec_insert (Entropy "m1" 0) "group_members" ["group_id"; "user_id"]
                     [VText "g1"; VText "u1"] true one_group).

Definition two_members : database :=
  db_of (exec_insert (Entropy "m2" 0) "group_members" ["group_id"; "user_id"]
                     [VText "g1"; VText "u2"] true one_member).

(** Every UNIQUE constraint (the primary keys among them) holds. *)
Definition unique_ok (db : database) : Prop :=
  ∀ T cs, T ∈ schema → cs ∈ tbl_unique T →
    distinct_keys cs (rows db (tbl_name T)) = true.

(** The number of rows that collide with [x] on the key [cs]. *)
Definition collisions (cs : list string) (l : list row) (x : row) : nat :=
  length (List.filter (same_key cs x) l).

(** No NOT NULL column holds NULL. *)
Definition not_null_ok (db : database) : Prop :=
  ∀ T C r, T ∈ schema → C ∈ tbl_columns T → col_not_null C = true →
    r ∈ rows db (tbl_name T) → col r (col_name C) ≠ VNull.




(** A Number: an integer, an infinity, or NaN. *)
Definition numeric (v : jsval) : Prop :=
  match v with JNum _ | JInf _ | JNaN => True | _ => False end.

(* ===================================================================== *)
(** ** getBlockedUsers                                                    *)
(* ===================================================================== *)

Module BlockedUsers.

(** [SELECT <from>.c AS o, ..., <join>.c AS o, ... FROM <from> JOIN <join>
    ON <from>.a = <join>.b WHERE <from>.w = $1 ORDER BY <from>.k DESC] *)
Record join_select := JoinSelect {
  js_from : string;
  js_join : string;
  js_on : string * string;
  js_where : string;
  js_select : list (bool * string * string);
  js_order_desc : string
}.

(** The statement of [getBlockedUsers]:
    [SELECT bu.blocked_user_id, u.name, u.phone_number, u.photo,
            bu.created_at as blocked_at
     FROM blocked_users bu JOIN users u ON bu.blocked_user_id = u.id
     WHERE bu.user_id = $1 ORDER BY bu.created_at DESC];
    in the select list [false] marks a column of [bu], [true] one of [u]. *)
Definition blocked_query : join_select :=
  JoinSelect "blocked_users" "users" ("blocked_user_id", "id") "user_id"
    [ (false, "blocked_user_id", "blocked_user_id"); (true, "name", "name");
      (true, "phone_number", "phone_number"); (true, "photo", "photo");
      (false, "created_at", "blocked_at") ]
    "created_at".

(** The columns the statement names, each with its table, in the order the
    clauses are analysed: FROM and JOIN ... ON, WHERE, the select list,
    ORDER BY. *)
Definition named_columns (q : join_select) : list (string * string) :=
  [ (js_from q, fst (js_on q)); (js_join q, snd (js_on q)); (js_from q, js_where q) ]
  ++ map (fun x : bool * string * string =>
            (if fst (fst x) then js_join q else js_from q, snd (fst x)))
         (js_select q)
  ++ [ (js_from q, js_order_desc q) ].

Definition column_missing (tc : string * string) : bool :=
  match find_table schema (fst tc) with
  | Some T => negb (bool_decide (snd tc ∈ column_names T))
  | None => true
  end.

Definition order_key (r : row) (k : string) : Z :=
  match col r k with VInt n => n | _ => 0%Z end.

(** Insertion into a list sorted by descending key. *)
Fixpoint insert_desc (k : string) (x : row * row) (l : list (row * row)) : list (row * row) :=
  match l with
  | [] => [x]
  | y :: l' => if (order_key (fst y) k <? order_key (fst x) k)%Z
               then x :: l else y :: insert_desc k x l'
  end.

Definition project (q : join_select) (x : row * row) : row :=
  list_to_map (map (fun s : bool * string * string =>
                      (snd s, col (if fst (fst s) then snd x else fst x) (snd (fst s))))
                   (js_select q)).

Definition exec_join (q : join_select) (param : sqlval) (db : database) : dberror + list row :=
  match find_table schema (js_from q), find_table schema (js_join q) with
  | None, _ => inl (UndefinedTable (js_from q))
  | _, None => inl (UndefinedTable (js_join q))
  | Some _, Some _ =>
    match List.find column_missing (named_columns q) with
    | Some tc => inl (UndefinedColumn (fst tc) (snd tc))
    | None =>
      let pairs :=
        b ← List.filter (matches [(js_where q, param)]) (rows db (js_from q));
        (fun u => (b, u)) <$>
          List.filter (fun u => negb (is_null (col b (fst (js_on q))))
                                && bool_decide (col b (fst (js_on q)) = col u (snd (js_on q))))
                      (rows db (js_join q)) in
      inr (map (project q) (foldr (insert_desc (js_order_desc q)) [] pairs))
    end
  end.

(** Modelled from the spec: the [query] helper is neither imported in the
    controller nor among the sources.  [query(text, [userId])] for a
    SELECT runs the statement against the schema and resolves to the
    rows; a database error is thrown to the caller. *)
Definition query_rows (q : join_select) (param : sqlval) (w : world) : (exn + list row) * world :=
  match exec_join q param (w_db w) with
  | inl e => (inl (DatabaseError e), w)
  | inr l => (inr l, w)
  end.

(** How [getBlockedUsers] ends: [res.status(s).json({error, message,
    data: { blockedUsers }})] or [next(error)]. *)
Inductive list_outcome :=
| JsonList (status : Z) (error : bool) (message : string) (blockedUsers : list row)
| NextList (e : exn).

(** The handler, read in a scope as the other handlers that name [query]
    are: where [query] is not bound, evaluating it throws before any
    statement is sent. *)
Definition getBlockedUsers (scope : list string) (req : request) (w : world)
    : list_outcome * world :=
  let userId := req_user_id req in
  if bool_decide ("query" ∈ scope) then
    match query_rows blocked_query (VText userId) w with
    | (inl error, w') => (NextList error, w')
    | (inr result_rows, w') =>
      (JsonList 200 false "Blocked users retrieved successfully" result_rows, w')
    end
  else (NextList unbound_query, w).

(** The same statement over the columns the table has. *)
Definition blocked_query_by_schema : join_select :=
  JoinSelect "blocked_users" "users" ("blocked_id", "id") "blocker_id"
    [ (false, "blocked_id", "blocked_user_id"); (true, "name", "name");
      (true, "phone_number", "phone_number"); (true, "photo", "photo");
      (false, "created_at", "blocked_at") ]
    "created_at".

End BlockedUsers.

(* ===================================================================== *)
(** ** src/index.js: the settings read from the environment               *)
(* ===================================================================== *)

Module Index.

(** [process.env.K]: a string, or undefined. *)
Definition env_var (env : gmap string string) (k : string) : jsval :=
  default JUndefined (JStr <$> env !! k).

(** [a || b] *)
Definition or_else (a b : jsval) : jsval := if truthy a then a else b.

Record settings := Settings {
  cors_origin : jsval;
  cors_methods : list string;
  cors_allowedHeaders : list string;
  rate_windowMs : jsval;
  rate_max : jsval;
  port : jsval
}.

Definition configure (env : gmap string string) : settings :=
  {| cors_origin := or_else (env_var env "CORS_ORIGIN") (JStr "*");
     cors_methods := ["GET"; "POST"; "PUT"; "DELETE"];
     cors_allowedHeaders := ["Content-Type"; "Authorization"];
     rate_windowMs := or_else (parseInt (env_var env "RATE_LIMIT_WINDOW_MS"))
                              (JNum (15 * 60 * 1000));
     rate_max := or_else (parseInt (env_var env "RATE_LIMIT_MAX")) (JNum 100);
     port := or_else (env_var env "PORT") (JNum 3000) |}.

End Index.

(* ===================================================================== *)
(** ** The statements as they stand in the source                         *)
(* ===================================================================== *)

Lemma insert_report_text :
  sql_text UserController.insert_report
  = "INSERT INTO reported_users (user_id, reported_by, reason) VALUES ($1, $2, $3)".
Proof. reflexivity. Qed.

Lemma insert_block_text :
  sql_text UserController.insert_block
  = "INSERT INTO blocked_users (user_id, blocked_user_id) VALUES ($1, $2) ON CONFLICT DO NOTHING".
Proof. reflexivity. Qed.

Lemma delete_block_text :
  sql_text UserController.delete_block
  = "DELETE FROM blocked_users WHERE user_id = $1 AND blocked_user_id = $2".
Proof. reflexivity. Qed.

(* ===================================================================== *)
(** ** The engine                                                         *)
(* ===================================================================== *)

Section Engine.

Lemma inr_pair_inv {E A B : Type} (a a' : A) (b b' : B) :
  @inr E (A * B) (a, b) = inr (a', b') → a' = a ∧ b' = b.
Proof. intros H. by injection H as -> ->. Qed.

Implicit Types (db : database) (r : row) (T : table) (del : graveyard).

Lemma rows_insert db t l : rows (<[t := l]> db) t = l.
Proof. unfold rows. by rewrite lookup_insert_eq. Qed.

Lemma rows_insert_ne db t t' l : t ≠ t' → rows (<[t := l]> db) t' = rows db t'.
Proof. intros. unfold rows. by rewrite lookup_insert_ne. Qed.

Lemma find_table_name s t T : find_table s t = Some T → tbl_name T = t ∧ T ∈ s.
Proof.
  unfold find_table. intros H. split.
  - apply find_some in H as [_ H]. by apply String.eqb_eq.
  - apply find_some in H as [H _]. by apply list_elem_of_In.
Qed.

(** A successful INSERT that is not skipped appends exactly the row built
    from the statement, and that row passed the constraints. *)
Lemma exec_insert_inr g t cols vals dn db db' n :
  exec_insert g t cols vals dn db = inr (db', n) →
  ∃ T, find_table schema t = Some T ∧
       let r := make_row g T (list_to_map (zip cols vals)) in
       null_violation T r = None ∧ checks_hold T r = true ∧
       ((dn = true ∧ is_Some (conflict T (rows db t) r) ∧ db' = db ∧ n = 0%nat)
        ∨ (conflict T (rows db t) r = None ∧ fk_violation db T r = None
           ∧ db' = <[t := rows db t ++ [r]]> db ∧ n = 1%nat)).
Proof.
  unfold exec_insert. intros H.
  destruct (find_table schema t) as [T|]; [|done].
  exists T. split; [done|]. simpl.
  destruct (first_missing T cols); [done|].
  destruct (negb (length cols =? length vals)%nat); [done|].
  destruct (null_violation T _) eqn:Hn; [done|].
  destruct (checks_hold T _) eqn:Hc; [|done]. simpl in H.
  split; [done|]. split; [done|].
  destruct (conflict T _ _) eqn:Hu.
  - destruct dn; [|done]. left. naive_solver.
  - destruct (fk_violation db T _) eqn:Hf; [done|]. right. naive_solver.
Qed.

(** A row that fails a CHECK constraint is never stored. *)
Lemma exec_insert_check g t T cols vals dn db :
  find_table schema t = Some T →
  checks_hold T (make_row g T (list_to_map (zip cols vals))) = false →
  ∃ e, exec_insert g t cols vals dn db = inl e.
Proof.
  intros HT Hc. unfold exec_insert. rewrite HT.
  destruct (first_missing T cols); [eauto|].
  destruct (negb _); [eauto|].
  destruct (null_violation T _); [eauto|].
  rewrite Hc. simpl. eauto.
Qed.

(** A statement that names a column the table does not have fails, and
    nothing else of the database is consulted. *)
Lemma exec_insert_missing g t T c cols vals dn db :
  find_table schema t = Some T →
  first_missing T cols = Some c →
  exec_insert g t cols vals dn db = inl (UndefinedColumn t c).
Proof. intros HT Hc. unfold exec_insert. by rewrite HT, Hc. Qed.

Lemma exec_delete_missing t T c cols vals db :
  find_table schema t = Some T →
  first_missing T cols = Some c →
  exec_delete t cols vals db = inl (UndefinedColumn t c).
Proof. intros HT Hc. unfold exec_delete. by rewrite HT, Hc. Qed.

(** A DELETE that succeeds removes the matching rows and runs the pass
    over the tables; the count is that of the matching rows. *)
Lemma exec_delete_inr t cols vals db db' n :
  exec_delete t cols vals db = inr (db', n) →
  let w := zip cols vals in
  db' = (sweep schema
           (<[t := List.filter (fun r => negb (matches w r)) (rows db t)]> db,
            {[ t := ids (List.filter (matches w) (rows db t)) ]})).1
  ∧ n = length (List.filter (matches w) (rows db t)).
Proof.
  unfold exec_delete.
  destruct (find_table schema t); [|done].
  destruct (first_missing _ _); [done|].
  destruct (negb _); [done|].
  apply inr_pair_inv.
Qed.

End Engine.

(* ===================================================================== *)
(** ** Handlers that validate the body                                    *)
(* ===================================================================== *)

(** C9: when the body of a verification (resp. disabled-status) update
    omits [verified] (resp. [disabled]), the handler throws
    [ApiError(400, 'Verified status is required')] (resp. ['Disabled status
    is required']), an InvalidArgument error, which reaches [next]; whatever
    the service layer is, no call is made and the world is untouched. *)
Theorem status_field_required (impl : interp) (req : request) (w : world) :
  (req_body req !! "verified" = None →
   UserController.updateVerificationStatus req
     = Throw (ApiError 400 "Verified status is required")
   ∧ run impl (UserController.updateVerificationStatus req) w
     = (Next (ApiError 400 "Verified status is required"), w, [])
   ∧ kind_of (ApiError 400 "Verified status is required") = InvalidArgument)
  ∧
  (req_body req !! "disabled" = None →
   UserController.updateDisabledStatus req
     = Throw (ApiError 400 "Disabled status is required")
   ∧ run impl (UserController.updateDisabledStatus req) w
     = (Next (ApiError 400 "Disabled status is required"), w, [])
   ∧ kind_of (ApiError 400 "Disabled status is required") = InvalidArgument).
Proof.
  split; intros H.
  - assert (E : UserController.updateVerificationStatus req
                = Throw (ApiError 400 "Verified status is required")).
    { unfold UserController.updateVerificationStatus, prop. by rewrite H. }
    rewrite E. done.
  - assert (E : UserController.updateDisabledStatus req
                = Throw (ApiError 400 "Disabled status is required")).
    { unfold UserController.updateDisabledStatus, prop. by rewrite H. }
    rewrite E. done.
Qed.

Lemma status_field_required_witness :
  let req := Request "u1" ∅ {[ "name" := JStr "Ann" ]} "admin" in
  run perform (UserController.updateVerificationStatus req) blank
    = (Next (ApiError 400 "Verified status is required"), blank, [])
  ∧ run perform (UserController.updateDisabledStatus req) blank
    = (Next (ApiError 400 "Disabled status is required"), blank, []).
Proof.
  intros req.
  destruct (status_field_required perform req blank) as [Hv Hd].
  split.
  - apply Hv. reflexivity.
  - apply Hd. reflexivity.
Defined.

(* ===================================================================== *)
(** ** Listing                                                            *)
(* ===================================================================== *)

Section Listing.

Implicit Types (q : gmap string qval) (req : request) (w : world) (impl : interp).

Lemma with_defaults_lookup q k :
  with_defaults q !! k
  = match q !! k with
    | Some v => Some v
    | None => ({[ "page" := QStr "1"; "limit" := QStr "20"; "search" := QStr "" ]}
                 : gmap string qval) !! k
    end.
Proof. unfold with_defaults. rewrite lookup_union. by destruct (q !! k), (_ !! k). Qed.

(** The handler is one call, then the answer. *)
Lemma getAllUsers_program req :
  UserController.getAllUsers req
  = Call (GetAllUsers (UserController.parseInt_or (JNum 1) (req_query req !! "page"))
                      (UserController.parseInt_or (JNum 20) (req_query req !! "limit"))
                      (default (QStr "") (req_query req !! "search")))
         (fun result => ok "Users retrieved successfully" (Data result)).
Proof. reflexivity. Qed.

Lemma getAllUsers_written_out req :
  UserController.getAllUsers req
  = UserController.getAllUsers (set_query (with_defaults (req_query req)) req).
Proof.
  rewrite !getAllUsers_program. cbn [req_query set_query].
  rewrite !with_defaults_lookup.
  by destruct (req_query req !! "page"), (req_query req !! "limit"),
    (req_query req !! "search").
Qed.

(** C10: [getAllUsers] reads [page], [limit] and [search] from the query,
    each with its default where it is absent and whatever the others are:
    the one call it makes is [getAllUsers(page, limit, search)], where an
    absent [page] is 1, an absent [limit] is 20 and an absent [search] is
    the empty string, and a parameter that is supplied is passed on
    ([parseInt] of it for [page] and [limit]).  A request with none of the
    three makes the call [getAllUsers(1, 20, '')], and every request is the
    same program as the one whose query has the absent parameters written
    out as [page=1], [limit=20], [search=]. *)
Theorem getAllUsers_defaults (impl : interp) (req : request) (w : world) :
  let q := req_query req in
  (∃ page limit search,
     run impl (UserController.getAllUsers req) w
     = match impl (GetAllUsers page limit search) w with
       | (inl e, w') => (Next e, w', [GetAllUsers page limit search])
       | (inr result, w') =>
         (Json 200 (Envelope false "Users retrieved successfully" (Data result)), w',
          [GetAllUsers page limit search])
       end
     ∧ (q !! "page" = None → page = JNum 1)
     ∧ (q !! "limit" = None → limit = JNum 20)
     ∧ (q !! "search" = None → search = QStr "")
     ∧ (∀ v, q !! "page" = Some v → page = parseInt_query v)
     ∧ (∀ v, q !! "limit" = Some v → limit = parseInt_query v)
     ∧ (∀ v, q !! "search" = Some v → search = v))
  ∧ (q !! "page" = None → q !! "limit" = None → q !! "search" = None →
     UserController.getAllUsers req
     = Call (GetAllUsers (JNum 1) (JNum 20) (QStr ""))
            (fun result => ok "Users retrieved successfully" (Data result)))
  ∧ UserController.getAllUsers req
    = UserController.getAllUsers (set_query (with_defaults q) req).
Proof.
  intros q. split_and!.
  - exists (UserController.parseInt_or (JNum 1) (q !! "page")),
           (UserController.parseInt_or (JNum 20) (q !! "limit")),
           (default (QStr "") (q !! "search")).
    split_and!.
    + rewrite getAllUsers_program. fold q. cbn [run].
      by destruct (impl _ w) as [[e|result] w'].
    + by intros ->.
    + by intros ->.
    + by intros ->.
    + by intros v ->.
    + by intros v ->.
    + by intros v ->.
  - intros Hp Hl Hs. rewrite getAllUsers_program. fold q. by rewrite Hp, Hl, Hs.
  - apply getAllUsers_written_out.
Qed.

Lemma getAllUsers_defaults_witness :
  (run perform (UserController.getAllUsers
                  (Request "" {[ "page" := QStr "3" ]} ∅ "admin")) blank).2
  = [GetAllUsers (JNum 3) (JNum 20) (QStr "")]
  ∧ UserController.getAllUsers (Request "" ∅ ∅ "admin")
    = Call (GetAllUsers (JNum 1) (JNum 20) (QStr ""))
           (fun result => ok "Users retrieved successfully" (Data result)).
Proof.
  split.
  - destruct (getAllUsers_defaults perform (Request "" {[ "page" := QStr "3" ]} ∅ "admin")
                                   blank)
      as ((page & limit & search & -> & _ & Hl & Hs & Hp & _) & _).
    rewrite (Hp (QStr "3")), Hl, Hs by reflexivity. reflexivity.
  - by apply (getAllUsers_defaults perform (Request "" ∅ ∅ "admin") blank).
Defined.

End Listing.

(* ===================================================================== *)
(** ** DELETE: what the pass over the tables leaves                       *)
(* ===================================================================== *)

Section Sweep.

Implicit Types (db : database) (r : row) (T : table) (del : graveyard)
  (st : database * graveyard) (s : list table).

Lemma schema_ordered : ordered [] schema = true.
Proof. reflexivity. Qed.

Lemma sweep_cons T s st : sweep (T :: s) st = sweep s (sweep_table st T).
Proof. reflexivity. Qed.

Lemma sweep_app s1 s2 st : sweep (s1 ++ s2) st = sweep s2 (sweep s1 st).
Proof. unfold sweep. apply foldl_app. Qed.

Lemma sweep_db_other s st t :
  t ∉ map tbl_name s → (sweep s st).1 !! t = st.1 !! t.
Proof.
  revert st. induction s as [|T s IH]; intros st Ht; [done|].
  rewrite sweep_cons, IH by set_solver.
  simpl. apply lookup_insert_ne. set_solver.
Qed.

Lemma sweep_del_other s st t :
  t ∉ map tbl_name s → (sweep s st).2 !! t = st.2 !! t.
Proof.
  revert st. induction s as [|T s IH]; intros st Ht; [done|].
  rewrite sweep_cons, IH by set_solver.
  simpl. apply lookup_insert_ne. set_solver.
Qed.

Lemma buried_sweep_table st T t v :
  v ∈ buried st.2 t → v ∈ buried (sweep_table st T).2 t.
Proof.
  intros Hv. unfold buried, sweep_table. simpl.
  destruct (decide (tbl_name T = t)) as [->|Hne].
  - rewrite lookup_insert_eq. simpl. apply elem_of_app. by left.
  - by rewrite lookup_insert_ne.
Qed.

(** The pass only ever adds to the ids it has deleted. *)
Lemma buried_mono s st t v :
  v ∈ buried st.2 t → v ∈ buried (sweep s st).2 t.
Proof.
  revert st. induction s as [|T s IH]; intros st Hv; [done|].
  rewrite sweep_cons. by apply IH, buried_sweep_table.
Qed.

Lemma ordered_names seen s T :
  ordered seen s = true → T ∈ s → tbl_name T ∉ seen.
Proof.
  revert seen. induction s as [|T0 s IH]; intros seen Ho HT; [by apply elem_of_nil in HT|].
  simpl in Ho. apply andb_prop in Ho as [Ho Hs]. apply andb_prop in Ho as [Hn _].
  apply elem_of_cons in HT as [->|HT].
  - apply negb_true_iff, bool_decide_eq_false in Hn. done.
  - specialize (IH _ Hs HT). set_solver.
Qed.

Lemma ordered_fresh seen s t :
  ordered seen s = true → t ∈ seen → t ∉ map tbl_name s.
Proof.
  intros Ho Ht Hin. apply list_elem_of_fmap in Hin as (T & -> & HT).
  by apply (ordered_names _ _ _ Ho HT).
Qed.

Lemma ordered_NoDup seen s : ordered seen s = true → NoDup (map tbl_name s).
Proof.
  revert seen. induction s as [|T s IH]; intros seen Ho; [constructor|].
  simpl in Ho. apply andb_prop in Ho as [Ho Hs]. simpl. constructor.
  - eapply ordered_fresh; [done|]. set_solver.
  - by eapply IH.
Qed.

(** The rows a table is left with, and the ids it loses, are decided when
    the pass reaches it, from the ids deleted in the tables before it. *)
Lemma sweep_rows s1 T s2 st :
  NoDup (map tbl_name (s1 ++ T :: s2)) →
  rows (sweep (s1 ++ T :: s2) st).1 (tbl_name T)
  = survivors (sweep s1 st).2 T (rows st.1 (tbl_name T)).
Proof.
  intros Hnd. rewrite map_app in Hnd. simpl in Hnd.
  apply NoDup_app in Hnd as (_ & Hdis & Hnd). apply NoDup_cons in Hnd as [Hn2 _].
  assert (Hn1 : tbl_name T ∉ map tbl_name s1) by set_solver.
  rewrite sweep_app, sweep_cons. unfold rows at 1.
  rewrite sweep_db_other by done. simpl. rewrite lookup_insert_eq. simpl.
  unfold rows. by rewrite sweep_db_other.
Qed.

Lemma sweep_buried s1 T s2 st :
  NoDup (map tbl_name (s1 ++ T :: s2)) →
  buried (sweep (s1 ++ T :: s2) st).2 (tbl_name T)
  = buried st.2 (tbl_name T)
    ++ ids (List.filter (doomed (sweep s1 st).2 T) (rows st.1 (tbl_name T))).
Proof.
  intros Hnd. rewrite map_app in Hnd. simpl in Hnd.
  apply NoDup_app in Hnd as (_ & Hdis & Hnd). apply NoDup_cons in Hnd as [Hn2 _].
  assert (Hn1 : tbl_name T ∉ map tbl_name s1) by set_solver.
  rewrite sweep_app, sweep_cons. unfold buried at 1.
  rewrite sweep_del_other by done. simpl. rewrite lookup_insert_eq. simpl.
  unfold buried, rows. by rewrite sweep_del_other, sweep_db_other.
Qed.

Lemma col_insert r c c' v :
  col (<[c := v]> r) c' = if decide (c = c') then v else col r c'.
Proof. unfold col. rewrite lookup_insert. by destruct (decide (c = c')). Qed.

(** SET NULL changes nothing but the referencing columns, to NULL. *)
Lemma set_null_col del T r c :
  col (set_null del T r) c = col r c ∨ col (set_null del T r) c = VNull.
Proof.
  unfold set_null. induction (tbl_foreign_keys T) as [|fk l IH]; simpl; [by left|].
  destruct (_ && _); [|done].
  rewrite col_insert. destruct (decide _); [by right|done].
Qed.

Lemma set_null_dangling del T r fk :
  fk ∈ tbl_foreign_keys T → fk_action fk = SET_NULL → dangling del r fk = true →
  col (set_null del T r) (fk_column fk) = VNull.
Proof.
  unfold set_null. induction (tbl_foreign_keys T) as [|fk' l IH]; simpl; intros Hin Ha Hd.
  - by apply elem_of_nil in Hin.
  - apply elem_of_cons in Hin as [<-|Hin].
    + rewrite Ha, Hd. simpl. rewrite col_insert. by rewrite decide_True.
    + destruct (_ && _); [|by apply IH].
      rewrite col_insert. destruct (decide _); [done|by apply IH].
Qed.

Lemma dangling_null del r fk :
  col r (fk_column fk) = VNull → dangling del r fk = false.
Proof. unfold dangling. by intros ->. Qed.

Lemma survivors_elem del T l r' :
  r' ∈ survivors del T l ↔ ∃ r, r ∈ l ∧ doomed del T r = false ∧ r' = set_null del T r.
Proof.
  unfold survivors. rewrite list_elem_of_fmap. split.
  - intros (r & -> & Hr). apply list_elem_of_In, filter_In in Hr as [Hr Hd].
    exists r. rewrite <- list_elem_of_In in Hr. by apply negb_true_iff in Hd.
  - intros (r & Hr & Hd & ->). exists r. split; [done|].
    apply list_elem_of_In, filter_In. rewrite <- list_elem_of_In.
    by rewrite Hd.
Qed.

(** A row that stays references no deleted row. *)
Lemma survivors_no_dangling del T l r' fk :
  r' ∈ survivors del T l → fk ∈ tbl_foreign_keys T → dangling del r' fk = false.
Proof.
  intros (r & Hr & Hd & ->)%survivors_elem Hfk.
  destruct (dangling del r fk) eqn:Hdr.
  - destruct (fk_action fk) eqn:Ha.
    + exfalso. unfold doomed in Hd.
      assert (existsb (fun fk => bool_decide (fk_action fk = CASCADE) && dangling del r fk)
                      (tbl_foreign_keys T) = true) as He; [|congruence].
      apply existsb_exists. exists fk. rewrite <- list_elem_of_In. split; [done|].
      by rewrite Ha, Hdr.
    + apply dangling_null. by apply set_null_dangling.
  - destruct (set_null_col del T r (fk_column fk)) as [E|E].
    + unfold dangling in *. by rewrite E.
    + by apply dangling_null.
Qed.

Lemma dangling_ext del del' r fk :
  del !! fk_table fk = del' !! fk_table fk → dangling del r fk = dangling del' r fk.
Proof. unfold dangling, buried. by intros ->. Qed.

(** After the pass, no row of any table references a deleted row. *)
Lemma sweep_no_dangling s seen st T r fk :
  ordered seen s = true → T ∈ s →
  r ∈ rows (sweep s st).1 (tbl_name T) → fk ∈ tbl_foreign_keys T →
  dangling (sweep s st).2 r fk = false.
Proof.
  revert seen st. induction s as [|T0 s IH]; intros seen st Ho HT Hr Hfk.
  { by apply elem_of_nil in HT. }
  pose proof Ho as Ho'. simpl in Ho'.
  apply andb_prop in Ho' as [Ho' Hs]. apply andb_prop in Ho' as [Hn Hfks].
  apply negb_true_iff, bool_decide_eq_false in Hn.
  rewrite sweep_cons in *.
  destruct (decide (tbl_name T = tbl_name T0)) as [E|NE].
  - assert (T = T0) as ->.
    { apply elem_of_cons in HT as [->|HT]; [done|]. exfalso.
      eapply (ordered_names _ _ _ Hs HT). rewrite E. set_solver. }
    clear E HT.
    assert (tbl_name T0 ∉ map tbl_name s) as Hfresh.
    { eapply ordered_fresh; [done|]. set_solver. }
    unfold rows in Hr. rewrite sweep_db_other in Hr by done.
    simpl in Hr. rewrite lookup_insert_eq in Hr. simpl in Hr.
    assert (fk_table fk ∈ seen) as Hseen.
    { rewrite forallb_forall in Hfks. apply list_elem_of_In, Hfks in Hfk.
      by apply bool_decide_eq_true in Hfk. }
    rewrite (dangling_ext _ st.2).
    + by eapply survivors_no_dangling.
    + rewrite sweep_del_other by (eapply ordered_fresh; [done|]; set_solver).
      simpl. apply lookup_insert_ne. congruence.
  - apply elem_of_cons in HT as [->|HT]; [done|].
    by eapply IH.
Qed.

Lemma survivors_no_fks del T l : tbl_foreign_keys T = [] → survivors del T l = l.
Proof.
  intros E. unfold survivors, doomed, set_null. rewrite E. simpl.
  induction l as [|r l IH]; [done|]. simpl. by rewrite IH.
Qed.

Lemma doomed_no_fks del T l :
  tbl_foreign_keys T = [] → List.filter (doomed del T) l = [].
Proof.
  intros E. unfold doomed. rewrite E. simpl. by induction l.
Qed.

End Sweep.

(* ===================================================================== *)
(** ** Deleting a user                                                    *)
(* ===================================================================== *)

Section DeleteUser.

Variable u : string.
Variable db : database.

Local Abbreviation victims := (deleted_users u db).
Local Abbreviation rest := (kept_users u db).
Local Abbreviation st0 := (delete_user_start u db).

Lemma matches_id r : matches [("id", VText u)] r = true ↔ col r "id" = VText u.
Proof.
  unfold matches. simpl. rewrite andb_true_r. by rewrite bool_decide_eq_true.
Qed.

Lemma ids_victims v : v ∈ ids victims ↔ v = VText u ∧ VText u ∈ ids (rows db "users").
Proof.
  unfold ids, victims. rewrite !list_elem_of_fmap. split.
  - intros (r & -> & Hr). apply list_elem_of_In, filter_In in Hr as [Hr Hm].
    apply matches_id in Hm. split; [done|]. exists r. by rewrite <- list_elem_of_In in Hr.
  - intros (-> & r & Hr & Hin). exists r. split; [done|].
    apply list_elem_of_In, filter_In. rewrite <- list_elem_of_In. split; [done|].
    by apply matches_id.
Qed.

Lemma delete_user_result db' n :
  delete_user u db = inr (db', n) → db' = (sweep schema st0).1 ∧ n = length victims.
Proof. apply exec_delete_inr. Qed.

Lemma rows_st0 t : t ≠ "users" → rows st0.1 t = rows db t.
Proof. intros. unfold st0. simpl. by rewrite rows_insert_ne. Qed.

(** While the pass runs, the deleted ids of [users] are those of the
    statement itself. *)
Lemma buried_users s :
  NoDup (map tbl_name (users :: s)) →
  buried (sweep (users :: s) st0).2 "users" = ids victims.
Proof.
  intros Hnd. pose proof (sweep_buried [] users s st0 Hnd) as H.
  change (buried (sweep (users :: s) st0).2 "users" = buried st0.2 "users"
          ++ ids (List.filter (doomed (sweep [] st0).2 users) (rows st0.1 "users"))) in H.
  rewrite H, doomed_no_fks by done. unfold buried, st0. cbn [fst snd].
  rewrite lookup_singleton_eq. cbn [default ids map]. by rewrite app_nil_r.
Qed.

(** The groups that go are those the user created. *)
Lemma buried_groups v :
  v ∈ buried (sweep [users; otps; sessions; groups] st0).2 "groups" →
  ∃ g, g ∈ rows db "groups" ∧ col g "id" = v ∧ col g "created_by" = VText u.
Proof.
  assert (Hnd : NoDup (map tbl_name [users; otps; sessions; groups]))
    by (apply (ordered_NoDup []); reflexivity).
  pose proof (sweep_buried [users; otps; sessions] groups [] st0 Hnd) as H.
  change (buried (sweep [users; otps; sessions; groups] st0).2 "groups"
          = buried st0.2 "groups"
            ++ ids (List.filter (doomed (sweep [users; otps; sessions] st0).2 groups)
                                (rows st0.1 "groups"))) in H.
  rewrite H. clear H.
  replace (buried st0.2 "groups") with (@nil sqlval) by reflexivity.
  rewrite app_nil_l, rows_st0 by done.
  unfold ids. intros (g & -> & Hg)%list_elem_of_fmap.
  apply list_elem_of_In, filter_In in Hg as [Hg Hd]. rewrite <- list_elem_of_In in Hg.
  exists g. split; [done|]. split; [done|].
  unfold doomed in Hd. cbn [tbl_foreign_keys groups existsb] in Hd.
  rewrite orb_false_r in Hd. apply andb_prop in Hd as [_ Hd].
  unfold dangling in Hd. cbn [fk_column fk_table] in Hd. apply andb_prop in Hd as [_ Hd].
  apply bool_decide_eq_true in Hd.
  rewrite buried_users in Hd by (apply (ordered_NoDup []); reflexivity).
  by apply ids_victims in Hd as [-> _].
Qed.

(** The foreign keys that reference [users]. *)
Lemma user_references :
  map (fun x => (x.1, fk_column x.2, fk_action x.2))
      (List.filter (fun x => String.eqb (fk_table x.2) "users") (foreign_keys schema))
  = [ ("otps", "user_id", CASCADE); ("sessions", "user_id", CASCADE);
      ("groups", "created_by", CASCADE);
      ("group_members", "user_id", CASCADE); ("group_members", "added_by", SET_NULL);
      ("messages", "from_id", CASCADE); ("messages", "to_id", CASCADE);
      ("user_messages", "user_id", CASCADE);
      ("blocked_users", "blocker_id", CASCADE); ("blocked_users", "blocked_id", CASCADE);
      ("notification_tokens", "user_id", CASCADE);
      ("reported_users", "reporter_id", CASCADE); ("reported_users", "reported_id", CASCADE);
      ("reported_groups", "reporter_id", CASCADE) ].
Proof. reflexivity. Qed.

Lemma set_null_cascade del T r :
  forallb (fun fk => bool_decide (fk_action fk = CASCADE)) (tbl_foreign_keys T) = true →
  set_null del T r = r.
Proof.
  unfold set_null. induction (tbl_foreign_keys T) as [|fk l IH]; simpl; [done|].
  intros [Ha Hl]%andb_prop. apply bool_decide_eq_true in Ha. rewrite Ha. simpl. by apply IH.
Qed.

Lemma schema_set_null T :
  T ∈ schema → tbl_name T ≠ "group_members" →
  forallb (fun fk => bool_decide (fk_action fk = CASCADE)) (tbl_foreign_keys T) = true.
Proof.
  unfold schema. intros HT Hne.
  repeat (apply elem_of_cons in HT as [->|HT]; [done || reflexivity|]).
  by apply elem_of_nil in HT.
Qed.

Lemma survivors_sub del T l r :
  forallb (fun fk => bool_decide (fk_action fk = CASCADE)) (tbl_foreign_keys T) = true →
  r ∈ survivors del T l → r ∈ l.
Proof.
  intros Hc (r0 & Hr & _ & ->)%survivors_elem. by rewrite set_null_cascade.
Qed.

Lemma doomed_group_members del m :
  doomed del group_members m
  = dangling del m (ForeignKey "group_id" "groups" CASCADE)
    || (dangling del m (ForeignKey "user_id" "users" CASCADE) || false).
Proof. reflexivity. Qed.

Lemma set_null_group_members del m :
  set_null del group_members m
  = if dangling del m (ForeignKey "added_by" "users" SET_NULL)
    then <["added_by" := VNull]> m else m.
Proof. reflexivity. Qed.

Lemma dangling_spec del r c t a :
  dangling del r (ForeignKey c t a) = true ↔ col r c ≠ VNull ∧ col r c ∈ buried del t.
Proof.
  unfold dangling. cbn [fk_column fk_table].
  rewrite andb_true_iff, bool_decide_eq_true, negb_true_iff.
  destruct (col r c); cbn [is_null]; naive_solver.
Qed.

(** C8: deleting a user ([DELETE FROM users WHERE id = u], the user being
    there) removes the user row and leaves no row in any table that
    references the user through any foreign key: OTPs, sessions, groups
    created, memberships, messages sent or received, per-recipient message
    rows, blocks, notification tokens and reports are gone.  Outside
    [group_members] no row is rewritten: what remains was there before.  The
    one foreign key of the schema that is not ON DELETE CASCADE is
    [group_members.added_by], ON DELETE SET NULL: a membership row of
    another user, in a group that stays, remains, with [added_by] set to
    NULL if it referenced the deleted user and unchanged otherwise. *)
Theorem delete_user_cascades (db' : database) (n : nat) :
  delete_user u db = inr (db', n) →
  VText u ∈ ids (rows db "users") →
  (∀ r, r ∈ rows db' "users" → col r "id" ≠ VText u)
  ∧ (∀ T fk r, T ∈ schema → fk ∈ tbl_foreign_keys T → fk_table fk = "users" →
       r ∈ rows db' (tbl_name T) → col r (fk_column fk) ≠ VText u)
  ∧ (∀ T r, T ∈ schema → tbl_name T ≠ "group_members" →
       r ∈ rows db' (tbl_name T) → r ∈ rows db (tbl_name T))
  ∧ List.filter (fun x => bool_decide (fk_action x.2 = SET_NULL)) (foreign_keys schema)
    = [("group_members", ForeignKey "added_by" "users" SET_NULL)]
  ∧ (∀ m, m ∈ rows db "group_members" →
       col m "user_id" ≠ VText u →
       (∀ g, g ∈ rows db "groups" → col g "id" = col m "group_id" →
             col g "created_by" ≠ VText u) →
       (if decide (col m "added_by" = VText u) then <["added_by" := VNull]> m else m)
         ∈ rows db' "group_members").
Proof.
  intros [-> _]%delete_user_result Hu.
  assert (Hnd : NoDup (map tbl_name schema)) by (apply (ordered_NoDup []); reflexivity).
  assert (Hin : ∀ T r, T ∈ schema → r ∈ rows st0.1 (tbl_name T) → r ∈ rows db (tbl_name T)).
  { intros T r _ Hr. destruct (decide (tbl_name T = "users")) as [E|NE].
    - rewrite E in *. unfold st0 in Hr. cbn [fst] in Hr. rewrite rows_insert in Hr.
      apply list_elem_of_In, filter_In in Hr as [Hr _]. by apply list_elem_of_In.
    - by rewrite rows_st0 in Hr. }
  split; [|split; [|split; [|split]]].
  - intros r Hr.
    pose proof (sweep_rows [] users (tail schema) st0 Hnd) as H.
    change (rows (sweep schema st0).1 "users"
            = survivors (sweep [] st0).2 users (rows st0.1 "users")) in H.
    rewrite H, survivors_no_fks in Hr by done.
    unfold st0 in Hr. cbn [fst] in Hr. rewrite rows_insert in Hr.
    apply list_elem_of_In, filter_In in Hr as [_ Hr].
    apply negb_true_iff in Hr. intros E%matches_id. congruence.
  - intros T [c t a] r HT Hfk Href Hr E. cbn [fk_table fk_column] in *. subst t.
    pose proof (sweep_no_dangling schema [] st0 T r _ schema_ordered HT Hr Hfk) as Hd.
    apply not_true_iff_false in Hd. apply Hd, dangling_spec. split; [by rewrite E|].
    rewrite E. apply buried_mono. unfold buried, st0. cbn [snd].
    rewrite lookup_singleton_eq. cbn [default]. by apply ids_victims.
  - intros T r HT Hne Hr.
    destruct (list_elem_of_split _ _ HT) as (s1 & s2 & Hs).
    rewrite Hs in Hr, Hnd. rewrite sweep_rows in Hr by done.
    apply survivors_sub in Hr; [|by apply schema_set_null].
    by apply Hin.
  - reflexivity.
  - intros m Hm Huser Hgroup.
    pose proof (sweep_rows [users; otps; sessions; groups] group_members
                           (drop 5 schema) st0 Hnd) as H.
    change (rows (sweep schema st0).1 "group_members"
            = survivors (sweep [users; otps; sessions; groups] st0).2 group_members
                        (rows st0.1 "group_members")) in H.
    rewrite H. clear H.
    set (del := (sweep [users; otps; sessions; groups] st0).2).
    assert (Husers : ∀ v, v ∈ buried del "users" ↔ v = VText u).
    { intros v. unfold del.
      rewrite buried_users by (apply (ordered_NoDup []); reflexivity).
      rewrite ids_victims. naive_solver. }
    apply survivors_elem. exists m. split; [by rewrite rows_st0|]. split.
    + rewrite doomed_group_members, orb_false_r. apply orb_false_iff.
      split; apply not_true_iff_false; rewrite dangling_spec; intros [_ Hd].
      * apply buried_groups in Hd as (g & Hg & Hid & Hby). by apply (Hgroup g).
      * by apply Husers in Hd.
    + rewrite set_null_group_members.
      destruct (decide (col m "added_by" = VText u)) as [E|NE].
      * rewrite (proj2 (dangling_spec _ _ _ _ _)); [done|]. rewrite E.
        split; [done|]. by apply Husers.
      * destruct (dangling del m _) eqn:Hd; [|done].
        apply dangling_spec in Hd as [_ Hd]. by apply Husers in Hd.
Qed.

End DeleteUser.

Lemma delete_user_cascades_witness :
  (∀ r, r ∈ rows sample_without_u1 "users" → col r "id" ≠ VText "u1")
  ∧ (∀ T fk r, T ∈ schema → fk ∈ tbl_foreign_keys T → fk_table fk = "users" →
       r ∈ rows sample_without_u1 (tbl_name T) → col r (fk_column fk) ≠ VText "u1")
  ∧ (∀ T r, T ∈ schema → tbl_name T ≠ "group_members" →
       r ∈ rows sample_without_u1 (tbl_name T) → r ∈ rows sample_db (tbl_name T))
  ∧ List.filter (fun x => bool_decide (fk_action x.2 = SET_NULL)) (foreign_keys schema)
    = [("group_members", ForeignKey "added_by" "users" SET_NULL)]
  ∧ (∀ m, m ∈ rows sample_db "group_members" →
       col m "user_id" ≠ VText "u1" →
       (∀ g, g ∈ rows sample_db "groups" → col g "id" = col m "group_id" →
             col g "created_by" ≠ VText "u1") →
       (if decide (col m "added_by" = VText "u1") then <["added_by" := VNull]> m else m)
         ∈ rows sample_without_u1 "group_members").
Proof.
  apply (delete_user_cascades "u1" sample_db sample_without_u1 1).
  - unfold sample_without_u1, delete_user, exec_delete.
    replace (find_table schema "users") with (Some users) by reflexivity.
    replace (first_missing users ["id"]) with (@None string) by reflexivity.
    cbn [length Nat.eqb negb]. unfold db_of. f_equal.
  - apply list_elem_of_In. vm_compute. auto.
Defined.

(** What is left of the sample memberships: [m1] is gone with its user,
    [m2] and [m3] stay with [added_by] NULL. *)
Lemma sample_memberships_after_delete :
  map (fun m => (col m "id", col m "user_id", col m "added_by"))
      (rows sample_without_u1 "group_members")
  = [ (VText "m2", VText "u2", VNull); (VText "m3", VText "u3", VNull) ]
  ∧ rows sample_without_u1 "blocked_users" = []
  ∧ rows sample_without_u1 "reported_users" = [].
Proof. vm_compute. done. Qed.

(* ===================================================================== *)
(** ** Messages have exactly one target                                   *)
(* ===================================================================== *)

Section MessageTarget.

Implicit Types (db : database) (r : row).

Lemma inr_db_of (x : dberror + (database * nat)) :
  succeeded x = true → x = inr (db_of x, count_of x).
Proof. by destruct x as [|[]]. Qed.

(** The CHECK constraint of [messages] says exactly [one_target]. *)
Lemma checks_messages r : checks_hold messages r = true ↔ one_target r.
Proof.
  unfold checks_hold, one_target.
  cbn [tbl_check messages forallb eval_cond].
  destruct (col r "to_id"), (col r "group_id"); cbn [is_null negb andb orb]; naive_solver.
Qed.

Lemma exec_update_inr t sets w db db' l :
  exec_update t sets w db = inr (db', l) →
  ∃ T, find_table schema t = Some T
       ∧ db' = <[t := map (fun r => if matches w r then assign sets r else r) (rows db t)]> db
       ∧ l = map (assign sets) (List.filter (matches w) (rows db t))
       ∧ forallb (checks_hold T) l = true.
Proof.
  unfold exec_update. intros H.
  destruct (find_table schema t) as [T|]; [|done].
  exists T. split; [done|].
  destruct (first_missing T _); [done|].
  destruct (list_find _ _) as [[? ?]|]; [done|].
  destruct (forallb (checks_hold T) _) eqn:Hc; [|done]. cbn [negb] in H.
  destruct (List.find _ (tbl_unique T)); [done|].
  destruct (list_find _ _) as [[? ?]|]; [done|].
  by injection H as <- <-.
Qed.

Lemma messages_ok_insert g t cols vals dn db db' n :
  exec_insert g t cols vals dn db = inr (db', n) → messages_ok db → messages_ok db'.
Proof.
  intros (T & HT & _ & Hc & [(_ & _ & -> & _)|(_ & _ & -> & _)])%exec_insert_inr Hok; [done|].
  intros r Hr. destruct (decide (t = "messages")) as [->|Hne].
  - rewrite rows_insert in Hr. apply elem_of_app in Hr as [Hr|Hr]; [by apply Hok|].
    apply list_elem_of_singleton in Hr as ->.
    replace (find_table schema "messages") with (Some messages) in HT by reflexivity.
    injection HT as <-. by apply checks_messages.
  - rewrite rows_insert_ne in Hr by done. by apply Hok.
Qed.

Lemma messages_ok_update t sets w db db' l :
  exec_update t sets w db = inr (db', l) → messages_ok db → messages_ok db'.
Proof.
  intros (T & HT & -> & -> & Hc)%exec_update_inr Hok.
  intros r Hr. destruct (decide (t = "messages")) as [->|Hne].
  - rewrite rows_insert in Hr. apply list_elem_of_fmap in Hr as (r0 & -> & Hr0).
    destruct (matches w r0) eqn:Hm; [|by apply Hok].
    replace (find_table schema "messages") with (Some messages) in HT by reflexivity.
    injection HT as <-. apply checks_messages.
    rewrite forallb_forall in Hc. apply Hc. apply in_map, filter_In.
    by rewrite <- list_elem_of_In.
  - rewrite rows_insert_ne in Hr by done. by apply Hok.
Qed.

Lemma messages_ok_delete t cols vals db db' n :
  exec_delete t cols vals db = inr (db', n) → messages_ok db → messages_ok db'.
Proof.
  intros [-> _]%exec_delete_inr Hok r Hr.
  assert (Hnd : NoDup (map tbl_name schema)) by (apply (ordered_NoDup []); reflexivity).
  match type of Hr with context [sweep schema ?st] =>
    pose proof (sweep_rows [users; otps; sessions; groups; group_members] messages
                           (drop 6 schema) st Hnd) as H;
    change (rows (sweep schema st).1 "messages"
            = survivors (sweep [users; otps; sessions; groups; group_members] st).2
                        messages (rows st.1 "messages")) in H
  end.
  rewrite H in Hr. clear H. apply survivors_sub in Hr; [|reflexivity].
  cbn [fst] in Hr. apply Hok.
  destruct (decide (t = "messages")) as [->|Hne].
  - rewrite rows_insert in Hr. apply list_elem_of_In, filter_In in Hr as [Hr _].
    by apply list_elem_of_In.
  - by rewrite rows_insert_ne in Hr.
Qed.

Lemma messages_ok_reachable db : reachable db → messages_ok db.
Proof.
  induction 1 as [g|db db' _ IH Hstep].
  - intros r Hr. unfold initial in Hr.
    destruct (exec_insert _ _ _ _ _ _) as [e|[db n]] eqn:E.
    + unfold rows in Hr. rewrite lookup_empty in Hr. by apply elem_of_nil in Hr.
    + apply exec_insert_inr in E as (T & _ & _ & _ & [(_ & _ & -> & _)|(_ & _ & -> & _)]).
      * unfold rows in Hr. rewrite lookup_empty in Hr. by apply elem_of_nil in Hr.
      * rewrite rows_insert_ne in Hr by done.
        unfold rows in Hr. rewrite lookup_empty in Hr. by apply elem_of_nil in Hr.
  - destruct Hstep.
    + by eapply messages_ok_insert.
    + by eapply messages_ok_update.
    + by eapply messages_ok_delete.
Qed.

(** C1: in every database the statements can produce, each row of
    [messages] has exactly one of [to_id] and [group_id] non-null; and an
    INSERT into [messages] whose row has both set, or neither, is rejected
    (by the CHECK constraint, if by nothing before it) whatever else the
    statement and the database are. *)
Theorem messages_one_target :
  (∀ db r, reachable db → r ∈ rows db "messages" → one_target r)
  ∧ (∀ g cols vals dn db,
       ¬ one_target (make_row g messages (list_to_map (zip cols vals))) →
       ∃ e, exec_insert g "messages" cols vals dn db = inl e).
Proof.
  split.
  - intros db r Hdb Hr. by apply (messages_ok_reachable db).
  - intros g cols vals dn db Hno. apply (exec_insert_check _ _ messages); [reflexivity|].
    apply not_true_iff_false. by rewrite checks_messages.
Qed.

Lemma messages_one_target_witness :
  (∀ r, r ∈ rows one_message "messages" → one_target r)
  ∧ ∃ e, exec_insert (Entropy "m2" 0) "messages" ["from_id"; "type"] [VText "u1"; VInt 0]
                     false one_message = inl e.
Proof.
  destruct messages_one_target as [Hrows Hreject]. split.
  - intros r Hr. apply (Hrows one_message r); [|exact Hr].
    apply (reachable_step one_user);
      [apply (reachable_step (initial (Entropy "s1" 0))); [apply reachable_initial|]|].
    + apply (step_insert (Entropy "u1" 0) "users" ["phone_number"] [VText "+100"] false
                         (initial (Entropy "s1" 0))
                         _ (count_of (exec_insert (Entropy "u1" 0) "users" ["phone_number"]
                                                  [VText "+100"] false
                                                  (initial (Entropy "s1" 0))))).
      apply inr_db_of. vm_compute. reflexivity.
    + apply (step_insert (Entropy "m1" 0) "messages" ["from_id"; "to_id"; "type"]
                         [VText "u1"; VText "u1"; VInt 0] false one_user
                         _ (count_of (exec_insert (Entropy "m1" 0) "messages"
                                        ["from_id"; "to_id"; "type"]
                                        [VText "u1"; VText "u1"; VInt 0] false one_user))).
      apply inr_db_of. vm_compute. reflexivity.
  - apply Hreject. intros [[_ H]|[H _]]; vm_compute in H; by apply H.
Defined.

End MessageTarget.

(* ===================================================================== *)
(** ** Sending a message                                                  *)
(* ===================================================================== *)

Section SendMessage.

Implicit Types (db : database) (r : row) (w : world).

Lemma user_message_row g u mid :
  let r := make_row g user_messages
             (list_to_map (zip ["user_id"; "message_id"] [u; mid])) in
  col r "user_id" = u ∧ col r "message_id" = mid.
Proof. split; reflexivity. Qed.

Lemma message_row_id g vals :
  length vals = 6%nat →
  col (make_row g messages (list_to_map (zip message_columns vals))) "id"
  = VText (fresh_uuid g).
Proof.
  intros Hl. do 7 (destruct vals as [|? vals]; try done).
Qed.

(** A fan-out that succeeds appends one row per recipient, in order, each
    pointing at the message, and touches no other table. *)
Lemma fan_out_inr mid to w w' :
  fan_out mid to w = inr w' →
  ∃ new, rows (w_db w') "user_messages" = rows (w_db w) "user_messages" ++ new
         ∧ map (fun x => col x "user_id") new = to
         ∧ Forall (fun x => col x "message_id" = mid) new
         ∧ ∀ t, t ≠ "user_messages" → rows (w_db w') t = rows (w_db w) t.
Proof.
  revert w. induction to as [|u to IH]; intros w H; cbn [fan_out] in H.
  - injection H as <-. exists []. by rewrite app_nil_r.
  - destruct (exec_insert _ _ _ _ _ _) as [e|[db' n]] eqn:E; [done|].
    apply exec_insert_inr in E as (T & HT & _ & _ & [(? & _)|(_ & _ & -> & _)]); [done|].
    replace (find_table schema "user_messages") with (Some user_messages) in HT by reflexivity.
    injection HT as <-.
    apply IH in H as (new & Hrows & Hto & Hmid & Hother). cbn [commit w_db] in *.
    rewrite rows_insert in Hrows.
    destruct (user_message_row (draw w) u mid) as [Hu Hm].
    eexists (_ :: new). split; [|split; [|split]].
    + rewrite Hrows, <- app_assoc. reflexivity.
    + cbn [map]. by rewrite Hu, Hto.
    + by constructor.
    + intros t Ht. rewrite Hother by done. by rewrite rows_insert_ne.
Qed.

Lemma insert_and_fan_out_inr sender tg content metadata type w w' :
  insert_and_fan_out sender tg content metadata type w = inr w' →
  ∃ msg new,
    rows (w_db w') "messages" = rows (w_db w) "messages" ++ [msg]
    ∧ rows (w_db w') "user_messages" = rows (w_db w) "user_messages" ++ new
    ∧ col msg "from_id" = VText sender
    ∧ Forall (fun x => col x "message_id" = col msg "id") new
    ∧ map (fun x => col x "user_id") new = recipients (w_db w) sender tg.
Proof.
  unfold insert_and_fan_out. intros H.
  destruct (exec_insert _ _ _ _ _ _) as [e|[db' n]] eqn:E; [done|].
  apply exec_insert_inr in E as (T & HT & _ & _ & [(? & _)|(_ & _ & -> & _)]); [done|].
  replace (find_table schema "messages") with (Some messages) in HT by reflexivity.
  injection HT as <-.
  apply fan_out_inr in H as (new & Hrows & Hto & Hmid & Hother). cbn [commit w_db] in *.
  eexists _, new. split; [|split; [|split; [|split]]].
  - rewrite Hother by done. by rewrite rows_insert.
  - rewrite Hrows. by rewrite rows_insert_ne.
  - reflexivity.
  - by rewrite message_row_id.
  - done.
Qed.

Lemma filter_length_split {A} (f : A → bool) (l : list A) :
  (length (List.filter f l) + length (List.filter (fun x => negb (f x)) l) = length l)%nat.
Proof. induction l as [|x l IH]; [done|]. cbn. destruct (f x); cbn; lia. Qed.

(** Under the UNIQUE constraint at most one row carries a given key. *)
Lemma distinct_keys_one cs (f : row → bool) (l : list row) k :
  distinct_keys cs l = true →
  Forall (fun v => v ≠ VNull) k →
  (∀ r, r ∈ l → f r = true → key r cs = k) →
  (length (List.filter f l) ≤ 1)%nat.
Proof.
  intros Hd Hk Hf. induction l as [|r l IH]; [cbn; lia|].
  cbn [distinct_keys] in Hd. apply andb_prop in Hd as [Hr Hd].
  assert (IH' := IH Hd (fun r' Hr' => Hf r' (list_elem_of_further _ _ _ Hr'))).
  cbn [List.filter]. destruct (f r) eqn:Hfr; [|done].
  assert (List.filter f l = []) as ->; [|cbn; lia].
  destruct (List.filter f l) as [|r' l'] eqn:El; [done|]. exfalso.
  assert (In r' (List.filter f l)) as [Hin Hfr']%filter_In by (rewrite El; by left).
  apply list_elem_of_In in Hin.
  apply negb_true_iff, not_true_iff_false in Hr. apply Hr.
  apply existsb_exists. exists r'. rewrite <- list_elem_of_In. split; [done|].
  unfold same_key. apply andb_true_intro.
  pose proof (Hf r (list_elem_of_here _ _) Hfr) as Kr.
  pose proof (Hf r' (list_elem_of_further _ _ _ Hin) Hfr') as Kr'.
  split; [|apply bool_decide_eq_true; congruence].
  apply forallb_forall. intros c Hc. apply negb_true_iff.
  unfold key in Kr. rewrite <- Kr in Hk. rewrite Forall_fmap, Forall_forall in Hk.
  apply list_elem_of_In, Hk in Hc. cbn in Hc. by destruct (col r c).
Qed.

Lemma filter_filter {A} (f g : A → bool) (l : list A) :
  List.filter f (List.filter g l) = List.filter (fun x => g x && f x) l.
Proof.
  induction l as [|x l IH]; [done|]. cbn. destruct (g x); cbn; [|done].
  destruct (f x); by rewrite IH.
Qed.

(** With unique memberships, a group the sender is a member of has exactly
    one more member than recipients. *)
Lemma recipients_count db sender g m :
  memberships_unique db →
  List.find (is_sender sender) (members db g) = Some m →
  (length (recipients db sender (Target None (Some g))) + 1 = length (members db g))%nat.
Proof.
  intros Hu Hm. unfold recipients. cbn [to_id group_id]. rewrite length_map.
  pose proof (filter_length_split (is_sender sender) (members db g)) as Hsplit.
  assert (length (List.filter (is_sender sender) (members db g)) = 1%nat) as Hone; [|lia].
  apply find_some in Hm as [Hin Hs].
  assert (0 < length (List.filter (is_sender sender) (members db g)))%nat.
  { destruct (List.filter _ _) eqn:E; [|cbn; lia].
    assert (In m []) as []. rewrite <- E. by apply filter_In. }
  assert (length (List.filter (is_sender sender) (members db g)) ≤ 1)%nat; [|lia].
  unfold members. rewrite filter_filter.
  apply (distinct_keys_one ["group_id"; "user_id"] _ _ [VText g; VText sender] Hu).
  { by repeat constructor. }
  intros r _ [Hg Hr]%andb_prop. unfold key. cbn [map].
  unfold matches in Hg. cbn [forallb fst snd is_null negb andb] in Hg.
  rewrite andb_true_r in Hg. apply bool_decide_eq_true in Hg, Hr. by rewrite Hg, Hr.
Qed.

Lemma transaction_inr sender tg content metadata type w :
  match transaction (insert_and_fan_out sender tg content metadata type) w with
  | (inr _, w') =>
    ∃ msg new,
      rows (w_db w') "messages" = rows (w_db w) "messages" ++ [msg]
      ∧ rows (w_db w') "user_messages" = rows (w_db w) "user_messages" ++ new
      ∧ col msg "from_id" = VText sender
      ∧ Forall (fun x => col x "message_id" = col msg "id") new
      ∧ map (fun x => col x "user_id") new = recipients (w_db w) sender tg
  | (inl _, w') => w' = w
  end.
Proof.
  unfold transaction.
  destruct (insert_and_fan_out _ _ _ _ _ _) as [e|w'] eqn:E; [done|].
  by apply insert_and_fan_out_inr in E.
Qed.

(** C2: [sendMessage] is modelled from the spec.  Whenever it succeeds,
    exactly one message row has been appended and the [user_messages] rows
    appended are one per intended recipient, each pointing at the new
    message: for a direct message exactly one row, for the recipient; for a
    group message (memberships being unique, as the schema has them) as
    many rows as the group has members at send time minus one, the sender.
    Whenever it fails, the world is as before: no message row exists
    without its full set of rows. *)
Theorem sendMessage_fan_out (sender : string) (tg : target) (content metadata : sqlval)
    (type : Z) (w : world) :
  match sendMessage sender tg content metadata type w with
  | (inr _, w') =>
    ∃ msg new,
      rows (w_db w') "messages" = rows (w_db w) "messages" ++ [msg]
      ∧ rows (w_db w') "user_messages" = rows (w_db w) "user_messages" ++ new
      ∧ col msg "from_id" = VText sender
      ∧ Forall (fun x => col x "message_id" = col msg "id") new
      ∧ map (fun x => col x "user_id") new = recipients (w_db w) sender tg
      ∧ (∀ u, to_id tg = Some u → map (fun x => col x "user_id") new = [VText u])
      ∧ (∀ g, group_id tg = Some g → memberships_unique (w_db w) →
              (length new + 1 = length (members (w_db w) g))%nat)
  | (inl _, w') => w' = w
  end.
Proof.
  pose proof (transaction_inr sender tg content metadata type w) as Htx.
  unfold sendMessage.
  destruct tg as [[u|] [g|]]; cbn [to_id group_id] in *; [reflexivity| | |reflexivity].
  - destruct (_ || _); [reflexivity|].
    destruct (transaction _ w) as [[e|r] w']; [exact Htx|].
    destruct Htx as (msg & new & Hm & Hu & Hf & Hid & Hto).
    exists msg, new. split_and!; [exact Hm|exact Hu|exact Hf|exact Hid|exact Hto| |].
    + by intros ? [= <-].
    + by intros ? [=].
  - destruct (List.find _ _) as [m|] eqn:Hfind; [|reflexivity].
    destruct (_ && _); [reflexivity|].
    destruct (transaction _ w) as [[e|r] w']; [exact Htx|].
    destruct Htx as (msg & new & Hm & Hu & Hf & Hid & Hto).
    exists msg, new. split_and!; [exact Hm|exact Hu|exact Hf|exact Hid|exact Hto| |].
    + by intros ? [=].
    + intros ? [= <-] Huniq.
      rewrite <- (recipients_count _ sender g m Huniq Hfind), <- Hto.
      by rewrite length_map.
Qed.

(** The target validation of [sendMessage]: both targets, or neither, is
    an InvalidArgument error, raised before any statement is issued. *)
Lemma sendMessage_target_required sender tg content metadata type w :
  (is_Some (to_id tg) ↔ is_Some (group_id tg)) →
  ∃ e, sendMessage sender tg content metadata type w = (inl e, w)
       ∧ kind_of e = InvalidArgument.
Proof.
  intros H. unfold sendMessage. destruct tg as [[u|] [g|]]; cbn [to_id group_id] in *.
  - eauto.
  - destruct H as [H _]. by destruct H as [? ?].
  - destruct H as [_ H]. by destruct H as [? ?].
  - eauto.
Qed.

Lemma sendMessage_fan_out_witness :
  ∃ w', (sendMessage "u2" (Target None (Some "g1")) (VText "hello") VNull 0 sample).2 = w'
        ∧ length (rows (w_db w') "messages") = 1%nat
        ∧ length (rows (w_db w') "user_messages") = 2%nat.
Proof.
  pose proof (sendMessage_fan_out "u2" (Target None (Some "g1")) (VText "hello") VNull 0
                                  sample) as H.
  destruct (sendMessage "u2" (Target None (Some "g1")) (VText "hello") VNull 0 sample)
    as [[e|r] w'] eqn:E.
  - apply (f_equal (fun x => match x.1 with inl _ => false | inr _ => true end)) in E.
    vm_compute in E. discriminate E.
  - exists w'. split; [reflexivity|].
    destruct H as (msg & new & Hm & Hu & _ & _ & _ & _ & Hcount).
    rewrite Hm, Hu, !length_app. split; [reflexivity|].
    assert (length new + 1 = length (members (w_db sample) "g1"))%nat as Hn.
    { apply Hcount; [reflexivity|]. vm_compute. reflexivity. }
    replace (length (members (w_db sample) "g1")) with 3%nat in Hn by (vm_compute; reflexivity).
    replace (length (rows (w_db sample) "user_messages")) with 0%nat by (vm_compute; reflexivity).
    lia.
Defined.

End SendMessage.

(* ===================================================================== *)
(** ** Updating a profile                                                 *)
(* ===================================================================== *)

Section UpdateUser.

Implicit Types (db : database) (r : row) (w : world) (body : gmap string jsval).

Lemma updateUser_program req :
  UserController.updateUser req
  = Call (UpdateUser (req_params_id req) (userData_of (req_body req)))
         (fun updatedUser => ok "User updated successfully" (DataUser updatedUser)).
Proof. reflexivity. Qed.

Lemma defined_spec v : defined v = true ↔ v ≠ JUndefined.
Proof. by destruct v. Qed.

(** [userData] holds exactly the supplied fields. *)
Lemma userData_lookup body c :
  userData_of body !! c
  = if decide (supplied body c) then Some (prop body c) else None.
Proof.
  unfold userData_of, UserController.set_if_defined, supplied, whitelist.
  destruct (defined (prop body "status")) eqn:Hs, (defined (prop body "photo")) eqn:Hp,
    (defined (prop body "email")) eqn:He, (defined (prop body "name")) eqn:Hn;
    rewrite ?lookup_insert, ?lookup_empty;
    repeat (case_decide; simplify_eq; try done);
    try (exfalso; match goal with
         | H : ¬ (_ ∧ _) |- _ => apply H; split; [set_solver|by apply defined_spec]
         end);
    match goal with
    | H : _ ∧ _ |- _ => destruct H as [Hin Hdef]
    end;
    repeat (apply elem_of_cons in Hin as [->|Hin];
            [first [done | by apply defined_spec in Hdef; congruence]|]);
    by apply elem_of_nil in Hin.
Qed.

Lemma find_none_intro {A} (f : A → bool) (l : list A) :
  (∀ x, In x l → f x = false) → List.find f l = None.
Proof.
  induction l as [|x l IH]; intros H; [done|]. cbn.
  rewrite (H x) by (by left). apply IH. intros y Hy. apply H. by right.
Qed.

Lemma userData_columns body id :
  first_missing users (map fst (map_to_list (to_sql <$> userData_of body))
                       ++ map fst (UserService.by_id id)) = None.
Proof.
  unfold first_missing. apply find_none_intro.
  intros c [Hc|Hc]%in_app_or; apply negb_false_iff, bool_decide_eq_true.
  - apply in_map_iff in Hc as ([c' v] & <- & Hc). apply list_elem_of_In in Hc.
    apply elem_of_map_to_list in Hc. rewrite lookup_fmap, userData_lookup in Hc. cbn [fst].
    case_decide as Hs; [|done]. destruct Hs as [Hin _]. unfold whitelist in Hin.
    repeat (apply elem_of_cons in Hin as [->|Hin]; [by vm_compute; set_solver|]).
    by apply elem_of_nil in Hin.
  - cbn in Hc. destruct Hc as [<-|[]]. vm_compute. set_solver.
Qed.

(** An UPDATE that matches no row changes nothing and returns no row. *)
Lemma exec_update_absent t T sets cond db :
  find_table schema t = Some T →
  first_missing T (map fst (map_to_list sets) ++ map fst cond) = None →
  List.filter (matches cond) (rows db t) = [] →
  ∃ db', exec_update t sets cond db = inr (db', []).
Proof.
  intros HT Hc Hf. unfold exec_update. rewrite HT, Hc, Hf. cbn.
  rewrite find_none_intro by done. eauto.
Qed.

(** The service's update of one user: on failure the world is as before,
    and the failure is NotFound when the user is absent; on success the
    rows of [users] matching the id take the assigned columns and nothing
    else changes. *)
Lemma update_spec id sets w :
  first_missing users (map fst (map_to_list sets) ++ map fst (UserService.by_id id)) = None →
  match UserService.update id sets w with
  | (inl e, w') => w' = w ∧ (user_absent id (w_db w) → e = UserService.not_found)
  | (inr _, w') =>
    ¬ user_absent id (w_db w)
    ∧ rows (w_db w') "users"
      = map (fun r => if matches (UserService.by_id id) r then assign sets r else r)
            (rows (w_db w) "users")
    ∧ ∀ t, t ≠ "users" → rows (w_db w') t = rows (w_db w) t
  end.
Proof.
  intros Hc. unfold UserService.update.
  destruct (exec_update _ _ _ _) as [e|[db' l]] eqn:E.
  - split; [done|]. intros Ha.
    destruct (exec_update_absent "users" users sets (UserService.by_id id) (w_db w))
      as [db' E']; [reflexivity|done|done|congruence].
  - apply exec_update_inr in E as (T & _ & -> & -> & _).
    destruct (List.filter _ _) as [|u l] eqn:Hf; cbn [map].
    + split; [done|]. by intros _.
    + split; [|split].
      * unfold user_absent. by rewrite Hf.
      * cbn [commit w_db]. by rewrite rows_insert.
      * intros t Ht. cbn [commit w_db]. by rewrite rows_insert_ne.
Qed.

Lemma col_assign sets r c :
  col (assign sets r) c = match sets !! c with Some v => v | None => col r c end.
Proof.
  unfold col, assign. rewrite lookup_union. by destruct (sets !! c), (r !! c).
Qed.

(** C7: [updateUser] passes to the service exactly the fields among name,
    email, photo and status that the body supplies.  With the service as
    the spec has it, the rows of [users] after the request are those
    before, each through one function that leaves every column that was
    not supplied as it was (so [phone_number], [verified], [disabled] and
    [role] among them, whatever the body holds), gives a supplied column
    of the target row the supplied value when the request succeeds, and
    leaves every other row alone; no other table changes; and when no user
    has the id, the request fails NotFound and the world is as before. *)
Theorem updateUser_frame (req : request) (w : world) :
  let '(o, w', tr) := run perform (UserController.updateUser req) w in
  tr = [UpdateUser (req_params_id req) (userData_of (req_body req))]
  ∧ (∀ c, userData_of (req_body req) !! c
          = if decide (supplied (req_body req) c) then Some (prop (req_body req) c) else None)
  ∧ (∃ f : row → row,
       rows (w_db w') "users" = map f (rows (w_db w) "users")
       ∧ (∀ r c, ¬ supplied (req_body req) c → col (f r) c = col r c)
       ∧ (∀ r c, c ∈ ["phone_number"; "verified"; "disabled"; "role"] →
                 col (f r) c = col r c)
       ∧ (∀ r c, succeeds o → matches (UserService.by_id (req_params_id req)) r = true →
                 supplied (req_body req) c →
                 col (f r) c = to_sql (prop (req_body req) c))
       ∧ (∀ r, matches (UserService.by_id (req_params_id req)) r = false → f r = r))
  ∧ (∀ t, t ≠ "users" → rows (w_db w') t = rows (w_db w) t)
  ∧ (user_absent (req_params_id req) (w_db w) → fails_with NotFound o ∧ w' = w).
Proof.
  rewrite updateUser_program. cbn [run perform].
  unfold UserService.updateUser.
  pose proof (update_spec (req_params_id req) (to_sql <$> userData_of (req_body req)) w
                          (userData_columns _ _)) as Hspec.
  assert (Hwl : ∀ c, c ∈ ["phone_number"; "verified"; "disabled"; "role"] →
                     ¬ supplied (req_body req) c).
  { intros c Hc [Hin _]. unfold whitelist in Hin.
    repeat (apply elem_of_cons in Hc as [->|Hc]; [set_solver|]). by apply elem_of_nil in Hc. }
  destruct (UserService.update _ _ w) as [[e|r] w'].
  - destruct Hspec as [-> Hnf]. split; [done|]. split; [apply userData_lookup|].
    split; [|split; [done|]].
    + exists (fun r => r). split; [by rewrite map_id|]. by split_and!.
    + intros Ha. rewrite (Hnf Ha). done.
  - cbn [run ok]. destruct Hspec as (Hpresent & Hrows & Hother).
    split; [done|]. split; [apply userData_lookup|]. split; [|split; [done|done]].
    eexists. split; [exact Hrows|].
    assert (Hkeep : ∀ r c, ¬ supplied (req_body req) c →
              col (if matches (UserService.by_id (req_params_id req)) r
                   then assign (to_sql <$> userData_of (req_body req)) r else r) c = col r c).
    { intros r0 c Hc. destruct (matches _ r0); [|done].
      rewrite col_assign, lookup_fmap, userData_lookup. by rewrite decide_False. }
    split_and!.
    + exact Hkeep.
    + intros r0 c Hc. by apply Hkeep, Hwl.
    + intros r0 c _ Hm Hs. rewrite Hm, col_assign, lookup_fmap, userData_lookup.
      by rewrite decide_True.
    + by intros r0 ->.
Qed.

End UpdateUser.

Lemma updateUser_frame_witness :
  (let '(o, w', _) := run perform (UserController.updateUser rename_request) sample in
   ∃ f : row → row,
     rows (w_db w') "users" = map f (rows (w_db sample) "users")
     ∧ ∀ r, col (f r) "role" = col r "role" ∧ col (f r) "phone_number" = col r "phone_number")
  ∧ (let '(o, w', _) := run perform (UserController.updateUser ghost_request) sample in
     fails_with NotFound o ∧ w' = sample).
Proof.
  split.
  - pose proof (updateUser_frame rename_request sample) as H.
    destruct (run perform (UserController.updateUser rename_request) sample) as [[o w'] tr].
    destruct H as (_ & _ & (f & Hrows & _ & Hfix & _) & _).
    exists f. split; [exact Hrows|].
    intros r. split; apply Hfix; set_solver.
  - pose proof (updateUser_frame ghost_request sample) as H.
    destruct (run perform (UserController.updateUser ghost_request) sample) as [[o w'] tr].
    destruct H as (_ & _ & _ & _ & Habsent).
    apply Habsent. vm_compute. reflexivity.
Defined.

(* ===================================================================== *)
(** ** Reporting and blocking                                             *)
(* ===================================================================== *)

Section ReportBlock.

Implicit Types (db : database) (w : world) (req : request) (scope : list string)
  (impl : interp).

(** The columns the controller's statements name are not columns of the
    tables they address. *)
Lemma report_columns :
  column_names reported_users = ["id"; "reporter_id"; "reported_id"; "reason"; "created_at"]
  ∧ first_missing reported_users ["user_id"; "reported_by"; "reason"] = Some "user_id".
Proof. split; reflexivity. Qed.

Lemma block_columns :
  column_names blocked_users = ["id"; "blocker_id"; "blocked_id"; "created_at"]
  ∧ first_missing blocked_users ["user_id"; "blocked_user_id"] = Some "user_id".
Proof. split; reflexivity. Qed.

Lemma query_insert_report params w :
  Repository.query UserController.insert_report params w
  = (inl (undefined_column "reported_users" "user_id"), w).
Proof.
  unfold Repository.query, UserController.insert_report.
  by rewrite (exec_insert_missing _ _ reported_users "user_id").
Qed.

Lemma query_insert_block params w :
  Repository.query UserController.insert_block params w
  = (inl (undefined_column "blocked_users" "user_id"), w).
Proof.
  unfold Repository.query, UserController.insert_block.
  by rewrite (exec_insert_missing _ _ blocked_users "user_id").
Qed.

Lemma query_delete_block params w :
  Repository.query UserController.delete_block params w
  = (inl (undefined_column "blocked_users" "user_id"), w).
Proof.
  unfold Repository.query, UserController.delete_block.
  by rewrite (exec_delete_missing _ blocked_users "user_id").
Qed.

(** [query] is not bound by the module; it is where it is imported. *)
Lemma module_scope_unbound : "query" ∉ UserController.module_scope.
Proof.
  unfold UserController.module_scope. intros H.
  repeat (apply elem_of_cons in H as [H|H]; [discriminate H|]). by apply elem_of_nil in H.
Qed.

Lemma imported_bound : "query" ∈ imported.
Proof. unfold imported. apply elem_of_cons. by left. Qed.



(** [getUserById] reads only: it resolves to a user, or throws NotFound
    when the user is absent. *)
Lemma getUserById_spec id w :
  match UserService.getUserById id w with
  | (inl e, w') => w' = w ∧ e = UserService.not_found ∧ user_absent id (w_db w)
  | (inr _, w') => w' = w ∧ ¬ user_absent id (w_db w)
  end.
Proof.
  unfold UserService.getUserById, exec_select, user_absent.
  replace (find_table schema "users") with (Some users) by reflexivity.
  replace (first_missing users (map fst (UserService.by_id id))) with (@None string)
    by reflexivity.
  by destruct (List.filter _ _).
Qed.

(** What a handler that checks the target does, whatever the service
    layer is: the validation, then [getUserById], then the statement. *)
Lemma guarded_run impl scope g req w :
  g ∈ guarded_handlers →
  let '(o, w', tr) := run impl (g_handler g scope req) w in
  if g_valid g req then
    match impl (GetUserById (req_params_id req)) w with
    | (inl e, w1) => o = Next e ∧ w' = w1 ∧ tr = [GetUserById (req_params_id req)]
    | (inr _, w1) =>
      if bool_decide ("query" ∈ scope)
      then tr = [GetUserById (req_params_id req); g_statement g req]
           ∧ match impl (g_statement g req) w1 with
             | (inl e, w2) => o = Next e ∧ w' = w2
             | (inr _, w2) => answers o ∧ w' = w2
             end
      else o = Next unbound_query ∧ w' = w1 ∧ tr = [GetUserById (req_params_id req)]
    end
  else fails_with InvalidArgument o ∧ w' = w ∧ tr = [].
Proof.
  unfold guarded_handlers. intros Hg. set (id := req_params_id req).
  apply elem_of_cons in Hg as [->|Hg]; [|apply elem_of_cons in Hg as [->|Hg]];
    [| |by apply elem_of_nil in Hg]; cbn [g_handler g_valid g_statement].
  - unfold UserController.reportUser, report_statement, UserController.query. fold id.
    destruct (truthy (prop (req_body req) "reason")); cbn [negb andb]; [|done].
    destruct (String.eqb id (req_user_id req)); cbn [negb]; [done|].
    cbn [bind await run].
    destruct (impl (GetUserById id) w) as [[e|user] w1]; [done|].
    destruct (bool_decide ("query" ∈ scope)); cbn [bind await run]; [|done].
    by destruct (impl (Query _ _) w1) as [[e|r] w2].
  - unfold UserController.blockUser, block_statement, UserController.query. fold id.
    destruct (String.eqb id (req_user_id req)); cbn [negb]; [done|].
    cbn [bind await run].
    destruct (impl (GetUserById id) w) as [[e|user] w1]; [done|].
    destruct (bool_decide ("query" ∈ scope)); cbn [bind await run]; [|done].
    by destruct (impl (Query _ _) w1) as [[e|r] w2].
Qed.

(** With the service layer as the spec has it and the repository run
    against the schema: an absent target is NotFound; for a target that is
    there the check passes, and what follows fails without a write. *)
Lemma guarded_perform scope g req w :
  g ∈ guarded_handlers → g_valid g req = true →
  let '(o, w', tr) := run perform (g_handler g scope req) w in
  w' = w
  ∧ (user_absent (req_params_id req) (w_db w) →
     o = Next UserService.not_found ∧ tr = [GetUserById (req_params_id req)])
  ∧ (¬ user_absent (req_params_id req) (w_db w) →
     if bool_decide ("query" ∈ scope)
     then (∃ t c, o = Next (undefined_column t c))
          ∧ tr = [GetUserById (req_params_id req); g_statement g req]
     else o = Next unbound_query ∧ tr = [GetUserById (req_params_id req)]).
Proof.
  intros Hg Hv. pose proof (guarded_run perform scope g req w Hg) as H.
  set (id := req_params_id req) in *.
  destruct (run perform (g_handler g scope req) w) as [[o w'] tr].
  rewrite Hv in H. cbn [perform] in H.
  pose proof (getUserById_spec id w) as Hu.
  destruct (UserService.getUserById id w) as [[e|user] w1].
  - destruct Hu as (-> & -> & Ha). destruct H as (-> & -> & ->). by split_and!.
  - destruct Hu as (-> & Hp). destruct (bool_decide ("query" ∈ scope)).
    + destruct H as (-> & H). unfold guarded_handlers in Hg.
      apply elem_of_cons in Hg as [->|Hg]; [|apply elem_of_cons in Hg as [->|Hg]];
        [| |by apply elem_of_nil in Hg]; cbn [g_statement] in *.
      * unfold report_statement in H. cbn [perform] in H.
        rewrite query_insert_report in H. destruct H as [-> ->].
        split_and!; [done|done|]. intros _. split; [eauto|done].
      * unfold block_statement in H. cbn [perform] in H.
        rewrite query_insert_block in H. destruct H as [-> ->].
        split_and!; [done|done|]. intros _. split; [eauto|done].
    + destruct H as (-> & -> & ->). by split_and!.
Qed.

(** What [unblockUser] does, whatever the service layer is: its one call,
    if it makes one, is its DELETE. *)
Lemma unblockUser_run impl scope req w :
  run impl (UserController.unblockUser scope req) w
  = if bool_decide ("query" ∈ scope)
    then match impl (unblock_statement req) w with
         | (inl e, w1) => (Next e, w1, [unblock_statement req])
         | (inr result, w1) =>
           (Json 200 (Envelope false
                        (if (0 <? rowCount result)%nat then "User unblocked successfully"
                         else "User was not blocked") NoData),
            w1, [unblock_statement req])
         end
    else (Next unbound_query, w, []).
Proof.
  unfold UserController.unblockUser, unblock_statement, UserController.query.
  destruct (bool_decide ("query" ∈ scope)); cbn [bind await run]; [|done].
  by destruct (impl (Query _ _) w) as [[e|r] w1].
Qed.

Lemma unblockUser_perform scope req w :
  run perform (UserController.unblockUser scope req) w
  = if bool_decide ("query" ∈ scope)
    then (Next (undefined_column "blocked_users" "user_id"), w, [unblock_statement req])
    else (Next unbound_query, w, []).
Proof.
  rewrite unblockUser_run. destruct (bool_decide ("query" ∈ scope)); [|done].
  unfold unblock_statement. cbn [perform]. by rewrite query_delete_block.
Qed.

End ReportBlock.

Section Defects.

Implicit Types (w : world) (req : request) (scope : list string) (impl : interp).

Lemma sample_has (id : string) :
  (0 < length (List.filter (matches (UserService.by_id id)) (rows sample_db "users")))%nat →
  ¬ user_absent id (w_db sample).
Proof. unfold user_absent. cbn [w_db sample]. intros H E. rewrite E in H. cbn in H. lia. Qed.

Lemma reportUser_guarded :
  Guarded UserController.reportUser
          (fun req => truthy (prop (req_body req) "reason")
                      && negb (String.eqb (req_params_id req) (req_user_id req)))
          report_statement ∈ guarded_handlers.
Proof. unfold guarded_handlers. apply elem_of_cons. by left. Qed.

Lemma blockUser_guarded :
  Guarded UserController.blockUser
          (fun req => negb (String.eqb (req_params_id req) (req_user_id req)))
          block_statement ∈ guarded_handlers.
Proof. unfold guarded_handlers. apply elem_of_cons. right. apply elem_of_cons. by left. Qed.

(** A handler that checks the target never writes and never answers,
    with the service layer as the spec has it and the repository run
    against the schema. *)
Lemma guarded_never_stores scope g req w :
  g ∈ guarded_handlers →
  ∃ e tr, run perform (g_handler g scope req) w = (Next e, w, tr).
Proof.
  intros Hg. destruct (g_valid g req) eqn:Hv.
  - pose proof (guarded_perform scope g req w Hg Hv) as H.
    destruct (run perform (g_handler g scope req) w) as [[o w'] tr].
    destruct H as (-> & Ha & Hp).
    destruct (decide (user_absent (req_params_id req) (w_db w))) as [Hu|Hu].
    + destruct (Ha Hu) as [-> ->]. eauto.
    + specialize (Hp Hu). destruct (bool_decide ("query" ∈ scope)).
      * destruct Hp as [(t & c & ->) ->]. eauto.
      * destruct Hp as [-> ->]. eauto.
  - pose proof (guarded_run perform scope g req w Hg) as H.
    destruct (run perform (g_handler g scope req) w) as [[o w'] tr].
    rewrite Hv in H. destruct H as (Ho & -> & ->).
    destruct o as [status body|e]; [done|]. eauto.
Qed.

(** In the file as it stands, and whatever the service layer is, a
    handler that checks the target never answers and never issues a
    statement. *)
Lemma guarded_shipped impl g req w :
  g ∈ guarded_handlers →
  let '(o, _, tr) := run impl (g_handler g UserController.module_scope req) w in
  (∃ e, o = Next e) ∧ no_query tr.
Proof.
  intros Hg. pose proof (guarded_run impl UserController.module_scope g req w Hg) as H.
  destruct (run impl (g_handler g UserController.module_scope req) w) as [[o w'] tr].
  rewrite (bool_decide_eq_false_2 _ module_scope_unbound) in H.
  destruct (g_valid g req).
  - destruct (impl (GetUserById (req_params_id req)) w) as [[e|user] w1].
    + destruct H as (-> & _ & ->). split; [eauto|]. by repeat constructor.
    + destruct H as (-> & _ & ->). split; [eauto|]. by repeat constructor.
  - destruct H as (Ho & _ & ->). split; [|constructor].
    destruct o as [status body|e]; [done|]. eauto.
Qed.

(** C4: at the failing input ([u1] reports the existing user [u3] with
    reason "spam") the handler passes its validation and the existence
    check and comes to [query(...)].  In the file as it stands [query] is
    not bound: a ReferenceError goes to [next] and no statement is sent.
    With [query] imported the statement is
    [INSERT INTO reported_users (user_id, reported_by, reason)], which the
    table [reported_users (id, reporter_id, reported_id, reason,
    created_at)] rejects: the error goes to [next].  Either way nothing
    is stored: for every request the handler ends in [next] with the
    world as it was; and as the file stands it never answers nor sends a
    statement, whatever the service layer is. *)
Theorem reportUser_never_stores :
  run perform (UserController.reportUser UserController.module_scope report_request) sample
  = (Next unbound_query, sample, [GetUserById "u3"])
  ∧ run perform (UserController.reportUser imported report_request) sample
    = (Next (undefined_column "reported_users" "user_id"), sample,
       [GetUserById "u3";
        Query UserController.insert_report [VText "u3"; VText "u1"; VText "spam"]])
  ∧ (∀ scope req w,
       ∃ e tr, run perform (UserController.reportUser scope req) w = (Next e, w, tr))
  ∧ (∀ impl req w,
       let '(o, _, tr) :=
         run impl (UserController.reportUser UserController.module_scope req) w in
       (∃ e, o = Next e) ∧ no_query tr).
Proof.
  assert (Hu : ¬ user_absent "u3" (w_db sample)) by (apply sample_has; vm_compute; lia).
  split_and!.
  - pose proof (guarded_perform UserController.module_scope _ report_request sample
                  reportUser_guarded eq_refl) as H.
    cbn [g_handler g_statement] in H.
    destruct (run perform _ sample) as [[o w'] tr]. destruct H as (-> & _ & H).
    specialize (H Hu). rewrite (bool_decide_eq_false_2 _ module_scope_unbound) in H.
    by destruct H as [-> ->].
  - pose proof (guarded_run perform imported _ report_request sample reportUser_guarded) as H.
    cbn [g_handler g_statement g_valid] in H.
    destruct (run perform _ sample) as [[o w'] tr].
    rewrite (bool_decide_eq_true_2 _ imported_bound) in H.
    replace (truthy (prop (req_body report_request) "reason")
             && negb (String.eqb (req_params_id report_request) (req_user_id report_request)))
      with true in H by reflexivity.
    cbn [perform] in H. pose proof (getUserById_spec "u3" sample) as Hg.
    change (req_params_id report_request) with "u3" in H.
    destruct (UserService.getUserById "u3" sample) as [[e|user] w1].
    { by destruct Hg as (_ & _ & Ha). }
    destruct Hg as [-> _]. destruct H as [-> H].
    unfold report_statement in H. cbn [perform] in H.
    rewrite query_insert_report in H. by destruct H as [-> ->].
  - intros scope req w. apply (guarded_never_stores scope _ req w reportUser_guarded).
  - intros impl req w. apply (guarded_shipped impl _ req w reportUser_guarded).
Qed.

(** The parts of [reportUser] that come before the INSERT: an empty
    reason or a self-report is an InvalidArgument error, and so is a
    self-report whatever the reason; an absent target is NotFound. *)
Lemma reportUser_validation scope req w :
  let '(o, w', tr) := run perform (UserController.reportUser scope req) w in
  (truthy (prop (req_body req) "reason") = false ∨ req_params_id req = req_user_id req →
   fails_with InvalidArgument o ∧ w' = w ∧ tr = [])
  ∧ (truthy (prop (req_body req) "reason") = true → req_params_id req ≠ req_user_id req →
     user_absent (req_params_id req) (w_db w) →
     fails_with NotFound o ∧ w' = w ∧ tr = [GetUserById (req_params_id req)]).
Proof.
  pose proof (guarded_run perform scope _ req w reportUser_guarded) as H.
  pose proof (guarded_perform scope _ req w reportUser_guarded) as Hp.
  cbn [g_handler g_valid g_statement] in H, Hp.
  destruct (run perform (UserController.reportUser scope req) w) as [[o w'] tr].
  destruct (truthy (prop (req_body req) "reason")); cbn [andb] in H, Hp.
  - destruct (String.eqb_spec (req_params_id req) (req_user_id req)) as [E|NE];
      cbn [negb] in H, Hp.
    + split; [done|]. by intros _ ?.
    + destruct (Hp eq_refl) as (-> & Ha & _). split; [by intros [[=]|?]|].
      intros _ _ Hu. destruct (Ha Hu) as [-> ->]. done.
  - split; [done|]. by intros [=].
Qed.

(** C5: at the failing input ([u1] blocks the existing user [u3]) the
    handler passes the self-check and the existence check and comes to
    [query(...)].  In the file as it stands [query] is not bound: a
    ReferenceError goes to [next] and no statement is sent.  With [query]
    imported the statement is [INSERT INTO blocked_users (user_id,
    blocked_user_id) ... ON CONFLICT DO NOTHING], which the table
    [blocked_users (id, blocker_id, blocked_id, created_at)] rejects: the
    error goes to [next].  Either way nothing is stored: for every request
    the handler ends in [next] with the world as it was; and as the file
    stands it never answers nor sends a statement, whatever the service
    layer is. *)
Theorem blockUser_never_stores :
  run perform (UserController.blockUser UserController.module_scope block_request) sample
  = (Next unbound_query, sample, [GetUserById "u3"])
  ∧ run perform (UserController.blockUser imported block_request) sample
    = (Next (undefined_column "blocked_users" "user_id"), sample,
       [GetUserById "u3"; Query UserController.insert_block [VText "u1"; VText "u3"]])
  ∧ (∀ scope req w,
       ∃ e tr, run perform (UserController.blockUser scope req) w = (Next e, w, tr))
  ∧ (∀ impl req w,
       let '(o, _, tr) :=
         run impl (UserController.blockUser UserController.module_scope req) w in
       (∃ e, o = Next e) ∧ no_query tr).
Proof.
  assert (Hu : ¬ user_absent "u3" (w_db sample)) by (apply sample_has; vm_compute; lia).
  split_and!.
  - pose proof (guarded_perform UserController.module_scope _ block_request sample
                  blockUser_guarded eq_refl) as H.
    cbn [g_handler g_statement] in H.
    destruct (run perform _ sample) as [[o w'] tr]. destruct H as (-> & _ & H).
    specialize (H Hu). rewrite (bool_decide_eq_false_2 _ module_scope_unbound) in H.
    by destruct H as [-> ->].
  - pose proof (guarded_run perform imported _ block_request sample blockUser_guarded) as H.
    cbn [g_handler g_statement g_valid] in H.
    destruct (run perform _ sample) as [[o w'] tr].
    rewrite (bool_decide_eq_true_2 _ imported_bound) in H.
    replace (negb (String.eqb (req_params_id block_request) (req_user_id block_request)))
      with true in H by reflexivity.
    cbn [perform] in H. pose proof (getUserById_spec "u3" sample) as Hg.
    change (req_params_id block_request) with "u3" in H.
    destruct (UserService.getUserById "u3" sample) as [[e|user] w1].
    { by destruct Hg as (_ & _ & Ha). }
    destruct Hg as [-> _]. destruct H as [-> H].
    unfold block_statement in H. cbn [perform] in H.
    rewrite query_insert_block in H. by destruct H as [-> ->].
  - intros scope req w. apply (guarded_never_stores scope _ req w blockUser_guarded).
  - intros impl req w. apply (guarded_shipped impl _ req w blockUser_guarded).
Qed.

Lemma blockUser_validation scope req w :
  let '(o, w', tr) := run perform (UserController.blockUser scope req) w in
  (req_params_id req = req_user_id req → fails_with InvalidArgument o ∧ w' = w ∧ tr = [])
  ∧ (req_params_id req ≠ req_user_id req → user_absent (req_params_id req) (w_db w) →
     fails_with NotFound o ∧ w' = w ∧ tr = [GetUserById (req_params_id req)]).
Proof.
  pose proof (guarded_run perform scope _ req w blockUser_guarded) as H.
  pose proof (guarded_perform scope _ req w blockUser_guarded) as Hp.
  cbn [g_handler g_valid g_statement] in H, Hp.
  destruct (run perform (UserController.blockUser scope req) w) as [[o w'] tr].
  destruct (String.eqb_spec (req_params_id req) (req_user_id req)) as [E|NE];
    cbn [negb] in H, Hp.
  - split; [done|]. by intros ?.
  - destruct (Hp eq_refl) as (-> & Ha & _). split; [done|].
    intros _ Hu. destruct (Ha Hu) as [-> ->]. done.
Qed.

(** C6: at the failing inputs ([u3] unblocks [u1], whom they have
    blocked; [u1] unblocks [u2], whom they have not) the handler comes to
    [query(...)] at once.  In the file as it stands [query] is not bound:
    whatever the service layer is, a ReferenceError goes to [next] with no
    call made.  With [query] imported the statement is
    [DELETE FROM blocked_users WHERE user_id = $1 AND blocked_user_id = $2],
    which the table [blocked_users (id, blocker_id, blocked_id,
    created_at)] rejects: the error goes to [next].  Either way the block
    row stays and no success message is sent, for every request. *)
Theorem unblockUser_never_succeeds :
  run perform (UserController.unblockUser UserController.module_scope unblock_request) sample
  = (Next unbound_query, sample, [])
  ∧ run perform (UserController.unblockUser UserController.module_scope
                                           unblock_unblocked_request) sample
    = (Next unbound_query, sample, [])
  ∧ run perform (UserController.unblockUser imported unblock_request) sample
    = (Next (undefined_column "blocked_users" "user_id"), sample,
       [Query UserController.delete_block [VText "u3"; VText "u1"]])
  ∧ run perform (UserController.unblockUser imported unblock_unblocked_request) sample
    = (Next (undefined_column "blocked_users" "user_id"), sample,
       [Query UserController.delete_block [VText "u1"; VText "u2"]])
  ∧ blocks sample_db "u3" "u1" = true
  ∧ (∀ scope req w,
       ∃ e tr, run perform (UserController.unblockUser scope req) w = (Next e, w, tr))
  ∧ (∀ impl req w,
       run impl (UserController.unblockUser UserController.module_scope req) w
       = (Next unbound_query, w, [])).
Proof.
  split_and!.
  - rewrite unblockUser_perform.
    by rewrite (bool_decide_eq_false_2 _ module_scope_unbound).
  - rewrite unblockUser_perform.
    by rewrite (bool_decide_eq_false_2 _ module_scope_unbound).
  - rewrite unblockUser_perform. by rewrite (bool_decide_eq_true_2 _ imported_bound).
  - rewrite unblockUser_perform. by rewrite (bool_decide_eq_true_2 _ imported_bound).
  - reflexivity.
  - intros scope req w. rewrite unblockUser_perform.
    destruct (bool_decide ("query" ∈ scope)); eauto.
  - intros impl req w. rewrite unblockUser_run.
    by rewrite (bool_decide_eq_false_2 _ module_scope_unbound).
Qed.

End Defects.

(* ===================================================================== *)
(** ** Existence checks                                                   *)
(* ===================================================================== *)

Section ExistenceCheck.

Implicit Types (w : world) (req : request) (scope : list string) (impl : interp).









End ExistenceCheck.


(* ===================================================================== *)
(** ** DELETE on any table                                                *)
(* ===================================================================== *)

Section DeleteAny.

Implicit Types (db : database) (r : row) (T : table) (del : graveyard)
  (st : database * graveyard) (s : list table).

Lemma filter_none {A} (f : A → bool) (l : list A) :
  (∀ x, x ∈ l → f x = false) → List.filter f l = [].
Proof.
  induction l as [|x l IH]; intros H; [done|]. cbn.
  rewrite (H x) by set_solver. apply IH. intros y Hy. apply H. set_solver.
Qed.

Lemma filter_all {A} (f : A → bool) (l : list A) :
  (∀ x, x ∈ l → f x = true) → List.filter f l = l.
Proof.
  induction l as [|x l IH]; intros H; [done|]. cbn.
  rewrite (H x) by set_solver. f_equal. apply IH. intros y Hy. apply H. set_solver.
Qed.

Lemma dangling_quiet del r fk : buried del (fk_table fk) = [] → dangling del r fk = false.
Proof.
  intros E. unfold dangling. rewrite E. apply andb_false_iff. right.
  apply bool_decide_eq_false. apply not_elem_of_nil.
Qed.

Lemma doomed_quiet del T r :
  (∀ fk, fk ∈ tbl_foreign_keys T → buried del (fk_table fk) = []) → doomed del T r = false.
Proof.
  intros H. unfold doomed. apply not_true_iff_false. intros (fk & Hfk & Hd)%existsb_exists.
  apply list_elem_of_In in Hfk. rewrite (dangling_quiet _ _ _ (H fk Hfk)) in Hd.
  by rewrite andb_false_r in Hd.
Qed.

Lemma set_null_quiet del T r :
  (∀ fk, fk ∈ tbl_foreign_keys T → buried del (fk_table fk) = []) → set_null del T r = r.
Proof.
  unfold set_null. induction (tbl_foreign_keys T) as [|fk l IH]; intros H; [done|]. cbn.
  rewrite (dangling_quiet del r fk) by (apply H; set_solver). rewrite andb_false_r.
  apply IH. intros fk' Hfk'. apply H. set_solver.
Qed.

Lemma survivors_quiet del T l :
  (∀ fk, fk ∈ tbl_foreign_keys T → buried del (fk_table fk) = []) → survivors del T l = l.
Proof.
  intros H. unfold survivors. rewrite filter_all.
  - induction l as [|r l IH]; [done|]. cbn. by rewrite set_null_quiet, IH.
  - intros r _. by rewrite doomed_quiet.
Qed.

(** While nothing has been deleted, the pass changes no row. *)
Lemma sweep_quiet s seen st :
  ordered seen s = true →
  (∀ P, P ∈ seen → buried st.2 P = []) →
  (∀ T, T ∈ s → buried st.2 (tbl_name T) = []) →
  (∀ P, P ∈ seen ∨ P ∈ map tbl_name s → buried (sweep s st).2 P = [])
  ∧ (∀ T, T ∈ s → rows (sweep s st).1 (tbl_name T) = rows st.1 (tbl_name T)).
Proof.
  revert seen st. induction s as [|T0 s IH]; intros seen st Ho Hseen Hs.
  { split; [|by intros T HT%elem_of_nil]. intros P [HP|HP]; [by apply Hseen|].
    by apply elem_of_nil in HP. }
  pose proof Ho as Ho'. cbn [ordered] in Ho'.
  apply andb_prop in Ho' as [Ho' Hord]. apply andb_prop in Ho' as [Hn Hfks].
  apply negb_true_iff, bool_decide_eq_false in Hn.
  assert (Hq : ∀ fk, fk ∈ tbl_foreign_keys T0 → buried st.2 (fk_table fk) = []).
  { intros fk Hfk. apply Hseen. rewrite forallb_forall in Hfks.
    apply list_elem_of_In, Hfks in Hfk. by apply bool_decide_eq_true in Hfk. }
  assert (Hst1 : sweep_table st T0
                 = (<[tbl_name T0 := rows st.1 (tbl_name T0)]> st.1,
                    <[tbl_name T0 := []]> st.2)).
  { unfold sweep_table. rewrite survivors_quiet by done.
    rewrite (filter_none (doomed _ _)) by (intros r _; by apply doomed_quiet).
    rewrite (Hs T0) by set_solver. done. }
  assert (Hfresh : tbl_name T0 ∉ map tbl_name s).
  { eapply ordered_fresh; [done|]. set_solver. }
  rewrite sweep_cons, Hst1.
  destruct (IH (tbl_name T0 :: seen)
               (<[tbl_name T0 := rows st.1 (tbl_name T0)]> st.1, <[tbl_name T0 := []]> st.2)
               Hord) as [IH1 IH2].
  - intros P HP. unfold buried. cbn [snd].
    destruct (decide (tbl_name T0 = P)) as [->|Hne]; [by rewrite lookup_insert_eq|].
    rewrite lookup_insert_ne by done. apply Hseen. set_solver.
  - intros T HT. unfold buried. cbn [snd].
    rewrite lookup_insert_ne.
    + apply (Hs T). set_solver.
    + intros E. apply Hfresh. rewrite E. by apply list_elem_of_fmap_2.
  - split.
    + intros P HP. apply IH1. cbn [map] in HP. set_solver.
    + intros T [->|HT]%elem_of_cons.
      * unfold rows at 1. rewrite sweep_db_other by done. cbn [fst].
        by rewrite lookup_insert_eq.
      * rewrite IH2 by done. cbn [fst]. apply rows_insert_ne.
        intros E. apply Hfresh. rewrite E. by apply list_elem_of_fmap_2.
Qed.

Lemma ordered_app_l seen s1 s2 : ordered seen (s1 ++ s2) = true → ordered seen s1 = true.
Proof.
  revert seen. induction s1 as [|T s1 IH]; intros seen H; [done|].
  cbn [app ordered] in *. apply andb_prop in H as [H1 H2]. rewrite H1. by apply IH.
Qed.

Lemma created_before_split s t T :
  find_table s t = Some T → s = created_before t s ++ T :: drop (S (length (created_before t s))) s.
Proof.
  unfold find_table. induction s as [|T0 s IH]; [done|]. cbn.
  destruct (String.eqb (tbl_name T0) t); [by intros [= ->]|].
  intros H. cbn. f_equal. by apply IH.
Qed.

Lemma created_before_names s t T : T ∈ created_before t s → tbl_name T ≠ t.
Proof.
  induction s as [|T0 s IH]; cbn; [by intros ?%elem_of_nil|].
  destruct (String.eqb (tbl_name T0) t) eqn:E; [by intros ?%elem_of_nil|].
  apply String.eqb_neq in E. intros [->|H]%elem_of_cons; [done|by apply IH].
Qed.

(** A row that matches after its foreign keys were set to NULL matched
    before. *)
Lemma matches_set_null w del T r :
  matches w (set_null del T r) = true → matches w r = true.
Proof.
  unfold matches. rewrite !forallb_forall. intros H cv Hcv. specialize (H cv Hcv).
  apply andb_prop in H as [Hn He]. rewrite Hn. cbn.
  apply bool_decide_eq_true in He. apply bool_decide_eq_true.
  destruct (set_null_col del T r cv.1) as [E|E]; [congruence|].
  rewrite E in He. rewrite <- He in Hn. done.
Qed.

Lemma set_null_nulled del T r : nulled r (set_null del T r).
Proof. intros c. apply set_null_col. Qed.

Lemma schema_NoDup : NoDup (map tbl_name schema).
Proof. apply (ordered_NoDup []). reflexivity. Qed.

(** The rows a DELETE leaves in a table of the schema. *)
Lemma delete_rows t cols vals db db' n T :
  exec_delete t cols vals db = inr (db', n) → T ∈ schema →
  ∃ del, rows db' (tbl_name T)
         = survivors del T
             (if decide (tbl_name T = t)
              then List.filter (fun r => negb (matches (zip cols vals) r)) (rows db t)
              else rows db (tbl_name T)).
Proof.
  intros [-> _]%exec_delete_inr HT.
  destruct (list_elem_of_split _ _ HT) as (s1 & s2 & Hs).
  pose proof schema_NoDup as Hnd. rewrite Hs in *.
  rewrite sweep_rows by done. eexists. f_equal. cbn [fst].
  destruct (decide (tbl_name T = t)) as [->|Hne]; [by rewrite rows_insert|].
  by rewrite rows_insert_ne.
Qed.

Lemma exec_delete_ok t cols vals db db' n :
  exec_delete t cols vals db = inr (db', n) →
  ∃ T, find_table schema t = Some T ∧ first_missing T cols = None
       ∧ (length cols =? length vals)%nat = true.
Proof.
  unfold exec_delete. destruct (find_table schema t) as [T|]; [|done].
  destruct (first_missing T cols) eqn:Hc; [done|].
  destruct (length cols =? length vals)%nat; [|done]. intros _. by exists T.
Qed.

Lemma exec_delete_run t T cols vals db :
  find_table schema t = Some T → first_missing T cols = None →
  (length cols =? length vals)%nat = true →
  let w := zip cols vals in
  exec_delete t cols vals db
  = inr ((sweep schema
            (<[t := List.filter (fun r => negb (matches w r)) (rows db t)]> db,
             {[ t := ids (List.filter (matches w) (rows db t)) ]})).1,
         length (List.filter (matches w) (rows db t))).
Proof. intros HT Hc Hl. unfold exec_delete. by rewrite HT, Hc, Hl. Qed.

Lemma delete_no_match t cols vals db db' n r :
  exec_delete t cols vals db = inr (db', n) →
  r ∈ rows db' t → matches (zip cols vals) r = false.
Proof.
  intros H Hr.
  destruct (exec_delete_ok _ _ _ _ _ _ H) as (Tt & HT & _ & _).
  destruct (find_table_name _ _ _ HT) as [Hname Hin].
  destruct (delete_rows _ _ _ _ _ _ Tt H Hin) as [del Hrows].
  rewrite Hname, decide_True in Hrows by done. rewrite Hrows in Hr.
  apply survivors_elem in Hr as (r0 & Hr0 & _ & ->).
  apply list_elem_of_In, filter_In in Hr0 as [_ Hm]. apply negb_true_iff in Hm.
  apply not_true_iff_false. intros Hm'%matches_set_null. congruence.
Qed.

Lemma delete_remains t cols vals db db' n T r' :
  exec_delete t cols vals db = inr (db', n) → T ∈ schema → r' ∈ rows db' (tbl_name T) →
  ∃ r, r ∈ rows db (tbl_name T) ∧ nulled r r'.
Proof.
  intros H HT' Hr'. destruct (delete_rows _ _ _ _ _ _ T H HT') as [del Hrows].
  rewrite Hrows in Hr'. apply survivors_elem in Hr' as (r & Hr & _ & ->).
  exists r. split; [|apply set_null_nulled].
  destruct (decide (tbl_name T = t)) as [->|]; [|done].
  apply list_elem_of_In, filter_In in Hr as [Hr _]. by apply list_elem_of_In.
Qed.

(** X1: what a DELETE on any table does.  The count is that of the rows
    the WHERE clause matches; afterwards no row of the table matches it,
    and no row of any table references a matched row through a foreign key;
    the tables created before the one deleted from are left as they were
    (a delete never reaches what the deleted rows depend on); and every row
    that remains was there before, at most with foreign keys set to NULL. *)
Theorem delete_effect (t : string) (cols : list string) (vals : list sqlval)
    (db db' : database) (n : nat) :
  exec_delete t cols vals db = inr (db', n) →
  let w := zip cols vals in
  n = length (List.filter (matches w) (rows db t))
  ∧ (∀ r, r ∈ rows db' t → matches w r = false)
  ∧ (∀ T fk r v, T ∈ schema → fk ∈ tbl_foreign_keys T → fk_table fk = t →
       r ∈ rows db' (tbl_name T) → v ∈ rows db t → matches w v = true →
       col r (fk_column fk) = VNull ∨ col r (fk_column fk) ≠ col v "id")
  ∧ (∀ T, T ∈ created_before t schema → rows db' (tbl_name T) = rows db (tbl_name T))
  ∧ (∀ T r', T ∈ schema → r' ∈ rows db' (tbl_name T) →
       ∃ r, r ∈ rows db (tbl_name T) ∧ nulled r r').
Proof.
  intros H w. subst w.
  destruct (exec_delete_ok _ _ _ _ _ _ H) as (Tt & HT & _ & _).
  destruct (find_table_name _ _ _ HT) as [Hname Hin].
  split_and!.
  - by apply exec_delete_inr in H as [_ ->].
  - intros r Hr. by eapply delete_no_match.
  - intros T [c p a] r v HT' Hfk Hp Hr Hv Hm. cbn [fk_table fk_column] in *. subst p.
    apply exec_delete_inr in H as [-> _].
    pose proof (sweep_no_dangling schema [] _ T r _ schema_ordered HT' Hr Hfk) as Hd.
    destruct (decide (col r c = VNull)) as [|Hnn]; [by left|]. right. intros E.
    apply not_true_iff_false in Hd. apply Hd, dangling_spec. split; [done|].
    apply buried_mono. unfold buried. cbn [snd]. rewrite lookup_singleton_eq. cbn [default].
    rewrite E. unfold ids. apply list_elem_of_fmap. exists v. split; [done|].
    apply list_elem_of_In, filter_In. by rewrite <- list_elem_of_In.
  - intros T HTb.
    pose proof (created_before_split _ _ _ HT) as Hs.
    set (s1 := created_before t schema) in *.
    set (s2 := drop (S (length s1)) schema) in *.
    apply exec_delete_inr in H as [-> _].
    pose proof schema_ordered as Ho. pose proof schema_NoDup as Hnd.
    rewrite Hs in Ho, Hnd. rewrite Hs at 1.
    rewrite sweep_app. unfold rows at 1. rewrite sweep_db_other.
    + fold (rows (sweep s1 (<[t:=List.filter (fun r => negb (matches (zip cols vals) r))
                                            (rows db t)]> db,
                           {[t := ids (List.filter (matches (zip cols vals)) (rows db t))]})).1
                 (tbl_name T)).
      destruct (sweep_quiet s1 [] (<[t:=List.filter (fun r => negb (matches (zip cols vals) r))
                                                  (rows db t)]> db,
                                   {[t := ids (List.filter (matches (zip cols vals))
                                                           (rows db t))]}))
        as [_ Hq].
      * by apply ordered_app_l in Ho.
      * by intros P HP%elem_of_nil.
      * intros T' HT'. unfold buried. cbn [snd]. rewrite lookup_singleton_ne; [done|].
        intros E. by apply (created_before_names schema t T').
      * rewrite Hq by done. cbn [fst]. apply rows_insert_ne.
        intros E. by apply (created_before_names schema t T).
    + rewrite map_app in Hnd. apply NoDup_app in Hnd as (_ & Hdis & _).
      apply Hdis. by apply list_elem_of_fmap_2.
  - intros T r' HT' Hr'. by eapply delete_remains.
Qed.

Lemma delete_effect_witness :
  (∀ r, r ∈ rows sample_without_g1 "groups" → matches [("id", VText "g1")] r = false)
  ∧ (∀ T, T ∈ [users; otps; sessions] →
       rows sample_without_g1 (tbl_name T) = rows sample_db (tbl_name T)).
Proof.
  assert (H : exec_delete "groups" ["id"] [VText "g1"] sample_db
              = inr (sample_without_g1, 1%nat)).
  { unfold sample_without_g1, exec_delete.
    replace (find_table schema "groups") with (Some groups) by reflexivity.
    replace (first_missing groups ["id"]) with (@None string) by reflexivity.
    cbn [length Nat.eqb negb]. unfold db_of. f_equal. }
  destruct (delete_effect "groups" ["id"] [VText "g1"] sample_db sample_without_g1 1 H)
    as (_ & Hgone & _ & Hbefore & _).
  split; [exact Hgone|exact Hbefore].
Defined.

(** X2: a DELETE repeated right after itself deletes nothing: its count is
    0 and every table is as the first one left it. *)
Theorem delete_twice (t : string) (cols : list string) (vals : list sqlval)
    (db db' : database) (n : nat) :
  exec_delete t cols vals db = inr (db', n) →
  ∃ db'', exec_delete t cols vals db' = inr (db'', 0%nat)
          ∧ ∀ t', rows db'' t' = rows db' t'.
Proof.
  intros H.
  destruct (exec_delete_ok _ _ _ _ _ _ H) as (Tt & HT & Hc & Hl).
  destruct (find_table_name _ _ _ HT) as [Hname Hin].
  assert (Hgone : ∀ r, r ∈ rows db' t → matches (zip cols vals) r = false)
    by (intros r Hr; by eapply delete_no_match).
  rewrite (exec_delete_run t Tt cols vals db' HT Hc Hl). cbv zeta.
  rewrite (filter_none (matches (zip cols vals))) by done.
  rewrite (filter_all (fun r => negb (matches (zip cols vals) r)))
    by (intros r Hr; by rewrite Hgone).
  eexists. split; [reflexivity|]. intros t'.
  destruct (sweep_quiet schema [] (<[t:=rows db' t]> db', {[t := ids []]}) schema_ordered)
    as [_ Hq].
  - by intros P HP%elem_of_nil.
  - intros T _. unfold buried. cbn [snd].
    destruct (decide (t = tbl_name T)) as [<-|Hne]; [by rewrite lookup_singleton_eq|].
    by rewrite lookup_singleton_ne.
  - assert (Hsame : ∀ x, rows (<[t:=rows db' t]> db') x = rows db' x).
    { intros x. destruct (decide (t = x)) as [<-|Hne]; [by rewrite rows_insert|].
      by rewrite rows_insert_ne. }
    destruct (decide (t' ∈ map tbl_name schema)) as [Hin'|Hout].
    + apply list_elem_of_fmap in Hin' as (T & -> & HT').
      rewrite Hq by done. cbn [fst]. apply Hsame.
    + unfold rows at 1. rewrite sweep_db_other by done. cbn [fst]. apply Hsame.
Qed.

Lemma delete_twice_witness :
  ∃ db'', exec_delete "groups" ["id"] [VText "g1"] sample_without_g1 = inr (db'', 0%nat)
          ∧ ∀ t', rows db'' t' = rows sample_without_g1 t'.
Proof.
  apply (delete_twice "groups" ["id"] [VText "g1"] sample_db sample_without_g1 1).
  unfold sample_without_g1, exec_delete.
  replace (find_table schema "groups") with (Some groups) by reflexivity.
  replace (first_missing groups ["id"]) with (@None string) by reflexivity.
  cbn [length Nat.eqb negb]. unfold db_of. f_equal.
Defined.

End DeleteAny.

(* ===================================================================== *)
(** ** Referential integrity                                              *)
(* ===================================================================== *)

Section Integrity.

Implicit Types (db : database) (r : row) (T : table) (del : graveyard).

Lemma ref_ok_spec db : ref_ok db = true → ref_integrity db.
Proof.
  unfold ref_ok, ref_integrity. rewrite forallb_forall. intros H T fk r HT Hfk Hr Hnn.
  apply list_elem_of_In, H in HT. rewrite forallb_forall in HT.
  apply list_elem_of_In, HT in Hfk. rewrite forallb_forall in Hfk.
  apply list_elem_of_In, Hfk in Hr. apply orb_prop in Hr as [Hr|Hr].
  - by destruct (col r (fk_column fk)).
  - by apply bool_decide_eq_true in Hr.
Qed.

Lemma schema_name_inj T T' :
  T ∈ schema → T' ∈ schema → tbl_name T = tbl_name T' → T = T'.
Proof.
  intros H H' E. pose proof schema_NoDup as Hnd. revert Hnd H H' E.
  generalize schema. intros s. induction s as [|T0 s IH]; intros Hnd H H' E.
  { by apply elem_of_nil in H. }
  cbn [map] in Hnd. apply NoDup_cons in Hnd as [Hn Hnd].
  apply elem_of_cons in H as [->|H]; apply elem_of_cons in H' as [->|H']; [done| | |by apply IH].
  - exfalso. apply Hn. rewrite E. by apply list_elem_of_fmap_2.
  - exfalso. apply Hn. rewrite <- E. by apply list_elem_of_fmap_2.
Qed.

(** Every foreign key of the schema references a table of the schema, and
    no foreign key column is the [id] column. *)
Lemma schema_targets T fk :
  T ∈ schema → fk ∈ tbl_foreign_keys T →
  (∃ P, P ∈ schema ∧ tbl_name P = fk_table fk) ∧ fk_column fk ≠ "id".
Proof.
  intros HT Hfk.
  assert (forallb (fun T => forallb (fun fk =>
            bool_decide (fk_table fk ∈ map tbl_name schema)
            && negb (String.eqb (fk_column fk) "id")) (tbl_foreign_keys T)) schema = true)
    as H by reflexivity.
  rewrite forallb_forall in H. apply list_elem_of_In, H in HT.
  rewrite forallb_forall in HT. apply list_elem_of_In, HT in Hfk.
  apply andb_prop in Hfk as [H1 H2]. apply bool_decide_eq_true in H1.
  apply negb_true_iff, String.eqb_neq in H2. split; [|done].
  apply list_elem_of_fmap in H1 as (P & -> & HP). eauto.
Qed.

Lemma set_null_keep del T r c :
  (∀ fk, fk ∈ tbl_foreign_keys T → fk_column fk ≠ c) → col (set_null del T r) c = col r c.
Proof.
  unfold set_null. induction (tbl_foreign_keys T) as [|fk l IH]; intros H; [done|]. cbn.
  destruct (_ && _).
  - rewrite col_insert, decide_False by (apply H; set_solver). apply IH.
    intros fk' Hfk'. apply H. set_solver.
  - apply IH. intros fk' Hfk'. apply H. set_solver.
Qed.

(** A row the pass meets either stays, with its [id], or its [id] is among
    the deleted ones. *)
Lemma sweep_fate s st P p :
  NoDup (map tbl_name s) → P ∈ s → p ∈ rows st.1 (tbl_name P) →
  (∀ fk, fk ∈ tbl_foreign_keys P → fk_column fk ≠ "id") →
  (∃ q, q ∈ rows (sweep s st).1 (tbl_name P) ∧ col q "id" = col p "id")
  ∨ col p "id" ∈ buried (sweep s st).2 (tbl_name P).
Proof.
  intros Hnd HP Hp Hid.
  destruct (list_elem_of_split _ _ HP) as (s1 & s2 & ->).
  rewrite sweep_rows, sweep_buried by done.
  destruct (doomed (sweep s1 st).2 P p) eqn:Hd.
  - right. apply elem_of_app. right. unfold ids. apply list_elem_of_fmap.
    exists p. split; [done|]. apply list_elem_of_In, filter_In.
    by rewrite <- list_elem_of_In.
  - left. exists (set_null (sweep s1 st).2 P p). split; [|by apply set_null_keep].
    apply survivors_elem. eauto.
Qed.

Lemma delete_fate t cols vals db db' n P p :
  exec_delete t cols vals db = inr (db', n) → P ∈ schema → p ∈ rows db (tbl_name P) →
  (∃ q, q ∈ rows db' (tbl_name P) ∧ col q "id" = col p "id")
  ∨ ∀ T fk r, T ∈ schema → fk ∈ tbl_foreign_keys T → fk_table fk = tbl_name P →
              r ∈ rows db' (tbl_name T) → col r (fk_column fk) ≠ VNull →
              col r (fk_column fk) ≠ col p "id".
Proof.
  intros [-> _]%exec_delete_inr HP Hp.
  set (st0 := (<[t:=List.filter (fun r => negb (matches (zip cols vals) r)) (rows db t)]> db,
               {[t := ids (List.filter (matches (zip cols vals)) (rows db t))]})
              : database * graveyard).
  assert (Hcases : (∃ q, q ∈ rows (sweep schema st0).1 (tbl_name P) ∧ col q "id" = col p "id")
                   ∨ col p "id" ∈ buried (sweep schema st0).2 (tbl_name P)).
  { destruct (decide (tbl_name P = t ∧ matches (zip cols vals) p = true)) as [[E Hm]|Hno].
    - right. apply buried_mono. unfold buried, st0. cbn [snd]. rewrite E.
      rewrite lookup_singleton_eq. cbn [default]. unfold ids. apply list_elem_of_fmap.
      exists p. split; [done|]. apply list_elem_of_In, filter_In.
      rewrite <- list_elem_of_In. by rewrite <- E.
    - apply sweep_fate; [apply schema_NoDup|done| |].
      + unfold st0. cbn [fst]. destruct (decide (tbl_name P = t)) as [E|NE].
        * rewrite E in *. rewrite rows_insert. apply list_elem_of_In, filter_In.
          rewrite <- list_elem_of_In. split; [done|]. apply negb_true_iff.
          apply not_true_iff_false. intros Hm. by apply Hno.
        * by rewrite rows_insert_ne.
      + intros fk Hfk. by destruct (schema_targets P fk). }
  destruct Hcases as [Hq|Hb]; [by left|]. right.
  intros T [c x a] r HT Hfk Hx Hr Hnn E. cbn [fk_table fk_column] in *. subst x.
  pose proof (sweep_no_dangling schema [] st0 T r _ schema_ordered HT Hr Hfk) as Hd.
  apply not_true_iff_false in Hd. apply Hd, dangling_spec. split; [done|]. by rewrite E.
Qed.

(** X3: the foreign keys stay whole.  If every foreign key that is not
    NULL references an existing row, this is still so after any INSERT that
    succeeds and after any DELETE that succeeds: an INSERT is refused unless
    the rows it references are there, and a DELETE takes the referencing
    rows with it or sets their reference to NULL. *)
Theorem integrity_kept (db : database) :
  ref_integrity db →
  (∀ g t cols vals dn db' n,
     exec_insert g t cols vals dn db = inr (db', n) → ref_integrity db')
  ∧ (∀ t cols vals db' n,
       exec_delete t cols vals db = inr (db', n) → ref_integrity db').
Proof.
  intros Hdb. split.
  - intros g t cols vals dn db' n
      (T' & HT' & _ & _ & [(_ & _ & -> & _)|(_ & Hfkv & -> & _)])%exec_insert_inr; [done|].
    destruct (find_table_name _ _ _ HT') as [Hname' Hin'].
    set (new := make_row g T' (list_to_map (zip cols vals))) in *.
    assert (Hsup : ∀ x v, v ∈ ids (rows db x) → v ∈ ids (rows (<[t:=rows db t ++ [new]]> db) x)).
    { intros x v Hv. destruct (decide (t = x)) as [<-|Hne]; [|by rewrite rows_insert_ne].
      rewrite rows_insert. unfold ids in *. rewrite fmap_app. apply elem_of_app. by left. }
    intros T fk r HT Hfk Hr Hnn. apply Hsup.
    destruct (decide (tbl_name T = t)) as [E|NE].
    + rewrite E, rows_insert in Hr. apply elem_of_app in Hr as [Hr|Hr].
      * apply (Hdb T); [done|done| |done]. by rewrite E.
      * apply list_elem_of_singleton in Hr as ->.
        assert (T = T') as -> by (apply schema_name_inj; [done|done|congruence]).
        unfold fk_violation in Hfkv. destruct (List.find _ _) eqn:Hfind; [done|].
        pose proof (find_none _ _ Hfind fk (proj1 (list_elem_of_In _ _) Hfk)) as Hnone.
        cbn beta in Hnone.
        apply andb_false_iff in Hnone as [Hnone|Hnone].
        { apply negb_false_iff in Hnone. by destruct (col new (fk_column fk)). }
        apply negb_false_iff, existsb_exists in Hnone as (p & Hp & He).
        apply bool_decide_eq_true in He. rewrite <- He. unfold ids.
        apply list_elem_of_fmap. exists p. by rewrite <- list_elem_of_In in Hp.
    + rewrite rows_insert_ne in Hr by congruence. by apply (Hdb T).
  - intros t cols vals db' n H T fk r' HT Hfk Hr' Hnn.
    destruct (delete_remains _ _ _ _ _ _ T r' H HT Hr') as (r & Hr & Hnull).
    assert (col r (fk_column fk) = col r' (fk_column fk)) as Hsame.
    { by destruct (Hnull (fk_column fk)) as [E|E]. }
    assert (col r (fk_column fk) ∈ ids (rows db (fk_table fk))) as Hp.
    { apply (Hdb T); [done|done|done|by rewrite Hsame]. }
    unfold ids in Hp. apply list_elem_of_fmap in Hp as (p & Hid & Hp).
    destruct (schema_targets T fk HT Hfk) as [(P & HP & HPname) _].
    rewrite <- HPname in Hp.
    destruct (delete_fate _ _ _ _ _ _ P p H HP Hp) as [(q & Hq & Hqid)|Hgone].
    + unfold ids. apply list_elem_of_fmap. exists q. rewrite <- HPname.
      split; [congruence|done].
    + exfalso. apply (Hgone T fk r'); [done|done|done|done|done|congruence].
Qed.

Lemma integrity_kept_witness :
  ref_integrity sample_without_g1
  ∧ ref_integrity (db_of (exec_insert (Entropy "b2" 0) "blocked_users"
                            ["blocker_id"; "blocked_id"] [VText "u1"; VText "u2"]
                            false sample_db)).
Proof.
  destruct (integrity_kept sample_db) as [Hins Hdel].
  { apply ref_ok_spec. vm_compute. reflexivity. }
  split.
  - apply (Hdel "groups" ["id"] [VText "g1"] sample_without_g1 1%nat).
    unfold sample_without_g1, exec_delete.
    replace (find_table schema "groups") with (Some groups) by reflexivity.
    replace (first_missing groups ["id"]) with (@None string) by reflexivity.
    cbn [length Nat.eqb negb]. unfold db_of. f_equal.
  - eapply (Hins (Entropy "b2" 0) "blocked_users" ["blocker_id"; "blocked_id"]
                 [VText "u1"; VText "u2"] false).
    apply inr_db_of. vm_compute. reflexivity.
Defined.

End Integrity.

(* ===================================================================== *)
(** ** UNIQUE constraints                                                 *)
(* ===================================================================== *)

Section Unique.

Implicit Types (db : database) (r x : row) (l : list row) (cs : list string).

Lemma nonnull_key cs r :
  forallb (fun c => negb (is_null (col r c))) cs
  = forallb (fun v => negb (is_null v)) (key r cs).
Proof. unfold key. induction cs as [|c cs IH]; [done|]. cbn. by rewrite IH. Qed.

Lemma same_key_key cs r r' x :
  key r cs = key r' cs → same_key cs r x = same_key cs r' x.
Proof. intros E. unfold same_key. by rewrite !nonnull_key, E. Qed.

Lemma same_key_eq cs r x : same_key cs r x = true → key r cs = key x cs.
Proof. unfold same_key. intros [_ H]%andb_prop. by apply bool_decide_eq_true in H. Qed.

Lemma same_key_sym cs r x : same_key cs r x = true → same_key cs x r = true.
Proof.
  intros H. pose proof (same_key_eq _ _ _ H) as E.
  unfold same_key in *. apply andb_prop in H as [Hn _].
  rewrite nonnull_key in *. rewrite <- E, Hn. cbn. by apply bool_decide_eq_true.
Qed.

Lemma same_key_refl cs r x : same_key cs r x = true → same_key cs r r = true.
Proof.
  unfold same_key. intros [Hn _]%andb_prop. rewrite Hn. cbn. by apply bool_decide_eq_true.
Qed.

Lemma existsb_false {A} (f : A → bool) (l : list A) :
  existsb f l = false ↔ ∀ y, y ∈ l → f y = false.
Proof.
  split.
  - intros H y Hy. apply not_true_iff_false. intros Hf.
    assert (existsb f l = true); [|congruence].
    apply existsb_exists. exists y. by rewrite <- list_elem_of_In.
  - intros H. apply not_true_iff_false. intros (y & Hy & Hf)%existsb_exists.
    apply list_elem_of_In in Hy. rewrite (H y Hy) in Hf. done.
Qed.

Lemma filter_length_zero {A} (f : A → bool) (l : list A) :
  (∀ y, y ∈ l → f y = false) → length (List.filter f l) = 0%nat.
Proof. intros H. by rewrite filter_none. Qed.

Lemma filter_positive {A} (f : A → bool) (l : list A) y :
  y ∈ l → f y = true → (0 < length (List.filter f l))%nat.
Proof.
  intros Hy Hf. destruct (List.filter f l) eqn:E; [|cbn; lia].
  assert (In y []) as []. rewrite <- E. apply filter_In. by rewrite <- list_elem_of_In.
Qed.

(** The constraint holds exactly when no row collides with more than one
    row, itself included. *)
Lemma distinct_keys_collisions cs l :
  distinct_keys cs l = true ↔ ∀ x, x ∈ l → (collisions cs l x ≤ 1)%nat.
Proof.
  unfold collisions. induction l as [|r l IH]; cbn [distinct_keys].
  { split; [by intros _ x ?%elem_of_nil|done]. }
  rewrite andb_true_iff, negb_true_iff, existsb_false, IH. split.
  - intros [Hr Hl] x Hx. cbn [List.filter].
    apply elem_of_cons in Hx as [->|Hx].
    + destruct (same_key cs r r); cbn [length];
        rewrite (filter_length_zero _ l) by done; lia.
    + destruct (same_key cs x r) eqn:E.
      * apply same_key_sym in E. by rewrite (Hr x Hx) in E.
      * by apply Hl.
  - intros H. split.
    + intros y Hy. apply not_true_iff_false. intros E.
      specialize (H r (list_elem_of_here _ _)). cbn [List.filter] in H.
      rewrite (same_key_refl _ _ _ E) in H. cbn [length] in H.
      pose proof (filter_positive (same_key cs r) l y Hy E). lia.
    + intros x Hx. specialize (H x (list_elem_of_further _ _ _ Hx)).
      cbn [List.filter] in H. destruct (same_key cs x r); cbn [length] in H; lia.
Qed.

Lemma distinct_keys_snoc cs l x :
  distinct_keys cs l = true → existsb (same_key cs x) l = false →
  distinct_keys cs (l ++ [x]) = true.
Proof.
  intros Hl Hx. induction l as [|r l IH]; [done|].
  cbn [distinct_keys app existsb] in *.
  apply andb_prop in Hl as [Hr Hl]. apply orb_false_iff in Hx as [Hxr Hx].
  rewrite IH by done. rewrite andb_true_r. apply negb_true_iff.
  rewrite existsb_app. apply negb_true_iff in Hr. rewrite Hr. cbn.
  rewrite orb_false_r. apply not_true_iff_false. intros E%same_key_sym. congruence.
Qed.

Lemma distinct_keys_filter cs (p : row → bool) l :
  distinct_keys cs l = true → distinct_keys cs (List.filter p l) = true.
Proof.
  induction l as [|r l IH]; [done|]. cbn [distinct_keys List.filter].
  intros [Hr Hl]%andb_prop. destruct (p r); [|by apply IH].
  cbn [distinct_keys]. rewrite IH by done. rewrite andb_true_r.
  apply negb_true_iff. apply negb_true_iff in Hr. rewrite existsb_false in *.
  intros y Hy. apply Hr. apply list_elem_of_In, filter_In in Hy as [Hy _].
  by apply list_elem_of_In.
Qed.

Lemma same_key_nulled cs r r' x x' :
  nulled r r' → nulled x x' → same_key cs r' x' = true → same_key cs r x = true.
Proof.
  intros Hr Hx H. pose proof (same_key_eq _ _ _ H) as E.
  unfold same_key in *. apply andb_prop in H as [Hn _].
  rewrite forallb_forall in Hn.
  assert (Hcols : ∀ c, c ∈ cs → col r c = col r' c ∧ col x c = col r' c).
  { intros c Hc. pose proof (Hn c (proj1 (list_elem_of_In _ _) Hc)) as Hnn.
    assert (col x' c = col r' c) as Ex.
    { unfold key in E. apply list_elem_of_lookup in Hc as [i Hi].
      apply (f_equal (fun k => k !! i)) in E. rewrite !list_lookup_fmap, Hi in E.
      cbn in E. congruence. }
    destruct (Hr c) as [Er|Er]; [|by rewrite Er in Hnn].
    destruct (Hx c) as [Ex'|Ex']; [|rewrite Ex' in Ex; by rewrite <- Ex in Hnn].
    split; congruence. }
  apply andb_true_intro. split.
  - apply forallb_forall. intros c Hc%list_elem_of_In.
    destruct (Hcols c Hc) as [-> _]. by apply Hn, list_elem_of_In.
  - apply bool_decide_eq_true. unfold key. apply list_fmap_ext.
    intros i c Hc. apply list_elem_of_lookup_2 in Hc.
    destruct (Hcols c Hc). congruence.
Qed.

Lemma distinct_keys_nulled cs (g : row → row) l :
  (∀ r, nulled r (g r)) → distinct_keys cs l = true → distinct_keys cs (map g l) = true.
Proof.
  intros Hg. induction l as [|r l IH]; [done|]. cbn [distinct_keys map].
  intros [Hr Hl]%andb_prop. rewrite IH by done. rewrite andb_true_r.
  apply negb_true_iff. apply negb_true_iff in Hr. rewrite existsb_false in *.
  intros y (y0 & -> & Hy0)%list_elem_of_fmap. apply not_true_iff_false. intros E.
  apply (same_key_nulled cs r _ y0) in E; [|done|done]. by rewrite (Hr y0 Hy0) in E.
Qed.

Lemma filter_map_le {A} (g : A → bool) (F : A → A) (l : list A) :
  (∀ y, y ∈ l → g (F y) = true → g y = true) →
  (length (List.filter g (map F l)) ≤ length (List.filter g l))%nat.
Proof.
  induction l as [|y l IH]; intros H; [done|]. cbn.
  assert (IH' := IH (fun z Hz => H z (list_elem_of_further _ _ _ Hz))).
  destruct (g (F y)) eqn:E.
  - rewrite (H y (list_elem_of_here _ _) E). cbn. lia.
  - destruct (g y); cbn; lia.
Qed.

Lemma filter_ext_length {A} (f g : A → bool) (l : list A) :
  (∀ y, f y = g y) → length (List.filter f l) = length (List.filter g l).
Proof. intros H. induction l as [|y l IH]; [done|]. cbn. rewrite H. destruct (g y); cbn; lia. Qed.

(** An UPDATE whose updated rows collide with nothing keeps the
    constraint. *)
Lemma distinct_keys_update cs (m : row → bool) (a : row → row) l :
  let all := map (fun r => if m r then a r else r) l in
  let updated := map a (List.filter m l) in
  distinct_keys cs l = true →
  existsb (collides cs all) updated = false →
  distinct_keys cs all = true.
Proof.
  intros all updated Hl Hu. apply distinct_keys_collisions.
  rewrite distinct_keys_collisions in Hl. rewrite existsb_false in Hu.
  assert (Hupd : ∀ r, r ∈ l → m r = true → a r ∈ updated).
  { intros r Hr Hm. apply list_elem_of_fmap. exists r. split; [done|].
    apply list_elem_of_In, filter_In. by rewrite <- list_elem_of_In. }
  assert (Hone : ∀ u, u ∈ updated → (collisions cs all u ≤ 1)%nat).
  { intros u Hin. specialize (Hu u Hin). unfold collides in Hu.
    apply Nat.ltb_ge in Hu. exact Hu. }
  intros x (r & -> & Hr)%list_elem_of_fmap.
  destruct (m r) eqn:Hm; [by apply Hone, Hupd|].
  destruct (existsb (same_key cs r) updated) eqn:Hex.
  - apply existsb_exists in Hex as (u & Hin & Hk). apply list_elem_of_In in Hin.
    unfold collisions.
    rewrite (filter_ext_length _ (same_key cs u)).
    + by apply Hone.
    + intros y. apply same_key_key. by apply same_key_eq.
  - rewrite existsb_false in Hex. unfold collisions, all.
    etrans; [apply filter_map_le|by apply Hl].
    intros y Hy. destruct (m y) eqn:Hmy; [|done].
    intros E. by rewrite (Hex (a y) (Hupd y Hy Hmy)) in E.
Qed.

Lemma unique_ok_insert g t cols vals dn db db' n :
  exec_insert g t cols vals dn db = inr (db', n) → unique_ok db → unique_ok db'.
Proof.
  intros (T' & HT' & _ & _ & [(_ & _ & -> & _)|(Hcf & _ & -> & _)])%exec_insert_inr Hok;
    [done|].
  destruct (find_table_name _ _ _ HT') as [Hname' Hin'].
  intros T cs HT Hcs. destruct (decide (tbl_name T = t)) as [E|NE].
  - rewrite E, rows_insert.
    assert (T = T') as -> by (apply schema_name_inj; [done|done|congruence]).
    apply distinct_keys_snoc; [rewrite <- E; by apply Hok|].
    unfold conflict in Hcf. apply not_true_iff_false. intros Hex.
    pose proof (find_none _ _ Hcf cs (proj1 (list_elem_of_In _ _) Hcs)) as Hnone.
    cbn beta in Hnone. congruence.
  - rewrite rows_insert_ne by congruence. by apply Hok.
Qed.

Lemma exec_update_unique t sets w db db' l :
  exec_update t sets w db = inr (db', l) →
  ∃ T, find_table schema t = Some T
       ∧ ∀ cs, cs ∈ tbl_unique T →
           existsb (collides cs (map (fun r => if matches w r then assign sets r else r)
                                     (rows db t)))
                   (map (assign sets) (List.filter (matches w) (rows db t))) = false.
Proof.
  unfold exec_update. intros H.
  destruct (find_table schema t) as [T|]; [|done].
  exists T. split; [done|].
  destruct (first_missing T _); [done|].
  destruct (list_find _ _) as [[? ?]|]; [done|].
  destruct (forallb (checks_hold T) _); [|done]. cbn [negb] in H.
  destruct (List.find _ (tbl_unique T)) eqn:Hf; [done|].
  intros cs Hcs.
  pose proof (find_none _ _ Hf cs (proj1 (list_elem_of_In _ _) Hcs)) as Hnone.
  exact Hnone.
Qed.

Lemma unique_ok_update t sets w db db' l :
  exec_update t sets w db = inr (db', l) → unique_ok db → unique_ok db'.
Proof.
  intros H Hok. destruct (exec_update_unique _ _ _ _ _ _ H) as (T' & HT' & Hu).
  apply exec_update_inr in H as (_ & _ & -> & _ & _).
  destruct (find_table_name _ _ _ HT') as [Hname' Hin'].
  intros T cs HT Hcs. destruct (decide (tbl_name T = t)) as [E|NE].
  - rewrite E, rows_insert.
    assert (T = T') as -> by (apply schema_name_inj; [done|done|congruence]).
    apply distinct_keys_update; [rewrite <- E; by apply Hok|by apply Hu].
  - rewrite rows_insert_ne by congruence. by apply Hok.
Qed.

Lemma unique_ok_delete t cols vals db db' n :
  exec_delete t cols vals db = inr (db', n) → unique_ok db → unique_ok db'.
Proof.
  intros H Hok T cs HT Hcs.
  destruct (delete_rows _ _ _ _ _ _ T H HT) as [del ->].
  unfold survivors. apply distinct_keys_nulled; [intros r; apply set_null_nulled|].
  apply distinct_keys_filter.
  destruct (decide (tbl_name T = t)) as [E|NE]; [|by apply Hok].
  apply distinct_keys_filter. rewrite <- E. by apply Hok.
Qed.

Lemma unique_ok_reachable db : reachable db → unique_ok db.
Proof.
  induction 1 as [g|db db' _ IH Hstep].
  - intros T cs HT Hcs. unfold initial.
    destruct (exec_insert _ _ _ _ _ _) as [e|[db n]] eqn:E.
    + unfold rows. by rewrite lookup_empty.
    + apply exec_insert_inr in E as (T' & _ & _ & _ & [(_ & _ & -> & _)|(_ & _ & -> & _)]).
      * unfold rows. by rewrite lookup_empty.
      * destruct (decide ("app_settings" = tbl_name T)) as [<-|NE].
        -- rewrite rows_insert. unfold rows. by rewrite lookup_empty.
        -- rewrite rows_insert_ne by done. unfold rows. by rewrite lookup_empty.
  - destruct Hstep.
    + by eapply unique_ok_insert.
    + by eapply unique_ok_update.
    + by eapply unique_ok_delete.
Qed.

Lemma one_message_reachable : reachable one_message.
Proof.
  apply (reachable_step one_user);
    [apply (reachable_step (initial (Entropy "s1" 0))); [apply reachable_initial|]|].
  - apply (step_insert (Entropy "u1" 0) "users" ["phone_number"] [VText "+100"] false
                       (initial (Entropy "s1" 0))
                       _ (count_of (exec_insert (Entropy "u1" 0) "users" ["phone_number"]
                                                [VText "+100"] false
                                                (initial (Entropy "s1" 0))))).
    apply inr_db_of. vm_compute. reflexivity.
  - apply (step_insert (Entropy "m1" 0) "messages" ["from_id"; "to_id"; "type"]
                       [VText "u1"; VText "u1"; VInt 0] false one_user
                       _ (count_of (exec_insert (Entropy "m1" 0) "messages"
                                      ["from_id"; "to_id"; "type"]
                                      [VText "u1"; VText "u1"; VInt 0] false one_user))).
    apply inr_db_of. vm_compute. reflexivity.
Defined.

(** X4: in every database the statements can produce, every UNIQUE
    constraint of the schema holds: ids are unique per table, phone numbers
    are unique among users, a user has at most one membership per group, a
    pair of users at most one block, a push token one owner, and a user at
    most one row per message.  A second INSERT with a key that is taken is
    refused, or skipped under ON CONFLICT DO NOTHING, leaving the database
    as it was. *)
Theorem unique_kept (db : database) :
  reachable db →
  unique_ok db
  ∧ memberships_unique db
  ∧ (∀ g t T cols vals dn cs,
       find_table schema t = Some T → cs ∈ tbl_unique T →
       existsb (same_key cs (make_row g T (list_to_map (zip cols vals)))) (rows db t) = true →
       match exec_insert g t cols vals dn db with
       | inr (db', n) => dn = true ∧ db' = db ∧ n = 0%nat
       | inl _ => True
       end).
Proof.
  intros Hdb. pose proof (unique_ok_reachable db Hdb) as Hok. split_and!.
  - exact Hok.
  - apply (Hok group_members); [|set_solver].
    unfold schema. set_solver.
  - intros g t T cols vals dn cs HT Hcs Hex.
    destruct (exec_insert g t cols vals dn db) as [e|[db' n]] eqn:E; [done|].
    apply exec_insert_inr in E as (T' & HT' & _ & _ & [(-> & _ & -> & ->)|(Hcf & _)]); [done|].
    exfalso. rewrite HT in HT'. injection HT' as <-.
    unfold conflict in Hcf.
    pose proof (find_none _ _ Hcf cs (proj1 (list_elem_of_In _ _) Hcs)) as Hnone.
    cbn beta in Hnone. congruence.
Qed.

Lemma two_members_reachable : reachable two_members.
Proof.
  apply (reachable_step one_member);
    [apply (reachable_step one_group);
       [apply (reachable_step two_users);
          [apply (reachable_step one_user);
             [apply (reachable_step (initial (Entropy "s1" 0))); [apply reachable_initial|]|]
          |]
       |]
    |].
  - apply (step_insert (Entropy "u1" 0) "users" ["phone_number"] [VText "+100"] false
                       (initial (Entropy "s1" 0))
                       _ (count_of (exec_insert (Entropy "u1" 0) "users" ["phone_number"]
                                                [VText "+100"] false
                                                (initial (Entropy "s1" 0))))).
    apply inr_db_of. vm_compute. reflexivity.
  - apply (step_insert (Entropy "u2" 0) "users" ["phone_number"] [VText "+200"] false
                       one_user
                       _ (count_of (exec_insert (Entropy "u2" 0) "users" ["phone_number"]
                                                [VText "+200"] false one_user))).
    apply inr_db_of. vm_compute. reflexivity.
  - apply (step_insert (Entropy "g1" 0) "groups" ["name"; "created_by"]
                       [VText "club"; VText "u1"] false two_users
                       _ (count_of (exec_insert (Entropy "g1" 0) "groups"
                                      ["name"; "created_by"] [VText "club"; VText "u1"]
                                      false two_users))).
    apply inr_db_of. vm_compute. reflexivity.
  - apply (step_insert (Entropy "m1" 0) "group_members" ["group_id"; "user_id"]
                       [VText "g1"; VText "u1"] true one_group
                       _ (count_of (exec_insert (Entropy "m1" 0) "group_members"
                                      ["group_id"; "user_id"] [VText "g1"; VText "u1"]
                                      true one_group))).
    apply inr_db_of. vm_compute. reflexivity.
  - apply (step_insert (Entropy "m2" 0) "group_members" ["group_id"; "user_id"]
                       [VText "g1"; VText "u2"] true one_member
                       _ (count_of (exec_insert (Entropy "m2" 0) "group_members"
                                      ["group_id"; "user_id"] [VText "g1"; VText "u2"]
                                      true one_member))).
    apply inr_db_of. vm_compute. reflexivity.
Defined.

Lemma unique_kept_witness :
  unique_ok two_members ∧ memberships_unique two_members
  ∧ length (rows two_members "users") = 2%nat
  ∧ length (rows two_members "group_members") = 2%nat
  ∧ succeeded (exec_insert (Entropy "u3" 0) "users" ["phone_number"] [VText "+100"] false
                           two_members) = false
  ∧ match exec_insert (Entropy "m3" 0) "group_members" ["group_id"; "user_id"]
                      [VText "g1"; VText "u2"] true two_members with
    | inr (db', n) => db' = two_members ∧ n = 0%nat
    | inl _ => False
    end.
Proof.
  destruct (unique_kept two_members two_members_reachable) as (H1 & H2 & H3).
  split_and!; [exact H1|exact H2|by vm_compute|by vm_compute| |].
  - assert (Hcs : ["phone_number"] ∈ tbl_unique users) by (apply list_elem_of_In; cbn; tauto).
    assert (Hk : existsb (same_key ["phone_number"]
                            (make_row (Entropy "u3" 0) users
                                      (list_to_map (zip ["phone_number"] [VText "+100"]))))
                         (rows two_members "users") = true) by (by vm_compute).
    pose proof (H3 (Entropy "u3" 0) "users" users ["phone_number"] [VText "+100"] false
                   ["phone_number"] eq_refl Hcs Hk) as H.
    destruct (exec_insert (Entropy "u3" 0) "users" ["phone_number"] [VText "+100"] false
                          two_members) as [e|[db' n]]; [reflexivity|].
    by destruct H as [[=] _].
  - assert (Hcs : ["group_id"; "user_id"] ∈ tbl_unique group_members)
      by (apply list_elem_of_In; cbn; tauto).
    assert (Hk : existsb (same_key ["group_id"; "user_id"]
                            (make_row (Entropy "m3" 0) group_members
                                      (list_to_map (zip ["group_id"; "user_id"]
                                                        [VText "g1"; VText "u2"]))))
                         (rows two_members "group_members") = true) by (by vm_compute).
    pose proof (H3 (Entropy "m3" 0) "group_members" group_members ["group_id"; "user_id"]
                   [VText "g1"; VText "u2"] true ["group_id"; "user_id"] eq_refl Hcs Hk) as H.
    assert (Hs : succeeded (exec_insert (Entropy "m3" 0) "group_members"
                              ["group_id"; "user_id"] [VText "g1"; VText "u2"] true
                              two_members) = true) by (by vm_compute).
    destruct (exec_insert (Entropy "m3" 0) "group_members" ["group_id"; "user_id"]
                          [VText "g1"; VText "u2"] true two_members) as [e|[db' n]];
      [discriminate Hs|].
    destruct H as (_ & Hdb & Hn). split; [exact Hdb|exact Hn].
Defined.

End Unique.

(* ===================================================================== *)
(** ** NOT NULL columns and defaults                                      *)
(* ===================================================================== *)

Section NotNull.

Implicit Types (db : database) (r : row) (T : table) (del : graveyard).

Lemma null_violation_none T r :
  null_violation T r = None →
  ∀ C, C ∈ tbl_columns T → col_not_null C = true → col r (col_name C) ≠ VNull.
Proof.
  unfold null_violation. intros H C HC Hnn E.
  destruct (List.find _ _) eqn:Hf; [done|].
  pose proof (find_none _ _ Hf C (proj1 (list_elem_of_In _ _) HC)) as Hnone.
  cbn beta in Hnone. by rewrite Hnn, E in Hnone.
Qed.

(** SET NULL touches only the columns of the SET NULL foreign keys. *)
Lemma set_null_other del T r c :
  (∀ fk, fk ∈ tbl_foreign_keys T → fk_action fk = SET_NULL → fk_column fk ≠ c) →
  col (set_null del T r) c = col r c.
Proof.
  unfold set_null. induction (tbl_foreign_keys T) as [|fk l IH]; intros H; [done|]. cbn.
  assert (IH' := IH (fun fk' Hfk' => H fk' (list_elem_of_further _ _ _ Hfk'))).
  destruct (bool_decide (fk_action fk = SET_NULL)) eqn:Ha; [|done].
  apply bool_decide_eq_true in Ha. destruct (dangling del r fk); [|done]. cbn.
  rewrite col_insert, decide_False; [done|]. apply H; [set_solver|done].
Qed.

(** The SET NULL foreign keys of the schema are on nullable columns. *)
Lemma schema_set_null_nullable T fk C :
  T ∈ schema → fk ∈ tbl_foreign_keys T → fk_action fk = SET_NULL →
  C ∈ tbl_columns T → col_not_null C = true → fk_column fk ≠ col_name C.
Proof.
  intros HT Hfk Ha HC Hnn.
  assert (forallb (fun T => forallb (fun fk => forallb (fun C =>
            negb (bool_decide (fk_action fk = SET_NULL) && col_not_null C
                  && String.eqb (fk_column fk) (col_name C)))
            (tbl_columns T)) (tbl_foreign_keys T)) schema = true) as H by reflexivity.
  rewrite forallb_forall in H. apply list_elem_of_In, H in HT.
  rewrite forallb_forall in HT. apply list_elem_of_In, HT in Hfk.
  rewrite forallb_forall in Hfk. apply list_elem_of_In, Hfk in HC.
  rewrite Hnn, bool_decide_eq_true_2 in HC by done. cbn in HC.
  by apply negb_true_iff, String.eqb_neq in HC.
Qed.

Lemma exec_update_not_null t sets w db db' l :
  exec_update t sets w db = inr (db', l) →
  ∃ T, find_table schema t = Some T
       ∧ ∀ r, r ∈ l → null_violation T r = None.
Proof.
  unfold exec_update. intros H.
  destruct (find_table schema t) as [T|]; [|done].
  exists T. split; [done|].
  destruct (first_missing T _); [done|].
  destruct (list_find _ _) as [[? ?]|] eqn:Hnull; [done|].
  destruct (forallb (checks_hold T) _); [|done]. cbn [negb] in H.
  destruct (List.find _ (tbl_unique T)); [done|].
  destruct (list_find (fun r => is_Some (fk_violation db T r)) _) as [[? ?]|]; [done|].
  apply inr_pair_inv in H as [_ ->].
  intros r Hr. apply list_find_None in Hnull. rewrite Forall_forall in Hnull.
  specialize (Hnull r Hr). by destruct (null_violation T r); [exfalso; eauto|].
Qed.

Lemma not_null_ok_reachable db : reachable db → not_null_ok db.
Proof.
  induction 1 as [g|db db' _ IH Hstep].
  - intros T C r HT HC Hnn Hr. unfold initial in Hr.
    destruct (exec_insert _ _ _ _ _ _) as [e|[db n]] eqn:E.
    { unfold rows in Hr. rewrite lookup_empty in Hr. by apply elem_of_nil in Hr. }
    apply exec_insert_inr in E as (T' & HT' & Hnv & _ & [(_ & _ & -> & _)|(_ & _ & -> & _)]).
    { unfold rows in Hr. rewrite lookup_empty in Hr. by apply elem_of_nil in Hr. }
    destruct (find_table_name _ _ _ HT') as [Hname' Hin'].
    destruct (decide ("app_settings" = tbl_name T)) as [E|NE].
    + rewrite <- E, rows_insert in Hr. unfold rows in Hr. rewrite lookup_empty in Hr.
      apply list_elem_of_singleton in Hr as ->.
      assert (T = T') as -> by (apply schema_name_inj; [done|done|congruence]).
      by apply (null_violation_none _ _ Hnv).
    + rewrite rows_insert_ne in Hr by done.
      unfold rows in Hr. rewrite lookup_empty in Hr. by apply elem_of_nil in Hr.
  - destruct Hstep as [g t cols vals dn db db' n H|t sets w db db' l H|t cols vals db db' n H].
    + apply exec_insert_inr in H
        as (T' & HT' & Hnv & _ & [(_ & _ & -> & _)|(_ & _ & -> & _)]); [done|].
      destruct (find_table_name _ _ _ HT') as [Hname' Hin'].
      intros T C r HT HC Hnn Hr. destruct (decide (tbl_name T = t)) as [E|NE].
      * rewrite E, rows_insert in Hr. apply elem_of_app in Hr as [Hr|Hr].
        -- apply (IH T); [done|done|done|by rewrite E].
        -- apply list_elem_of_singleton in Hr as ->.
           assert (T = T') as -> by (apply schema_name_inj; [done|done|congruence]).
           by apply (null_violation_none _ _ Hnv).
      * rewrite rows_insert_ne in Hr by congruence. by apply (IH T).
    + destruct (exec_update_not_null _ _ _ _ _ _ H) as (T' & HT' & Hnv).
      apply exec_update_inr in H as (_ & _ & -> & -> & _).
      destruct (find_table_name _ _ _ HT') as [Hname' Hin'].
      intros T C r HT HC Hnn Hr. destruct (decide (tbl_name T = t)) as [E|NE].
      * rewrite E, rows_insert in Hr. apply list_elem_of_fmap in Hr as (r0 & -> & Hr0).
        assert (T = T') as -> by (apply schema_name_inj; [done|done|congruence]).
        destruct (matches w r0) eqn:Hm.
        -- apply (null_violation_none T' (assign sets r0)); [|done|done].
           apply Hnv. apply list_elem_of_fmap. exists r0. split; [done|].
           apply list_elem_of_In, filter_In. by rewrite <- list_elem_of_In.
        -- apply (IH T'); [done|done|done|by rewrite E].
      * rewrite rows_insert_ne in Hr by congruence. by apply (IH T).
    + intros T C r' HT HC Hnn Hr'.
      destruct (delete_rows _ _ _ _ _ _ T H HT) as [del Hrows].
      rewrite Hrows in Hr'. apply survivors_elem in Hr' as (r & Hr & _ & ->).
      rewrite set_null_other.
      * apply (IH T); [done|done|done|].
        destruct (decide (tbl_name T = t)) as [->|]; [|done].
        apply list_elem_of_In, filter_In in Hr as [Hr _]. by apply list_elem_of_In.
      * intros fk Hfk Ha. by apply (schema_set_null_nullable T).
Qed.

(** X5: in every database the statements can produce, no NOT NULL column
    holds NULL: every user has a phone number, every session, membership,
    block and token its user, every message a sender and a type, every
    group a name and a creator.  The one ON DELETE SET NULL of the schema
    is on a nullable column, so a delete cannot break this either. *)
Theorem not_null_kept (db : database) :
  reachable db →
  ∀ T C r, T ∈ schema → C ∈ tbl_columns T → col_not_null C = true →
    r ∈ rows db (tbl_name T) → col r (col_name C) ≠ VNull.
Proof. apply not_null_ok_reachable. Qed.

Lemma not_null_kept_witness :
  reachable one_message
  ∧ length (rows one_message "messages") = 1%nat
  ∧ Forall (λ r, col r "from_id" ≠ VNull ∧ col r "type" ≠ VNull)
           (rows one_message "messages").
Proof.
  split; [exact one_message_reachable|]. split; [by vm_compute|].
  apply Forall_forall. intros r Hr. split.
  - apply (not_null_kept one_message one_message_reachable messages
             (Column "from_id" UUID true NoDefault) r); [| |reflexivity|exact Hr].
    + apply list_elem_of_In. cbn. tauto.
    + apply list_elem_of_In. cbn. tauto.
  - apply (not_null_kept one_message one_message_reachable messages
             (Column "type" INTEGER true NoDefault) r); [| |reflexivity|exact Hr].
    + apply list_elem_of_In. cbn. tauto.
    + apply list_elem_of_In. cbn. tauto.
Defined.

Lemma given_none (cols : list string) (vals : list sqlval) c :
  c ∉ cols → (list_to_map (zip cols vals) : gmap string sqlval) !! c = None.
Proof.
  intros Hc. apply not_elem_of_list_to_map_1. intros Hin. apply Hc.
  apply list_elem_of_fmap in Hin as ([c' v] & -> & Hin). by apply elem_of_zip_l in Hin.
Qed.

Lemma users_row_defaults g (given : gmap string sqlval) :
  let r := make_row g users given in
  col r "id" = default (VText (fresh_uuid g)) (given !! "id")
  ∧ col r "phone_number" = default VNull (given !! "phone_number")
  ∧ col r "verified" = default (VBool false) (given !! "verified")
  ∧ col r "disabled" = default (VBool false) (given !! "disabled")
  ∧ col r "role" = default (VText "user") (given !! "role").
Proof.
  cbv zeta. split_and!.
  - change (col (make_row g users given) "id")
      with (match given !! "id" with Some v => v | None => VText (fresh_uuid g) end).
    by destruct (given !! "id").
  - change (col (make_row g users given) "phone_number")
      with (match given !! "phone_number" with Some v => v | None => VNull end).
    by destruct (given !! "phone_number").
  - change (col (make_row g users given) "verified")
      with (match given !! "verified" with Some v => v | None => VBool false end).
    by destruct (given !! "verified").
  - change (col (make_row g users given) "disabled")
      with (match given !! "disabled" with Some v => v | None => VBool false end).
    by destruct (given !! "disabled").
  - change (col (make_row g users given) "role")
      with (match given !! "role" with Some v => v | None => VText "user" end).
    by destruct (given !! "role").
Qed.

(** X6: what an INSERT into [users] stores.  When it succeeds it either
    skipped (count 0, nothing changed) or appended one row; in that row a
    column the statement does not name has its default: [verified] and
    [disabled] FALSE, [role] 'user', [id] a generated UUID; and the
    statement must have named [phone_number], with a value that is not
    NULL. *)
Theorem new_user_defaults (g : entropy) (cols : list string) (vals : list sqlval)
    (dn : bool) (db db' : database) (n : nat) :
  exec_insert g "users" cols vals dn db = inr (db', n) →
  (n = 0%nat ∧ db' = db)
  ∨ (n = 1%nat ∧ ∃ r,
       rows db' "users" = rows db "users" ++ [r]
       ∧ ("id" ∉ cols → col r "id" = VText (fresh_uuid g))
       ∧ ("verified" ∉ cols → col r "verified" = VBool false)
       ∧ ("disabled" ∉ cols → col r "disabled" = VBool false)
       ∧ ("role" ∉ cols → col r "role" = VText "user")
       ∧ "phone_number" ∈ cols ∧ col r "phone_number" ≠ VNull).
Proof.
  intros (T & HT & Hnv & _ & [(_ & _ & -> & ->)|(_ & _ & -> & ->)])%exec_insert_inr;
    [by left|right].
  replace (find_table schema "users") with (Some users) in HT by reflexivity.
  injection HT as <-. split; [done|].
  set (given := list_to_map (zip cols vals) : gmap string sqlval) in *.
  destruct (users_row_defaults g given) as (Hid & Hph & Hv & Hd & Hr).
  exists (make_row g users given). rewrite rows_insert. split; [done|].
  assert (Hphone : col (make_row g users given) "phone_number" ≠ VNull).
  { apply (null_violation_none users _ Hnv (Column "phone_number" (VARCHAR 15) true NoDefault));
      [set_solver|done]. }
  assert (Hnone : ∀ c, c ∉ cols → given !! c = None) by (intros c; apply given_none).
  split_and!.
  - intros Hc. by rewrite Hid, Hnone.
  - intros Hc. by rewrite Hv, Hnone.
  - intros Hc. by rewrite Hd, Hnone.
  - intros Hc. by rewrite Hr, Hnone.
  - destruct (decide ("phone_number" ∈ cols)) as [|Hno]; [done|].
    exfalso. apply Hphone. by rewrite Hph, Hnone.
  - exact Hphone.
Qed.

Lemma new_user_defaults_witness :
  ∃ r, rows one_user "users" = rows (initial (Entropy "s1" 0)) "users" ++ [r]
       ∧ col r "verified" = VBool false ∧ col r "role" = VText "user"
       ∧ col r "id" = VText "u1".
Proof.
  destruct (new_user_defaults (Entropy "u1" 0) ["phone_number"] [VText "+100"] false
              (initial (Entropy "s1" 0)) one_user
              (count_of (exec_insert (Entropy "u1" 0) "users" ["phone_number"]
                                     [VText "+100"] false (initial (Entropy "s1" 0)))))
    as [[H0 _]|(_ & r & Hrows & Hid & Hv & _ & Hr & _)].
  - apply inr_db_of. vm_compute. reflexivity.
  - vm_compute in H0. discriminate H0.
  - exists r. split; [exact Hrows|]. split_and!.
    + apply Hv. intros E%list_elem_of_singleton. discriminate E.
    + apply Hr. intros E%list_elem_of_singleton. discriminate E.
    + apply Hid. intros E%list_elem_of_singleton. discriminate E.
Defined.

End NotNull.

(* ===================================================================== *)
(** ** Numbers from strings                                               *)
(* ===================================================================== *)

Section Numbers.

Implicit Types (n : Z) (x d : N) (s r : string) (v : jsval).

Lemma round_double_safe n : (Z.abs n < 2 ^ 53)%Z → round_double n = JNum n.
Proof. intros H. unfold round_double. by rewrite (proj2 (Z.ltb_lt _ _) H). Qed.

Lemma round_double_numeric n : numeric (round_double n).
Proof. unfold round_double. by repeat case_match. Qed.

Lemma parseInt_string_cases s :
  parseInt_string s = JNaN ∨ ∃ n, parseInt_string s = round_double n.
Proof. unfold parseInt_string. repeat case_match; eauto. Qed.

Lemma parseInt_string_numeric s : numeric (parseInt_string s).
Proof.
  destruct (parseInt_string_cases s) as [->|[n ->]]; [done|apply round_double_numeric].
Qed.

Lemma parseInt_numeric v : numeric (parseInt v).
Proof.
  destruct v; try done; cbn [parseInt]; [by case_match|apply parseInt_string_numeric].
Qed.

Lemma parseInt_or_numeric v p : numeric (UserController.parseInt_or v p).
Proof.
  destruct p as [q|]; [apply parseInt_string_numeric|apply parseInt_numeric].
Qed.

(** The decimal digits of a number parse back to it. *)
Lemma digit_of_char d : (d < 10)%N → digit_of (pretty_N_char d) = Some (Z.of_N d).
Proof.
  intros H.
  assert (d = 0 ∨ d = 1 ∨ d = 2 ∨ d = 3 ∨ d = 4 ∨ d = 5 ∨ d = 6 ∨ d = 7 ∨ d = 8 ∨ d = 9)%N
    as Hd by lia.
  repeat (destruct Hd as [->|Hd]; [reflexivity|]). by subst.
Qed.

Lemma digits_char d s (acc : option Z) :
  (d < 10)%N →
  digits 10 (String (pretty_N_char d) s) acc
  = digits 10 s (Some (10 * default 0 acc + Z.of_N d)%Z).
Proof.
  intros H. cbn [digits]. rewrite digit_of_char by done.
  by rewrite (proj2 (Z.ltb_lt (Z.of_N d) 10) ltac:(lia)).
Qed.

Lemma digits_pretty_go x :
  (0 < x)%N → ∀ s, digits 10 (pretty_N_go x s) None = digits 10 s (Some (Z.of_N x)).
Proof.
  induction (N.lt_wf_0 x) as [x _ IH]. intros Hx s.
  rewrite pretty_N_go_step by done.
  assert (Hm : (x `mod` 10 < 10)%N) by (apply N.mod_lt; lia).
  pose proof (N.div_mod x 10 ltac:(lia)) as Hdm.
  destruct (decide (x `div` 10 = 0)%N) as [E|NE].
  - rewrite E in Hdm |- *. rewrite pretty_N_go_0, digits_char by done.
    cbn [default]. do 2 f_equal. lia.
  - rewrite IH; [|apply N.div_lt; lia|lia]. rewrite digits_char by done.
    cbn [default]. unfold id. do 2 f_equal. lia.
Qed.

(** A numeral starts with a digit, and what follows its first digit is
    the rest given or starts with a digit. *)
Lemma pretty_go_shape x :
  (0 < x)%N → ∀ s, ∃ d r,
    (d < 10)%N ∧ pretty_N_go x s = String (pretty_N_char d) r
    ∧ (r = s ∨ ∃ d' r', (d' < 10)%N ∧ r = String (pretty_N_char d') r').
Proof.
  induction (N.lt_wf_0 x) as [x _ IH]. intros Hx s.
  rewrite pretty_N_go_step by done.
  assert (Hm : (x `mod` 10 < 10)%N) by (apply N.mod_lt; lia).
  destruct (decide (x `div` 10 = 0)%N) as [E|NE].
  - rewrite E, pretty_N_go_0. exists (x `mod` 10)%N, s. by split_and!; [|  |left].
  - assert (Hlt : (x `div` 10 < x)%N) by (apply N.div_lt; lia).
    assert (Hpos : (0 < x `div` 10)%N) by (by apply N.neq_0_lt_0).
    destruct (IH (x `div` 10)%N Hlt Hpos (String (pretty_N_char (x `mod` 10)) s))
      as (d & r & Hd & -> & Hr).
    exists d, r. split_and!; [done|done|]. right.
    destruct Hr as [->|Hr]; [|done]. by exists (x `mod` 10)%N, s.
Qed.

Lemma skip_spaces_digit d r :
  (d < 10)%N → skip_spaces (String (pretty_N_char d) r) = String (pretty_N_char d) r.
Proof.
  intros H.
  assert (d = 0 ∨ d = 1 ∨ d = 2 ∨ d = 3 ∨ d = 4 ∨ d = 5 ∨ d = 6 ∨ d = 7 ∨ d = 8 ∨ d = 9)%N
    as Hd by lia.
  repeat (destruct Hd as [->|Hd]; [by destruct r as [|b [|c r']]|]).
  subst. by destruct r as [|b [|c r']].
Qed.

Lemma parseInt_numeral d r :
  (d < 10)%N →
  (r = "" ∨ ∃ d' r', (d' < 10)%N ∧ r = String (pretty_N_char d') r') →
  parseInt_string (String (pretty_N_char d) r)
  = match digits 10 (String (pretty_N_char d) r) None with
    | Some n => round_double n
    | None => JNaN
    end.
Proof.
  intros H Hr. unfold parseInt_string. rewrite skip_spaces_digit by done.
  assert (d = 0 ∨ d = 1 ∨ d = 2 ∨ d = 3 ∨ d = 4 ∨ d = 5 ∨ d = 6 ∨ d = 7 ∨ d = 8 ∨ d = 9)%N
    as Hd by lia.
  destruct Hd as [->|Hd].
  - destruct Hr as [->|(d' & r' & Hd' & ->)]; [reflexivity|].
    assert (d' = 0 ∨ d' = 1 ∨ d' = 2 ∨ d' = 3 ∨ d' = 4 ∨ d' = 5 ∨ d' = 6 ∨ d' = 7
            ∨ d' = 8 ∨ d' = 9)%N as Hd'' by lia.
    repeat (destruct Hd'' as [->|Hd'']; [reflexivity|]). by subst.
  - repeat (destruct Hd as [->|Hd]; [reflexivity|]). by subst.
Qed.

(** [parseInt] of the decimal numeral of a number is the double nearest
    to it: the number itself below 2^53. *)
Lemma parseInt_pretty x : parseInt_string (pretty x) = round_double (Z.of_N x).
Proof.
  unfold pretty, pretty_N. case_decide as Hx; [by subst|].
  assert (H0 : (0 < x)%N) by lia.
  destruct (pretty_go_shape x H0 "") as (d & r & Hd & E & Hr).
  rewrite E, parseInt_numeral, <- E by done. by rewrite digits_pretty_go.
Qed.

Lemma parseInt_pretty_safe x :
  (x < 2 ^ 53)%N → parseInt_string (pretty x) = JNum (Z.of_N x).
Proof.
  intros H. rewrite parseInt_pretty. apply round_double_safe.
  rewrite Z.abs_eq by lia. change (2 ^ 53)%Z with (Z.of_N (2 ^ 53)). lia.
Qed.

End Numbers.

(* ===================================================================== *)
(** ** The handlers, whatever the service layer                           *)
(* ===================================================================== *)

Section Handlers.

Implicit Types (w : world) (req : request) (impl : interp) (scope : list string).








(** X8: [page] and [limit] reach the service as Numbers, never as the
    strings the query holds, and nothing is validated.  A parameter
    written as the decimal numeral of [n] reaches the service as the
    double nearest to [n], which is [n] itself below 2^53; a parameter
    that is there but empty, or an object, reaches it as NaN, not as the
    default. *)
Theorem getAllUsers_numerals (impl : interp) (req : request) (w : world) :
  ∃ page limit search,
    (run impl (UserController.getAllUsers req) w).2 = [GetAllUsers page limit search]
    ∧ numeric page ∧ numeric limit
    ∧ (∀ n : N, req_query req !! "page" = Some (QStr (pretty n)) →
         page = round_double (Z.of_N n) ∧ ((n < 2 ^ 53)%N → page = JNum (Z.of_N n)))
    ∧ (∀ n : N, req_query req !! "limit" = Some (QStr (pretty n)) →
         limit = round_double (Z.of_N n) ∧ ((n < 2 ^ 53)%N → limit = JNum (Z.of_N n)))
    ∧ (req_query req !! "page" = Some (QStr "") → page = JNaN)
    ∧ (req_query req !! "limit" = Some (QStr "") → limit = JNaN)
    ∧ (∀ fields, req_query req !! "page" = Some (QObj fields) → page = JNaN)
    ∧ (∀ fields, req_query req !! "limit" = Some (QObj fields) → limit = JNaN).
Proof.
  exists (UserController.parseInt_or (JNum 1) (req_query req !! "page")),
         (UserController.parseInt_or (JNum 20) (req_query req !! "limit")),
         (default (QStr "") (req_query req !! "search")).
  split_and!.
  - rewrite getAllUsers_program. cbn [run]. by destruct (impl _ w) as [[e|r] w1].
  - apply parseInt_or_numeric.
  - apply parseInt_or_numeric.
  - intros n ->. cbn [UserController.parseInt_or]. unfold parseInt_query. cbn [to_string].
    split; [apply parseInt_pretty|apply parseInt_pretty_safe].
  - intros n ->. cbn [UserController.parseInt_or]. unfold parseInt_query. cbn [to_string].
    split; [apply parseInt_pretty|apply parseInt_pretty_safe].
  - by intros ->.
  - by intros ->.
  - by intros fields ->.
  - by intros fields ->.
Qed.

Lemma getAllUsers_numerals_witness :
  ∃ search,
    (run perform (UserController.getAllUsers
                    (Request "" {[ "page" := QStr "12"; "limit" := QStr "9007199254740993" ]}
                             ∅ "admin")) sample).2
    = [GetAllUsers (JNum 12) (JNum 9007199254740992) search].
Proof.
  destruct (getAllUsers_numerals perform
              (Request "" {[ "page" := QStr "12"; "limit" := QStr "9007199254740993" ]}
                       ∅ "admin") sample)
    as (page & limit & search & Htr & _ & _ & Hp & Hl & _).
  destruct (Hp 12%N eq_refl) as [_ Hp']. destruct (Hl 9007199254740993%N eq_refl) as [Hl' _].
  rewrite Hp' in Htr by (by vm_compute). rewrite Hl' in Htr.
  exists search. rewrite Htr. reflexivity.
Defined.

(** X11: the status handlers reject only a missing value.  Any value that
    is not undefined (null, 0, the empty string and the string "false"
    among them) is passed to the service unchanged, in the one call the
    handler makes; and when that call resolves, the answer says "verified"
    (resp. "disabled") exactly when the value is truthy, "unverified"
    (resp. "enabled") otherwise. *)
Theorem status_value_passed_on (impl : interp) (req : request) (w : world) :
  (∀ v, req_body req !! "verified" = Some v → v ≠ JUndefined →
     let '(o, _, tr) := run impl (UserController.updateVerificationStatus req) w in
     tr = [UpdateVerificationStatus (req_params_id req) v]
     ∧ ∀ status body, o = Json status body →
         message body = (if truthy v then "User verified successfully"
                         else "User unverified successfully"))
  ∧ (∀ v, req_body req !! "disabled" = Some v → v ≠ JUndefined →
       let '(o, _, tr) := run impl (UserController.updateDisabledStatus req) w in
       tr = [UpdateDisabledStatus (req_params_id req) v]
       ∧ ∀ status body, o = Json status body →
           message body = (if truthy v then "User disabled successfully"
                           else "User enabled successfully")).
Proof.
  split; intros v Hv Hdef.
  - unfold UserController.updateVerificationStatus, prop. rewrite Hv.
    replace (default JUndefined (Some v)) with v by reflexivity.
    replace (negb (defined v)) with false by (by destruct v).
    cbn [bind await run]. destruct (impl _ w) as [[e|r] w1]; cbn [run bind ok].
    + split; [done|]. by intros ? ? [=].
    + split; [done|]. intros ? ? [= _ <-]. cbn [message]. by destruct (truthy v).
  - unfold UserController.updateDisabledStatus, prop. rewrite Hv.
    replace (default JUndefined (Some v)) with v by reflexivity.
    replace (negb (defined v)) with false by (by destruct v).
    cbn [bind await run]. destruct (impl _ w) as [[e|r] w1]; cbn [run bind ok].
    + split; [done|]. by intros ? ? [=].
    + split; [done|]. intros ? ? [= _ <-]. cbn [message]. by destruct (truthy v).
Qed.

Lemma status_value_passed_on_witness :
  let '(o, _, tr) :=
    run perform (UserController.updateVerificationStatus
                   (Request "u2" ∅ {[ "verified" := JStr "false" ]} "admin")) sample in
  tr = [UpdateVerificationStatus "u2" (JStr "false")]
  ∧ ∀ status body, o = Json status body → message body = "User verified successfully".
Proof.
  destruct (status_value_passed_on perform
              (Request "u2" ∅ {[ "verified" := JStr "false" ]} "admin") sample) as [H _].
  apply (H (JStr "false")); [reflexivity|discriminate].
Defined.

End Handlers.

(* ===================================================================== *)
(** ** getBlockedUsers                                                    *)
(* ===================================================================== *)

Section BlockedList.

Import BlockedUsers.

(** The statement names columns that [blocked_users] does not have. *)
Lemma blocked_query_missing :
  List.find column_missing (named_columns blocked_query)
  = Some ("blocked_users", "blocked_user_id").
Proof. reflexivity. Qed.

Lemma exec_join_blocked_query param db :
  exec_join blocked_query param db = inl (UndefinedColumn "blocked_users" "blocked_user_id").
Proof.
  unfold exec_join.
  replace (find_table schema (js_from blocked_query)) with (Some blocked_users) by reflexivity.
  replace (find_table schema (js_join blocked_query)) with (Some users) by reflexivity.
  by rewrite blocked_query_missing.
Qed.

(** Over the columns the table has, the statement lists whom a user has
    blocked. *)
Lemma blocked_query_by_schema_sample :
  map (fun r => (col r "blocked_user_id", col r "name", col r "phone_number"))
      (match exec_join blocked_query_by_schema (VText "u3") sample_db with
       | inr l => l
       | inl _ => []
       end)
  = [ (VText "u1", VText "Ann", VText "+100") ].
Proof. vm_compute. reflexivity. Qed.

(** X9: [getBlockedUsers] never lists anything.  In the file as it stands
    [query] is not bound: for every request the ReferenceError of
    evaluating it goes to [next], and no statement is sent.  With [query]
    imported, the SELECT names [bu.blocked_user_id] and [bu.user_id], and
    the table [blocked_users] has the columns [id, blocker_id, blocked_id,
    created_at]: for every request and every database the statement is
    rejected with an undefined-column error, which goes to [next].  Either
    way no 200 answer is sent and the world is untouched. *)
Theorem getBlockedUsers_never_lists (scope : list string) (req : request) (w : world) :
  (∃ e, getBlockedUsers scope req w = (NextList e, w))
  ∧ getBlockedUsers UserController.module_scope req w = (NextList unbound_query, w)
  ∧ ("query" ∈ scope →
     getBlockedUsers scope req w
     = (NextList (undefined_column "blocked_users" "blocked_user_id"), w))
  ∧ column_names blocked_users = ["id"; "blocker_id"; "blocked_id"; "created_at"]
  ∧ List.filter column_missing (named_columns blocked_query)
    = [ ("blocked_users", "blocked_user_id"); ("blocked_users", "user_id");
        ("blocked_users", "blocked_user_id") ].
Proof.
  split_and!; [| | |reflexivity|reflexivity].
  - unfold getBlockedUsers, query_rows. rewrite exec_join_blocked_query.
    destruct (bool_decide ("query" ∈ scope)); eauto.
  - unfold getBlockedUsers.
    by rewrite (bool_decide_eq_false_2 _ module_scope_unbound).
  - intros Hs. unfold getBlockedUsers, query_rows.
    by rewrite (bool_decide_eq_true_2 _ Hs), exec_join_blocked_query.
Qed.

Lemma getBlockedUsers_never_lists_witness :
  getBlockedUsers imported (Request "" ∅ ∅ "u3") sample
  = (NextList (undefined_column "blocked_users" "blocked_user_id"), sample)
  ∧ getBlockedUsers UserController.module_scope (Request "" ∅ ∅ "u3") sample
    = (NextList unbound_query, sample).
Proof.
  destruct (getBlockedUsers_never_lists imported (Request "" ∅ ∅ "u3") sample)
    as (_ & Hshipped & Himported & _).
  split; [apply Himported, imported_bound|exact Hshipped].
Defined.

End BlockedList.

(* ===================================================================== *)
(** ** Settings                                                           *)
(* ===================================================================== *)

Section Settings.

Import Index.

(** A Number other than 0 and NaN is truthy, and rounding an integer
    other than 0 does not give 0. *)
Lemma round_double_truthy (n : Z) : n ≠ 0%Z → truthy (round_double n) = true.
Proof.
  intros Hn. unfold round_double. destruct (Z.ltb_spec (Z.abs n) (2 ^ 53)) as [Hs|Hb].
  - cbn [truthy]. by apply negb_true_iff, Z.eqb_neq.
  - cbv zeta. destruct (2 ^ 1024 <=? _)%Z; [done|]. cbn [truthy].
    apply negb_true_iff, Z.eqb_neq.
    set (a := Z.abs n) in *. set (e := (Z.log2 a - 52)%Z).
    assert (Ha : (0 < a)%Z) by lia.
    assert (Hl : (53 <= Z.log2 a)%Z) by (by apply Z.log2_le_pow2).
    assert (He : (0 <= e)%Z) by lia.
    assert (Hq : (0 < Z.shiftr a e)%Z).
    { rewrite Z.shiftr_div_pow2 by done. apply Z.div_str_pos. split; [lia|].
      transitivity (2 ^ Z.log2 a)%Z; [apply Z.pow_le_mono_r; lia|].
      by apply Z.log2_spec. }
    rewrite Z.shiftl_mul_pow2 by done.
    assert (Hp : (0 < 2 ^ e)%Z) by (by apply Z.pow_pos_nonneg).
    destruct (_ || _); nia.
Qed.

Lemma or_else_number v d :
  numeric v → d ≠ 0%Z →
  numeric (or_else v (JNum d)) ∧ truthy (or_else v (JNum d)) = true
  ∧ (v = JNaN ∨ v = JNum 0 → or_else v (JNum d) = JNum d)
  ∧ (v ≠ JNaN → v ≠ JNum 0 → or_else v (JNum d) = v).
Proof.
  intros Hv Hd. unfold or_else. destruct v as [| | |m|b| |]; try done; cbn [truthy].
  - destruct (Z.eqb_spec m 0) as [->|Hm]; cbn [negb].
    + split_and!; [done| |done|done]. cbn [truthy]. by apply negb_true_iff, Z.eqb_neq.
    + split_and!; [done| | |done].
      * cbn [truthy]. by apply negb_true_iff, Z.eqb_neq.
      * by intros [[=]|[= ->]].
  - split_and!; [done|done| |done]. by intros [[=]|[=]].
  - split_and!; [done| |done|done]. cbn [truthy]. by apply negb_true_iff, Z.eqb_neq.
Qed.

Lemma or_else_numeral (x : N) d :
  or_else (parseInt_string (pretty x)) (JNum d)
  = if (x =? 0)%N then JNum d else round_double (Z.of_N x).
Proof.
  rewrite parseInt_pretty. unfold or_else. destruct (N.eqb_spec x 0) as [->|Hx]; [done|].
  by rewrite round_double_truthy by lia.
Qed.

(** X10: the settings [index.js] reads from the environment.  The rate
    limiter's window and maximum are always Numbers other than 0 and NaN:
    the defaults 900000 ms and 100 stand in not only when the variable is
    unset or does not start with a number but also when it parses to 0;
    any other parsed value, negative or infinite ones included, is taken
    as it is.  Written as the decimal numeral of [n], a variable gives the
    default for 0 and else the double nearest to [n].  The CORS origin is
    never the empty string ('*' unless a non-empty one is given), and the
    port is the number 3000 unless PORT is a non-empty string. *)
Theorem settings_defaults (env : gmap string string) :
  let c := configure env in
  let window := parseInt (env_var env "RATE_LIMIT_WINDOW_MS") in
  let max := parseInt (env_var env "RATE_LIMIT_MAX") in
  (numeric (rate_windowMs c) ∧ truthy (rate_windowMs c) = true
   ∧ (window = JNaN ∨ window = JNum 0 → rate_windowMs c = JNum 900000)
   ∧ (window ≠ JNaN → window ≠ JNum 0 → rate_windowMs c = window))
  ∧ (numeric (rate_max c) ∧ truthy (rate_max c) = true
     ∧ (max = JNaN ∨ max = JNum 0 → rate_max c = JNum 100)
     ∧ (max ≠ JNaN → max ≠ JNum 0 → rate_max c = max))
  ∧ (env !! "RATE_LIMIT_WINDOW_MS" = None → rate_windowMs c = JNum 900000)
  ∧ (env !! "RATE_LIMIT_MAX" = None → rate_max c = JNum 100)
  ∧ (∀ n : N, env !! "RATE_LIMIT_WINDOW_MS" = Some (pretty n) →
       rate_windowMs c = if (n =? 0)%N then JNum 900000 else round_double (Z.of_N n))
  ∧ (∀ n : N, env !! "RATE_LIMIT_MAX" = Some (pretty n) →
       rate_max c = if (n =? 0)%N then JNum 100 else round_double (Z.of_N n))
  ∧ (∃ s, cors_origin c = JStr s ∧ s ≠ ""
          ∧ (env !! "CORS_ORIGIN" = None ∨ env !! "CORS_ORIGIN" = Some "" → s = "*")
          ∧ (∀ o, env !! "CORS_ORIGIN" = Some o → o ≠ "" → s = o))
  ∧ (port c = JNum 3000 ↔ env !! "PORT" = None ∨ env !! "PORT" = Some "")
  ∧ (∀ s, env !! "PORT" = Some s → s ≠ "" → port c = JStr s).
Proof.
  cbv zeta. unfold configure. cbn [rate_windowMs rate_max cors_origin port].
  split_and!.
  - apply or_else_number; [apply parseInt_numeric|done].
  - apply or_else_number; [apply parseInt_numeric|done].
  - apply or_else_number; [apply parseInt_numeric|done].
  - apply or_else_number; [apply parseInt_numeric|done].
  - apply or_else_number; [apply parseInt_numeric|done].
  - apply or_else_number; [apply parseInt_numeric|done].
  - apply or_else_number; [apply parseInt_numeric|done].
  - apply or_else_number; [apply parseInt_numeric|done].
  - unfold env_var. by intros ->.
  - unfold env_var. by intros ->.
  - unfold env_var. intros n ->. cbn [fmap option_fmap option_map default parseInt].
    apply or_else_numeral.
  - unfold env_var. intros n ->. cbn [fmap option_fmap option_map default parseInt].
    apply or_else_numeral.
  - unfold env_var, or_else. destruct (env !! "CORS_ORIGIN") as [s|]; cbn.
    + destruct (String.eqb_spec s "") as [->|Hs]; cbn.
      * exists "*". split_and!; [done|done|done|]. by intros ? [= <-] ?.
      * exists s. split_and!; [done|done| |by intros ? [= <-] _]. by intros [[=]|[= ->]].
    + exists "*". by split_and!.
  - unfold env_var, or_else. destruct (env !! "PORT") as [s|]; cbn.
    + destruct (String.eqb_spec s "") as [->|Hs]; cbn.
      * split; [by right|done].
      * split; [done|]. by intros [[=]|[= ->]].
    + split; [by left|done].
  - unfold env_var, or_else. intros s -> Hs. cbn.
    by destruct (String.eqb_spec s "").
Qed.

Lemma settings_defaults_witness :
  rate_windowMs (configure {[ "RATE_LIMIT_MAX" := "0"; "PORT" := "8080" ]}) = JNum 900000
  ∧ rate_max (configure {[ "RATE_LIMIT_MAX" := "0"; "PORT" := "8080" ]}) = JNum 100
  ∧ port (configure {[ "RATE_LIMIT_MAX" := "0"; "PORT" := "8080" ]}) = JStr "8080"
  ∧ rate_max (configure {[ "RATE_LIMIT_MAX" := "250" ]}) = JNum 250.
Proof.
  destruct (settings_defaults {[ "RATE_LIMIT_MAX" := "0"; "PORT" := "8080" ]})
    as (_ & (_ & _ & Hzero & _) & Hwin & _ & _ & _ & _ & _ & Hport).
  destruct (settings_defaults {[ "RATE_LIMIT_MAX" := "250" ]})
    as (_ & _ & _ & _ & _ & Hnum & _).
  split_and!.
  - apply Hwin. reflexivity.
  - apply Hzero. right. reflexivity.
  - apply Hport; [reflexivity|discriminate].
  - rewrite (Hnum 250%N) by reflexivity. reflexivity.
Defined.

End Settings.
